(** * Tilemap: the tile-processing service [services/tileProcessor.ts]

    A shallow embedding of [detectCollision] and [processImage] together with
    the part of the browser platform they run on (canvas bitmaps, 2D drawing,
    pixel read-back, PNG data URLs, [Map], [JSON.stringify]) and, to read a
    manifest back, [JSON.parse].

    Conventions.
    - JavaScript numbers are modelled by [Z].  The service only ever computes
      with integers (image sizes, the tile size, grid indices), far below
      2^53, where [Math.floor (a / b)] is the integer quotient [a / b] and
      comparing [s / t] with [0.75] is the exact comparison of rationals.
      The tile size and the column count are positive integers (the caller
      clamps the tile size with [Math.max(1, parseInt(..))] and passes
      [columns: 8]); theorems state this where they need it.
    - A canvas is mutable in the source; here every drawing operation returns
      the updated canvas, and the loops thread it through as state.
    - [async]/[Promise]: a rejected promise is [Rejected e], a fulfilled one
      [Fulfilled r]. *)

From Stdlib Require Import ZArith QArith List String Ascii Bool Lia.
From Stdlib Require Import Init.Byte.
From Stdlib Require Import DecimalFacts DecimalPos DecimalN DecimalZ.
From stdpp Require Import base list gmap strings.

Local Open Scope Z_scope.

(** ** Pixels *)

(** One RGBA sample, one byte per channel, in the order of [ImageData.data]. *)
Record RGBA := { red : byte; green : byte; blue : byte; alpha : byte }.

Definition transparent : RGBA :=
  {| red := x00; green := x00; blue := x00; alpha := x00 |}.

Definition rgba_bytes (p : RGBA) : list byte :=
  [red p; green p; blue p; alpha p].

Definition byte_to_Z (b : byte) : Z := Z.of_N (Byte.to_N b).

(** ** The platform *)

(** What the browser supplies and the service does not define:
    - [source_over s d]: the default compositing operator of [drawImage],
      source pixel [s] drawn over destination pixel [d];
    - [encodePNG w h bytes]: the PNG data URL of a [w]x[h] bitmap whose
      RGBA bytes (row-major) are [bytes];
    - [toISOString]: the text of [new Date().toISOString()] at the call. *)
Class Platform := {
  source_over : RGBA -> RGBA -> RGBA;
  encodePNG : Z -> Z -> list byte -> string;
  toISOString : string
}.

(** ** Canvases and images *)

Module Canvas.
(** A bitmap of [width] x [height] pixels.  [bitmap x y] is only meaningful
    for [0 <= x < width] and [0 <= y < height]; see [sample]. *)
Record t := { width : Z; height : Z; bitmap : Z -> Z -> RGBA }.

Definition inside (c : t) (x y : Z) : bool :=
  (0 <=? x) && (x <? width c) && (0 <=? y) && (y <? height c).

(** Reading a pixel; outside the bitmap everything is transparent black. *)
Definition sample (c : t) (x y : Z) : RGBA :=
  if inside c x y then bitmap c x y else transparent.

(** [document.createElement('canvas')]: 300 x 150, transparent black. *)
Definition create : t :=
  {| width := 300; height := 150; bitmap := fun _ _ => transparent |}.

(** [canvas.width = w] and [canvas.height = h]: assigning a dimension
    clears the bitmap. *)
Definition set_width (c : t) (w : Z) : t :=
  {| width := w; height := height c; bitmap := fun _ _ => transparent |}.
Definition set_height (c : t) (h : Z) : t :=
  {| width := width c; height := h; bitmap := fun _ _ => transparent |}.
End Canvas.

(** An [HTMLImageElement] is read through the same interface as a canvas:
    its natural width and height and its decoded pixels. *)
Abbreviation HTMLImageElement := Canvas.t.
Abbreviation HTMLCanvasElement := Canvas.t.
(** A 2D context is the handle through which its canvas is drawn on and read
    back; operations on it take and return the canvas. *)
Abbreviation CanvasRenderingContext2D := Canvas.t.

(** [canvas.getContext('2d')].  A canvas made by [createElement] has no
    context yet, and for such a canvas the call returns the 2D context.  The
    service still tests the result for [null]. *)
Definition getContext2d (c : HTMLCanvasElement) : option CanvasRenderingContext2D :=
  Some c.

Definition in_rect (x y w h px py : Z) : bool :=
  (x <=? px) && (px <? x + w) && (y <=? py) && (py <? y + h).

(** [ctx.clearRect(x, y, w, h)] *)
Definition clearRect (ctx : CanvasRenderingContext2D) (x y w h : Z)
  : CanvasRenderingContext2D :=
  {| Canvas.width := Canvas.width ctx;
     Canvas.height := Canvas.height ctx;
     Canvas.bitmap := fun px py =>
       if in_rect x y w h px py then transparent else Canvas.bitmap ctx px py |}.

Module ImageData.
Record t := { width : Z; height : Z; data : list byte }.
End ImageData.

(** The RGBA bytes of the [w] x [h] rectangle with top-left corner
    [(x0, y0)], row by row. *)
Definition rect_bytes (c : Canvas.t) (x0 y0 w h : Z) : list byte :=
  flat_map (fun y =>
    flat_map (fun x => rgba_bytes (Canvas.sample c x y)) (seqZ x0 w))
    (seqZ y0 h).

(** [ctx.getImageData(sx, sy, sw, sh)].  Throws ([None]) when [sw] or [sh]
    is zero; a negative extent selects the rectangle to the left of (above)
    the corner. *)
Definition getImageData (ctx : CanvasRenderingContext2D) (sx sy sw sh : Z)
  : option ImageData.t :=
  if (sw =? 0) || (sh =? 0) then None
  else Some {| ImageData.width := Z.abs sw;
               ImageData.height := Z.abs sh;
               ImageData.data :=
                 rect_bytes ctx (Z.min sx (sx + sw)) (Z.min sy (sy + sh))
                            (Z.abs sw) (Z.abs sh) |}.

Section WithPlatform.
Context `{Platform}.

(** [ctx.drawImage(image, sx, sy, sw, sh, dx, dy, dw, dh)] for [dw = sw]
    and [dh = sh], the only way the service calls it (no resampling): the
    source rectangle is composited onto the destination rectangle, clipped
    to the destination canvas.  Where the source rectangle leaves the image
    the source pixel is transparent black; the service never draws from
    there, its cells lie inside the image. *)
Definition drawImage (ctx : CanvasRenderingContext2D) (image : Canvas.t)
    (sx sy sw sh dx dy : Z) : CanvasRenderingContext2D :=
  {| Canvas.width := Canvas.width ctx;
     Canvas.height := Canvas.height ctx;
     Canvas.bitmap := fun px py =>
       if in_rect dx dy sw sh px py
       then source_over (Canvas.sample image (px - dx + sx) (py - dy + sy))
                        (Canvas.bitmap ctx px py)
       else Canvas.bitmap ctx px py |}.

(** [ctx.drawImage(image, dx, dy)]: the whole image at [(dx, dy)]. *)
Definition drawImage3 (ctx : CanvasRenderingContext2D) (image : Canvas.t)
    (dx dy : Z) : CanvasRenderingContext2D :=
  drawImage ctx image 0 0 (Canvas.width image) (Canvas.height image) dx dy.

(** The canonical pixel bytes of a canvas: all of it, row-major RGBA. *)
Definition canvas_bytes (c : HTMLCanvasElement) : list byte :=
  rect_bytes c 0 0 (Canvas.width c) (Canvas.height c).

(** [canvas.toDataURL('image/png')].  A canvas without pixels gives the
    fixed string ["data:,"]. *)
Definition toDataURL (c : HTMLCanvasElement) : string :=
  if (Canvas.width c =? 0) || (Canvas.height c =? 0) then "data:,"%string
  else encodePNG (Canvas.width c) (Canvas.height c) (canvas_bytes c).
End WithPlatform.

(** ** [detectCollision] *)

(** The loop [for (let i = 3; i < pixels.length; i += 4)
    if (pixels[i] > 10) solidPixels++]: it visits the fourth byte of every
    complete group of four, with [solidPixels] as the accumulator. *)
Fixpoint countSolid (pixels : list byte) (solidPixels : Z) : Z :=
  match pixels with
  | _ :: _ :: _ :: a :: rest =>
      countSolid rest (if 10 <? byte_to_Z a then solidPixels + 1 else solidPixels)
  | _ => solidPixels
  end.

Definition Qgtb (a b : Q) : bool := negb (Qle_bool a b).

Definition detectCollision (ctx : CanvasRenderingContext2D) (size : Z) : bool :=
  match getImageData ctx 0 0 size size with
  | Some imgData =>
      let pixels := ImageData.data imgData in
      let solidPixels := countSolid pixels 0 in
      let totalPixels := size * size in
      Qgtb (inject_Z solidPixels / inject_Z totalPixels) (3 # 4)
  | None => false
  end.

(** ** [Map<string, HTMLCanvasElement>] *)

(** The service creates a [Map], asks [has] and calls [set]; it never
    iterates the map.  Any implementation of this interface will do. *)
Class JSMap (M : Type) := {
  map_new : M;
  map_has : M -> string -> bool;
  map_set : M -> string -> HTMLCanvasElement -> M;
  map_has_new : forall k, map_has map_new k = false;
  map_has_set : forall m k v k',
    map_has (map_set m k v) k' = if decide (k' = k) then true else map_has m k'
}.

(** A [gmap]: iterates in the order of the keys' encoding. *)
#[export, refine] Instance gmap_JSMap : JSMap (gmap string HTMLCanvasElement) := {
  map_new := ∅;
  map_has m k := bool_decide (is_Some (m !! k));
  map_set m k v := <[k := v]> m
}.
Proof.
  - intros k. apply bool_decide_eq_false. rewrite lookup_empty.
    intros [v Hv]. discriminate.
  - intros m k v k'. case_decide as Hk.
    + subst. apply bool_decide_eq_true. rewrite lookup_insert_eq. eauto.
    + rewrite lookup_insert_ne by congruence. reflexivity.
Defined.

(** An association list in insertion order, the iteration order of a
    JavaScript [Map]; [set] on a present key replaces the value in place. *)
Fixpoint assoc_has (m : list (string * HTMLCanvasElement)) (k : string) : bool :=
  match m with
  | [] => false
  | (k', _) :: rest => if decide (k = k') then true else assoc_has rest k
  end.

Fixpoint assoc_set (m : list (string * HTMLCanvasElement)) (k : string)
    (v : HTMLCanvasElement) : list (string * HTMLCanvasElement) :=
  match m with
  | [] => [(k, v)]
  | (k', v') :: rest =>
      if decide (k = k') then (k, v) :: rest else (k', v') :: assoc_set rest k v
  end.

#[export, refine] Instance assoc_JSMap : JSMap (list (string * HTMLCanvasElement)) := {
  map_new := [];
  map_has := assoc_has;
  map_set := assoc_set
}.
Proof.
  - reflexivity.
  - intros m k v k'. induction m as [|[k0 v0] rest IH]; simpl.
    + repeat case_decide; congruence.
    + repeat (case_decide; simpl); try congruence.
Defined.

(** ** [JSON.stringify] and [JSON.parse] *)

(** JSON values.  Numbers are integers, which is all the service writes; an
    object is the list of its members in property order. *)
#[warnings="-register-all"]
Inductive JSON :=
| JNull
| JNumber (n : Z)
| JString (s : string)
| JBool (b : bool)
| JArray (items : list JSON)
| JObject (members : list (string * JSON)).

Module JSONText.
Local Open Scope string_scope.

Definition hex_digit (n : N) : ascii :=
  match n with
  | 0 => "0" | 1 => "1" | 2 => "2" | 3 => "3" | 4 => "4" | 5 => "5"
  | 6 => "6" | 7 => "7" | 8 => "8" | 9 => "9" | 10 => "a" | 11 => "b"
  | 12 => "c" | 13 => "d" | 14 => "e" | _ => "f"
  end%N%char.

(** The double quote, character 34. *)
Definition dquote : string := String (ascii_of_N 34) "".

(** One character of a quoted string: the two-character escapes, [\u00XX]
    for the other control characters, everything else as it is. *)
Definition quote_char (c : ascii) : string :=
  let n := N_of_ascii c in
  if (n =? 8)%N then "\b"
  else if (n =? 9)%N then "\t"
  else if (n =? 10)%N then "\n"
  else if (n =? 12)%N then "\f"
  else if (n =? 13)%N then "\r"
  else if (n =? 34)%N then String "\" dquote
  else if (n =? 92)%N then "\\"
  else if (n <? 32)%N then
    "\u00" ++ String (hex_digit (n / 16)) (String (hex_digit (n mod 16)) "")
  else String c "".

Fixpoint quote_chars (s : string) : string :=
  match s with
  | EmptyString => ""
  | String c rest => quote_char c ++ quote_chars rest
  end.

Definition quote (s : string) : string := dquote ++ quote_chars s ++ dquote.

Definition newline : string := String (ascii_of_N 10) "".

Fixpoint digits (d : Decimal.uint) : string :=
  match d with
  | Decimal.Nil => ""
  | Decimal.D0 d => String "0" (digits d)
  | Decimal.D1 d => String "1" (digits d)
  | Decimal.D2 d => String "2" (digits d)
  | Decimal.D3 d => String "3" (digits d)
  | Decimal.D4 d => String "4" (digits d)
  | Decimal.D5 d => String "5" (digits d)
  | Decimal.D6 d => String "6" (digits d)
  | Decimal.D7 d => String "7" (digits d)
  | Decimal.D8 d => String "8" (digits d)
  | Decimal.D9 d => String "9" (digits d)
  end.

(** [Number.prototype.toString] of an integer: its decimal digits, with a
    leading ["-"] when negative. *)
Definition number (n : Z) : string :=
  match Z.to_int n with
  | Decimal.Pos d => digits d
  | Decimal.Neg d => "-" ++ digits d
  end.

Fixpoint join (sep : string) (parts : list string) : string :=
  match parts with
  | [] => ""
  | [p] => p
  | p :: rest => p ++ sep ++ join sep rest
  end.

(** [JSON.stringify(value, null, gap)] below the current [indent]. *)
Fixpoint serialize (gap indent : string) (v : JSON) : string :=
  match v with
  | JNull => "null"
  | JNumber n => number n
  | JString s => quote s
  | JBool b => if b then "true" else "false"
  | JArray items =>
      match items with
      | [] => "[]"
      | _ =>
          let stepback := indent in
          let indent := indent ++ gap in
          let separator := "," ++ newline ++ indent in
          "[" ++ newline ++ indent
              ++ join separator (map (serialize gap indent) items)
              ++ newline ++ stepback ++ "]"
      end
  | JObject members =>
      match members with
      | [] => "{}"
      | _ =>
          let stepback := indent in
          let indent := indent ++ gap in
          let separator := "," ++ newline ++ indent in
          "{" ++ newline ++ indent
              ++ join separator
                   (map (fun kv => quote (fst kv) ++ ": "
                                     ++ serialize gap indent (snd kv)) members)
              ++ newline ++ stepback ++ "}"
      end
  end.

(** [JSON.stringify(value, null, 2)] *)
Definition stringify2 (v : JSON) : string := serialize "  " "" v.

(** *** Parsing *)

Definition is_ws (c : ascii) : bool :=
  let n := N_of_ascii c in
  ((n =? 32) || (n =? 9) || (n =? 10) || (n =? 13))%N.

Fixpoint skip_ws (s : string) : string :=
  match s with
  | String c rest => if is_ws c then skip_ws rest else s
  | EmptyString => s
  end.

Definition digit_of (c : ascii) : option (Decimal.uint -> Decimal.uint) :=
  match N_of_ascii c with
  | 48 => Some Decimal.D0 | 49 => Some Decimal.D1 | 50 => Some Decimal.D2
  | 51 => Some Decimal.D3 | 52 => Some Decimal.D4 | 53 => Some Decimal.D5
  | 54 => Some Decimal.D6 | 55 => Some Decimal.D7 | 56 => Some Decimal.D8
  | 57 => Some Decimal.D9 | _ => None
  end%N.

(** The longest prefix of digits. *)
Fixpoint parse_digits (s : string) : Decimal.uint * string :=
  match s with
  | String c rest =>
      match digit_of c with
      | Some D => let (d, r) := parse_digits rest in (D d, r)
      | None => (Decimal.Nil, s)
      end
  | EmptyString => (Decimal.Nil, s)
  end.

(** A fraction or an exponent follows: not an integer. *)
Definition starts_fraction (s : string) : bool :=
  match s with
  | String c _ => ((c =? ".") || (c =? "e") || (c =? "E"))%char
  | EmptyString => false
  end.

(** Digits of an integer: at least one, no leading zero. *)
Definition parse_unsigned (s : string) : option (Decimal.uint * string) :=
  let (d, rest) := parse_digits s in
  if starts_fraction rest then None
  else
    match d with
    | Decimal.Nil => None
    | Decimal.D0 Decimal.Nil => Some (d, rest)
    | Decimal.D0 _ => None
    | _ => Some (d, rest)
    end.

Definition parse_number (s : string) : option (Z * string) :=
  match s with
  | String c rest =>
      if (c =? "-")%char then
        match parse_unsigned rest with
        | Some (d, r) => Some (Z.of_int (Decimal.Neg d), r)
        | None => None
        end
      else
        match parse_unsigned s with
        | Some (d, r) => Some (Z.of_int (Decimal.Pos d), r)
        | None => None
        end
  | EmptyString => None
  end.

Definition hex_value (c : ascii) : option N :=
  let n := N_of_ascii c in
  (if (48 <=? n) && (n <=? 57) then Some (n - 48)
   else if (97 <=? n) && (n <=? 102) then Some (n - 87)
   else if (65 <=? n) && (n <=? 70) then Some (n - 55)
   else None)%N.

(** The character an escape letter stands for. *)
Definition unescape (c : ascii) : option ascii :=
  let n := N_of_ascii c in
  (if n =? 34 then Some (ascii_of_N 34)
   else if n =? 92 then Some (ascii_of_N 92)
   else if n =? 47 then Some (ascii_of_N 47)
   else if n =? 98 then Some (ascii_of_N 8)
   else if n =? 102 then Some (ascii_of_N 12)
   else if n =? 110 then Some (ascii_of_N 10)
   else if n =? 114 then Some (ascii_of_N 13)
   else if n =? 116 then Some (ascii_of_N 9)
   else None)%N.

Definition prepend (c : ascii) (r : option (string * string))
  : option (string * string) :=
  match r with
  | Some (str, rest) => Some (String c str, rest)
  | None => None
  end.

(** The body of a string literal, after the opening quote and up to the
    closing one.  Of the [\uXXXX] escapes only those of ASCII characters are
    read; a raw control character is an error. *)
Fixpoint parse_chars (s : string) : option (string * string) :=
  match s with
  | EmptyString => None
  | String c rest =>
      let n := N_of_ascii c in
      if (n =? 34)%N then Some ("", rest)
      else if (n =? 92)%N then
        match rest with
        | String e rest1 =>
            if (N_of_ascii e =? 117)%N then
              match rest1 with
              | String h1 (String h2 (String h3 (String h4 rest2))) =>
                  match hex_value h1, hex_value h2, hex_value h3, hex_value h4 with
                  | Some a, Some b, Some c, Some d =>
                      let code := (((a * 16 + b) * 16 + c) * 16 + d)%N in
                      if (code <? 128)%N
                      then prepend (ascii_of_N code) (parse_chars rest2)
                      else None
                  | _, _, _, _ => None
                  end
              | _ => None
              end
            else
              match unescape e with
              | Some ch => prepend ch (parse_chars rest1)
              | None => None
              end
        | EmptyString => None
        end
      else if (n <? 32)%N then None
      else prepend c (parse_chars rest)
  end.

Fixpoint strip_prefix (p s : string) : option string :=
  match p, s with
  | EmptyString, _ => Some s
  | String a p', String b s' => if (a =? b)%char then strip_prefix p' s' else None
  | String _ _, EmptyString => None
  end.

(** The elements of an array after the opening bracket, given the parser
    [pv] of one value. *)
Fixpoint parse_elements (pv : string -> option (JSON * string)) (fuel : nat)
    (s : string) : option (list JSON * string) :=
  match fuel with
  | O => None
  | S fuel =>
      match pv s with
      | Some (v, rest) =>
          match skip_ws rest with
          | String c rest' =>
              if (c =? ",")%char then
                match parse_elements pv fuel rest' with
                | Some (vs, rest'') => Some (v :: vs, rest'')
                | None => None
                end
              else if (c =? "]")%char then Some ([v], rest')
              else None
          | EmptyString => None
          end
      | None => None
      end
  end.

(** The members of an object after the opening brace. *)
Fixpoint parse_members (pv : string -> option (JSON * string)) (fuel : nat)
    (s : string) : option (list (string * JSON) * string) :=
  match fuel with
  | O => None
  | S fuel =>
      match skip_ws s with
      | String q rest =>
          if (N_of_ascii q =? 34)%N then
            match parse_chars rest with
            | Some (key, rest1) =>
                match skip_ws rest1 with
                | String c rest2 =>
                    if (c =? ":")%char then
                      match pv rest2 with
                      | Some (v, rest3) =>
                          match skip_ws rest3 with
                          | String c' rest4 =>
                              if (c' =? ",")%char then
                                match parse_members pv fuel rest4 with
                                | Some (ms, rest5) => Some ((key, v) :: ms, rest5)
                                | None => None
                                end
                              else if (c' =? "}")%char then Some ([(key, v)], rest4)
                              else None
                          | EmptyString => None
                          end
                      | None => None
                      end
                    else None
                | EmptyString => None
                end
            | None => None
            end
          else None
      | EmptyString => None
      end
  end.

(** One value, after optional white space; the rest of the input is
    returned. *)
Fixpoint parse_value (fuel : nat) (s : string) : option (JSON * string) :=
  match fuel with
  | O => None
  | S fuel =>
      match skip_ws s with
      | EmptyString => None
      | String c rest =>
          if (c =? "{")%char then
            match skip_ws rest with
            | String c' rest' =>
                if (c' =? "}")%char then Some (JObject [], rest')
                else
                  match parse_members (parse_value fuel) fuel rest with
                  | Some (ms, r) => Some (JObject ms, r)
                  | None => None
                  end
            | EmptyString => None
            end
          else if (c =? "[")%char then
            match skip_ws rest with
            | String c' rest' =>
                if (c' =? "]")%char then Some (JArray [], rest')
                else
                  match parse_elements (parse_value fuel) fuel rest with
                  | Some (vs, r) => Some (JArray vs, r)
                  | None => None
                  end
            | EmptyString => None
            end
          else if (N_of_ascii c =? 34)%N then
            match parse_chars rest with
            | Some (str, r) => Some (JString str, r)
            | None => None
            end
          else if (c =? "t")%char then
            match strip_prefix "rue" rest with
            | Some r => Some (JBool true, r)
            | None => None
            end
          else if (c =? "f")%char then
            match strip_prefix "alse" rest with
            | Some r => Some (JBool false, r)
            | None => None
            end
          else if (c =? "n")%char then
            match strip_prefix "ull" rest with
            | Some r => Some (JNull, r)
            | None => None
            end
          else
            match parse_number (String c rest) with
            | Some (n, r) => Some (JNumber n, r)
            | None => None
            end
      end
  end.

(** [JSON.parse(text)]: one value and nothing but white space after it.
    [None] is a [SyntaxError] (or a text outside this model: fractions,
    exponents, non-ASCII escapes). *)
Definition parse (text : string) : option JSON :=
  match parse_value (String.length text) text with
  | Some (v, rest) =>
      match skip_ws rest with
      | EmptyString => Some v
      | String _ _ => None
      end
  | None => None
  end.

(** *** Notions used to state the round trip *)

Fixpoint all_ws (s : string) : bool :=
  match s with
  | EmptyString => true
  | String c rest => is_ws c && all_ws rest
  end.

(** What may follow a value in a text: nothing, a comma or a line break. *)
Definition delimited (s : string) : bool :=
  match s with
  | EmptyString => true
  | String c _ => ((c =? ",")%char || (N_of_ascii c =? 10)%N)
  end.

(** The text starts with a digit. *)
Definition digit_head (s : string) : bool :=
  match s with
  | String c _ => match digit_of c with Some _ => true | None => false end
  | EmptyString => false
  end.

(** A character that can start a value: no white space, no closing
    bracket. *)
Definition value_start (c : ascii) : bool :=
  negb (is_ws c) && negb (c =? "]")%char && negb (c =? "}")%char.

(** The number of nodes of a value. *)
Fixpoint size (v : JSON) : nat :=
  match v with
  | JArray items => S (list_sum (map size items))
  | JObject members => S (list_sum (map (fun kv => size (snd kv)) members))
  | _ => 1
  end.
End JSONText.

(** ** The service's types *)

Inductive Mode := original | optimized.

Definition mode_name (m : Mode) : string :=
  match m with original => "original" | optimized => "optimized" end.

Module ProcessOptions.
(** [columns?: number]: absent is [None]. *)
Record t := { tileSize : Z; mode : Mode; columns : option Z }.
End ProcessOptions.

Module TileData.
Record t := { id : Z; x : Z; y : Z; isSolid : bool }.
End TileData.

Module ProcessResult.
Record t := {
  dataUrl : string;
  width : Z;
  height : Z;
  totalTiles : Z;
  uniqueTiles : Z;
  tiles : list TileData.t;
  jsonContent : string
}.
End ProcessResult.

(** The three [throw new Error(..)] of [processImage], in source order: the
    image is smaller than one tile; no 2D context for the scratch canvas; no
    2D context for the result canvas. *)
Inductive Error := InvalidDimensions | NoTempContext | NoResultContext.

Inductive Promise (A : Type) :=
| Fulfilled (value : A)
| Rejected (reason : Error).
Arguments Fulfilled {A} value.
Arguments Rejected {A} reason.

(** [for (let i = 0; i < n; i++) body], threading the state [s]. *)
Definition for_range {S : Type} (n : Z) (body : S -> Z -> S) (s : S) : S :=
  foldl body s (seqZ 0 n).

(** [list.forEach((item, index) => body)], threading the state [s]. *)
Fixpoint forEach {A S : Type} (body : S -> A -> Z -> S) (l : list A)
    (index : Z) (s : S) : S :=
  match l with
  | [] => s
  | item :: rest => forEach body rest (index + 1) (body s item index)
  end.

(** [Math.ceil(a / b)] on integers. *)
Definition ceil_div (a b : Z) : Z := - ((- a) / b).

Module UniqueTile.
(** An entry of [uniqueTilesList]. *)
Record t := { canvas : HTMLCanvasElement; hash : string }.
End UniqueTile.

Section ProcessImage.
Context `{Platform} {M : Type} `{JSMap M}.

(** The state of the scan in optimized mode: the scratch canvas and the
    two collections of unique tiles. *)
Record Scan := {
  tempCanvas : HTMLCanvasElement;
  uniqueTilesMap : M;
  uniqueTilesList : list UniqueTile.t
}.

(** The two statements that open the body of both scans: clear the scratch
    canvas and draw cell [(x, y)] of the source onto it. *)
Definition extractTile (tempCtx : CanvasRenderingContext2D)
    (sourceImage : HTMLImageElement) (tileSize x y : Z)
  : CanvasRenderingContext2D :=
  let tempCtx := clearRect tempCtx 0 0 tileSize tileSize in
  drawImage tempCtx sourceImage (x * tileSize) (y * tileSize) tileSize tileSize 0 0.

(** Body of the inner loop in original mode. *)
Definition originalCell (sourceImage : HTMLImageElement) (tileSize cols y : Z)
    (st : CanvasRenderingContext2D * list TileData.t) (x : Z)
  : CanvasRenderingContext2D * list TileData.t :=
  let '(tempCtx, resultTiles) := st in
  let tempCtx := extractTile tempCtx sourceImage tileSize x y in
  let isSolid := detectCollision tempCtx tileSize in
  let id := y * cols + x in
  (tempCtx,
   resultTiles ++ [ {| TileData.id := id;
                       TileData.x := x * tileSize;
                       TileData.y := y * tileSize;
                       TileData.isSolid := isSolid |} ]).

(** Body of the inner loop in optimized mode. *)
Definition optimizedCell (sourceImage : HTMLImageElement) (tileSize y : Z)
    (st : Scan) (x : Z) : Scan :=
  let tempCanvas := extractTile (tempCanvas st) sourceImage tileSize x y in
  let tileHash := toDataURL tempCanvas in
  if negb (map_has (uniqueTilesMap st) tileHash) then
    let tileCanvas := Canvas.create in
    let tileCanvas := Canvas.set_width tileCanvas tileSize in
    let tileCanvas := Canvas.set_height tileCanvas tileSize in
    let tileCanvas :=
      match getContext2d tileCanvas with
      | Some tileCtx => drawImage3 tileCtx tempCanvas 0 0
      | None => tileCanvas
      end in
    {| tempCanvas := tempCanvas;
       uniqueTilesMap := map_set (uniqueTilesMap st) tileHash tileCanvas;
       uniqueTilesList :=
         uniqueTilesList st ++ [ {| UniqueTile.canvas := tileCanvas;
                                    UniqueTile.hash := tileHash |} ] |}
  else
    {| tempCanvas := tempCanvas;
       uniqueTilesMap := uniqueTilesMap st;
       uniqueTilesList := uniqueTilesList st |}.

(** The callback of [uniqueTilesList.forEach]. *)
Definition packTile (tileSize outCols : Z)
    (st : CanvasRenderingContext2D * list TileData.t)
    (item : UniqueTile.t) (index : Z)
  : CanvasRenderingContext2D * list TileData.t :=
  let '(resultCtx, resultTiles) := st in
  let drawCol := Z.rem index outCols in
  let drawRow := index / outCols in
  let drawX := drawCol * tileSize in
  let drawY := drawRow * tileSize in
  let resultCtx := drawImage3 resultCtx (UniqueTile.canvas item) drawX drawY in
  let isSolid :=
    match getContext2d (UniqueTile.canvas item) with
    | Some tileTempCtx => detectCollision tileTempCtx tileSize
    | None => false
    end in
  (resultCtx,
   resultTiles ++ [ {| TileData.id := index;
                       TileData.x := drawX;
                       TileData.y := drawY;
                       TileData.isSolid := isSolid |} ]).

(** The object handed to [JSON.stringify]. *)
Definition jsonOutput (tileSize : Z) (mode : Mode)
    (resultCanvas : HTMLCanvasElement) (resultTiles : list TileData.t) : JSON :=
  JObject [
    ("info"%string, JObject [
       ("tool"%string, JString "TileSlicer Pro");
       ("version"%string, JString "1.0.0");
       ("generatedAt"%string, JString toISOString) ]);
    ("config"%string, JObject [
       ("tileSize"%string, JNumber tileSize);
       ("mode"%string, JString (mode_name mode));
       ("width"%string, JNumber (Canvas.width resultCanvas));
       ("height"%string, JNumber (Canvas.height resultCanvas)) ]);
    ("tiles"%string, JArray (map (fun t =>
       JObject [ ("id"%string, JNumber (TileData.id t));
                 ("collision"%string, JBool (TileData.isSolid t)) ])
       resultTiles)) ].

(** The result canvas, [uniqueCount] and [resultTiles] after the branch on
    [mode]. *)
Definition runMode (sourceImage : HTMLImageElement) (tileSize : Z)
    (mode : Mode) (columns cols rows totalTilesPossible : Z)
    (tempCtx resultCtx : CanvasRenderingContext2D)
  : HTMLCanvasElement * Z * list TileData.t :=
  match mode with
  | original =>
      let finalWidth := cols * tileSize in
      let finalHeight := rows * tileSize in
      let resultCtx := Canvas.set_width resultCtx finalWidth in
      let resultCtx := Canvas.set_height resultCtx finalHeight in
      let resultCtx := clearRect resultCtx 0 0 finalWidth finalHeight in
      let resultCtx :=
        drawImage resultCtx sourceImage 0 0 finalWidth finalHeight 0 0 in
      let uniqueCount := totalTilesPossible in
      let '(_, resultTiles) :=
        for_range rows (fun st y =>
          for_range cols (originalCell sourceImage tileSize cols y) st)
          (tempCtx, []) in
      (resultCtx, uniqueCount, resultTiles)
  | optimized =>
      let scan :=
        for_range rows (fun st y =>
          for_range cols (optimizedCell sourceImage tileSize y) st)
          {| tempCanvas := tempCtx;
             uniqueTilesMap := map_new;
             uniqueTilesList := [] |} in
      let uniqueCount := Z.of_nat (length (uniqueTilesList scan)) in
      let outCols := columns in
      let outRows := ceil_div uniqueCount outCols in
      let resultCtx := Canvas.set_width resultCtx (outCols * tileSize) in
      let resultCtx := Canvas.set_height resultCtx (outRows * tileSize) in
      let resultCtx :=
        clearRect resultCtx 0 0 (Canvas.width resultCtx) (Canvas.height resultCtx) in
      let '(resultCtx, resultTiles) :=
        forEach (packTile tileSize outCols) (uniqueTilesList scan) 0
                (resultCtx, []) in
      (resultCtx, uniqueCount, resultTiles)
  end.

Definition processImage (sourceImage : HTMLImageElement)
    (options : ProcessOptions.t) : Promise ProcessResult.t :=
  let tileSize := ProcessOptions.tileSize options in
  let mode := ProcessOptions.mode options in
  let columns := default 8 (ProcessOptions.columns options) in
  let cols := Canvas.width sourceImage / tileSize in
  let rows := Canvas.height sourceImage / tileSize in
  let totalTilesPossible := cols * rows in
  if totalTilesPossible =? 0 then Rejected InvalidDimensions
  else
    let tempCanvas := Canvas.create in
    let tempCanvas := Canvas.set_width tempCanvas tileSize in
    let tempCanvas := Canvas.set_height tempCanvas tileSize in
    match getContext2d tempCanvas with
    | None => Rejected NoTempContext
    | Some tempCtx =>
        let resultCanvas := Canvas.create in
        match getContext2d resultCanvas with
        | None => Rejected NoResultContext
        | Some resultCtx =>
            let '(resultCanvas, uniqueCount, resultTiles) :=
              runMode sourceImage tileSize mode columns cols rows
                      totalTilesPossible tempCtx resultCtx in
            Fulfilled
              {| ProcessResult.dataUrl := toDataURL resultCanvas;
                 ProcessResult.width := Canvas.width resultCanvas;
                 ProcessResult.height := Canvas.height resultCanvas;
                 ProcessResult.totalTiles := totalTilesPossible;
                 ProcessResult.uniqueTiles := uniqueCount;
                 ProcessResult.tiles := resultTiles;
                 ProcessResult.jsonContent :=
                   JSONText.stringify2
                     (jsonOutput tileSize mode resultCanvas resultTiles) |}
        end
    end.
End ProcessImage.


(** ** Specification-side definitions *)

(** The cells of a [cols] x [rows] grid in row-major order, as [(x, y)]. *)
Definition row_major (cols rows : Z) : list (Z * Z) :=
  flat_map (fun y => map (fun x => (x, y)) (seqZ 0 cols)) (seqZ 0 rows).

(** First-seen deduplication: the elements of [l], in order, whose key is
    neither in [seen] nor the key of an earlier element of [l]. *)
Fixpoint discover {A K : Type} `{EqDecision K} (key : A -> K) (seen : list K)
    (l : list A) : list A :=
  match l with
  | [] => []
  | a :: rest =>
      if decide (key a ∈ seen) then discover key seen rest
      else a :: discover key (key a :: seen) rest
  end.

(** The exact pixel bytes of cell [(x, y)] of the source: row-major RGBA of
    the [tileSize] x [tileSize] block at [(x * tileSize, y * tileSize)]. *)
Definition tile_bytes (sourceImage : HTMLImageElement) (tileSize : Z)
    (cell : Z * Z) : list byte :=
  rect_bytes sourceImage (fst cell * tileSize) (snd cell * tileSize)
             tileSize tileSize.

(** The number of pixels of the [size] x [size] block at the origin whose
    alpha exceeds 10. *)
Definition opaque_count (c : Canvas.t) (size : Z) : Z :=
  Z.of_nat (length (filter
    (fun p : Z * Z => 10 < byte_to_Z (alpha (Canvas.sample c (fst p) (snd p))))
    (row_major size size))).

(** A scratch canvas as [processImage] sets it up. *)
Definition scratch (tileSize : Z) : HTMLCanvasElement :=
  Canvas.set_height (Canvas.set_width Canvas.create tileSize) tileSize.

Section Fingerprint.
Context `{Platform}.

(** The fingerprint [tileHash] that the optimized scan computes for a cell. *)
Definition cellHash (sourceImage : HTMLImageElement) (tileSize : Z)
    (cell : Z * Z) : string :=
  toDataURL (extractTile (scratch tileSize) sourceImage tileSize
                         (fst cell) (snd cell)).
End Fingerprint.

Section Drawn.
Context `{Platform}.

(** A pixel drawn with [drawImage] onto a cleared (transparent) pixel. *)
Definition drawn (p : RGBA) : RGBA := source_over p transparent.
End Drawn.

Section Represents.
Context `{Platform}.

(** [item] is the retained copy of cell [c]: it carries the cell's
    fingerprint, and its canvas is [tileSize] square and holds the pixels of
    the scratch canvas drawn onto a fresh (transparent) canvas. *)
Definition represents (sourceImage : HTMLImageElement) (tileSize : Z)
    (c : Z * Z) (item : UniqueTile.t) : Prop :=
  UniqueTile.hash item = cellHash sourceImage tileSize c
  /\ Canvas.width (UniqueTile.canvas item) = tileSize
  /\ Canvas.height (UniqueTile.canvas item) = tileSize
  /\ forall i j, 0 <= i < tileSize -> 0 <= j < tileSize ->
       Canvas.sample (UniqueTile.canvas item) i j
       = drawn (drawn (Canvas.sample sourceImage (fst c * tileSize + i)
                                     (snd c * tileSize + j))).
End Represents.

(** The entry of [resultTiles] that [packTile] pushes for [item] at
    [index]. *)
Definition packedTile (tileSize outCols index : Z) (item : UniqueTile.t)
  : TileData.t :=
  {| TileData.id := index;
     TileData.x := Z.rem index outCols * tileSize;
     TileData.y := index / outCols * tileSize;
     TileData.isSolid := detectCollision (UniqueTile.canvas item) tileSize |}.

Section CellSolid.
Context `{Platform}.

(** The collision flag of cell [c] of the source. *)
Definition cellSolid (sourceImage : HTMLImageElement) (tileSize : Z)
    (c : Z * Z) : bool :=
  detectCollision
    (extractTile (scratch tileSize) sourceImage tileSize (fst c) (snd c))
    tileSize.

(** The entry of [resultTiles] that original mode pushes for cell [c]. *)
Definition originalTile (sourceImage : HTMLImageElement) (tileSize cols : Z)
    (c : Z * Z) : TileData.t :=
  {| TileData.id := snd c * cols + fst c;
     TileData.x := fst c * tileSize;
     TileData.y := snd c * tileSize;
     TileData.isSolid := cellSolid sourceImage tileSize c |}.

(** The result canvas of original mode: the whole grid area of the source
    drawn at the origin. *)
Definition originalCanvas (sourceImage : HTMLImageElement)
    (tileSize cols rows : Z) : HTMLCanvasElement :=
  let finalWidth := cols * tileSize in
  let finalHeight := rows * tileSize in
  drawImage
    (clearRect
       (Canvas.set_height (Canvas.set_width Canvas.create finalWidth) finalHeight)
       0 0 finalWidth finalHeight)
    sourceImage 0 0 finalWidth finalHeight 0 0.

(** The result canvas of optimized mode before the tiles are drawn. *)
Definition emptyAtlas (tileSize outCols uniqueCount : Z) : HTMLCanvasElement :=
  let w := outCols * tileSize in
  let h := ceil_div uniqueCount outCols * tileSize in
  clearRect (Canvas.set_height (Canvas.set_width Canvas.create w) h) 0 0 w h.

(** The result canvas of optimized mode: the unique tiles drawn in turn. *)
Definition atlasCanvas (tileSize outCols : Z) (items : list UniqueTile.t)
  : HTMLCanvasElement :=
  fst (forEach (packTile tileSize outCols) items 0
         (emptyAtlas tileSize outCols (Z.of_nat (length items)), [])).
End CellSolid.

(** ** A concrete platform and concrete images *)

#[export] Instance byte_eq_dec : EqDecision byte := Byte.byte_eq_dec.

Module Example.
(** Compositing that keeps the source pixel on a cleared destination and
    the destination under a fully transparent source; a data URL that spells
    out the bytes. *)
Definition platform : Platform :=
  {| source_over := fun s d =>
       if byte_to_Z (alpha d) =? 0 then s
       else if byte_to_Z (alpha s) =? 0 then d else s;
     encodePNG := fun _ _ bytes => string_of_list_byte bytes;
     toISOString := "2024-01-01T00:00:00.000Z" |}.

Definition image (w h : Z) (f : Z -> Z -> RGBA) : HTMLImageElement :=
  {| Canvas.width := w; Canvas.height := h; Canvas.bitmap := f |}.

(** An opaque pixel whose red channel is [k]. *)
Definition opaque (k : Z) : RGBA :=
  {| red := default x00 (Byte.of_N (Z.to_N k)); green := x00; blue := x00;
     alpha := xff |}.

Definition options (tileSize : Z) (mode : Mode) : ProcessOptions.t :=
  {| ProcessOptions.tileSize := tileSize;
     ProcessOptions.mode := mode;
     ProcessOptions.columns := Some 8 |}.

(** [processImage] on the example platform, with a [gmap] as the map. *)
Definition run : HTMLImageElement -> ProcessOptions.t -> Promise ProcessResult.t :=
  processImage (H := platform) (M := gmap string HTMLCanvasElement).

(** Scenario A: 96 x 96, four tiles of 48 x 48 in four colours. *)
Definition imageA : HTMLImageElement :=
  image 96 96 (fun x y => opaque (x / 48 + 2 * (y / 48))).

(** Scenario B: 96 x 48 whose two halves are the same gradient. *)
Definition imageB : HTMLImageElement :=
  image 96 48 (fun x y => opaque (x mod 48 + y)).

(** Scenario C: 40 x 40, smaller than one tile of 48. *)
Definition imageC : HTMLImageElement :=
  image 40 40 (fun _ _ => opaque 7).


(** 6 x 4 with tiles of 2: the cells of the first row are [a b a], those of
    the second [b c c]; cell [c] is transparent. *)
Definition imageS : HTMLImageElement :=
  image 6 4 (fun x y =>
    let k := x / 2 + 3 * (y / 2) in
    if (k =? 0) || (k =? 2) then opaque 1
    else if (k =? 1) || (k =? 3) then opaque 2
    else transparent).

(** A fully opaque and a fully transparent 48 x 48 tile. *)
Definition opaqueTile : HTMLCanvasElement := image 48 48 (fun _ _ => opaque 0).
Definition clearTile : HTMLCanvasElement := image 48 48 (fun _ _ => transparent).
End Example.

Section InStep.
Context {M1 M2 : Type} `{JSMap M1} `{JSMap M2}.

(** Two scans over different map implementations stay in step: same
    scratch canvas, same unique list, maps with the same members. *)
Definition in_step (st1 : Scan (M := M1)) (st2 : Scan (M := M2)) : Prop :=
  tempCanvas st1 = tempCanvas st2
  /\ uniqueTilesList st1 = uniqueTilesList st2
  /\ forall k, map_has (uniqueTilesMap st1) k = map_has (uniqueTilesMap st2) k.

End InStep.

(** ** Reading a manifest back *)

(** [object[key]] on a parsed value. *)
Definition member (key : string) (v : JSON) : option JSON :=
  match v with
  | JObject members =>
      match find (fun kv => String.eqb (fst kv) key) members with
      | Some kv => Some (snd kv)
      | None => None
      end
  | _ => None
  end.

(** One [{id, collision}] entry. *)
Definition readTile (entry : JSON) : option (Z * bool) :=
  match member "id" entry, member "collision" entry with
  | Some (JNumber id), Some (JBool collision) => Some (id, collision)
  | _, _ => None
  end.

Fixpoint readTiles (entries : list JSON) : option (list (Z * bool)) :=
  match entries with
  | [] => Some []
  | entry :: rest =>
      match readTile entry, readTiles rest with
      | Some t, Some ts => Some (t :: ts)
      | _, _ => None
      end
  end.

(** The [(id, collision)] pairs of the [tiles] array of a manifest. *)
Definition manifestTiles (manifest : JSON) : option (list (Z * bool)) :=
  match member "tiles" manifest with
  | Some (JArray entries) => readTiles entries
  | _ => None
  end.

(** ** Two runs *)

(** The same platform at another time: [new Date().toISOString()] returns
    [now], everything else is unchanged. *)
Definition at_time (P : Platform) (now : string) : Platform :=
  {| source_over := source_over (Platform := P);
     encodePNG := encodePNG (Platform := P);
     toISOString := now |}.

(** A result without its manifest text (the only part that shows the time
    of the run). *)
Definition tilesetOf (p : Promise ProcessResult.t)
  : Promise (string * Z * Z * Z * Z * list TileData.t) :=
  match p with
  | Fulfilled r =>
      Fulfilled (ProcessResult.dataUrl r, ProcessResult.width r,
                 ProcessResult.height r, ProcessResult.totalTiles r,
                 ProcessResult.uniqueTiles r, ProcessResult.tiles r)
  | Rejected e => Rejected e
  end.

(** ** Reading a result *)

#[export] Instance RGBA_eq_dec : EqDecision RGBA.
Proof. solve_decision. Defined.

Section Decodes.
Context `{Platform}.

(** [image] is what the output of [res] decodes to: a bitmap of the size
    the result states whose PNG data URL is [dataUrl]. *)
Definition decodes (image : HTMLImageElement) (res : ProcessResult.t) : Prop :=
  Canvas.width image = ProcessResult.width res
  /\ Canvas.height image = ProcessResult.height res
  /\ toDataURL image = ProcessResult.dataUrl res.
End Decodes.

(** * The application component [App.tsx]

    The component keeps its state in twelve [useState] cells and changes
    them in event handlers.  A handler is modelled as a function from the
    state before to the state after; what a handler leaves to a later
    callback ([img.onload], the [setTimeout] of [handleProcess]) is a
    function of its own. *)

(** ** Platform functions the component calls *)

Module JS.
Local Open Scope string_scope.

(** White space that [parseInt] skips: the ASCII members of
    [StrWhiteSpaceChar] (a number input never holds another one). *)
Definition is_space (c : ascii) : bool :=
  let n := N_of_ascii c in
  ((n =? 9) || (n =? 10) || (n =? 11) || (n =? 12) || (n =? 13) || (n =? 32))%N.

Fixpoint trim_start (s : string) : string :=
  match s with
  | String c rest => if is_space c then trim_start rest else s
  | EmptyString => s
  end.

(** The longest prefix of hexadecimal digits, read onto [acc]; [None] as
    long as no digit was read. *)
Fixpoint parse_hex (s : string) (acc : option Z) : option Z :=
  match s with
  | String c rest =>
      match JSONText.hex_value c with
      | Some d => parse_hex rest (Some (default 0 acc * 16 + Z.of_N d))
      | None => acc
      end
  | EmptyString => acc
  end.

(** [parseInt(s)], no radix given: leading white space, a sign, then
    hexadecimal digits after [0x] or [0X] and decimal digits otherwise, up
    to the first character that is no digit.  [None] is [NaN] (no digit).
    The number returned is this integer as long as it is below 2^53 in
    absolute value. *)
Definition parseInt (s : string) : option Z :=
  let s := trim_start s in
  let '(sign, s) :=
    match s with
    | String c rest =>
        if (c =? "-")%char then (-1, rest)
        else if (c =? "+")%char then (1, rest)
        else (1, s)
    | EmptyString => (1, s)
    end in
  let hex :=
    match s with
    | String z (String x rest) =>
        if ((z =? "0") && ((x =? "x") || (x =? "X")))%char then Some rest
        else None
    | _ => None
    end in
  match hex with
  | Some rest =>
      match parse_hex rest None with
      | Some v => Some (sign * v)
      | None => None
      end
  | None =>
      match JSONText.parse_digits s with
      | (Decimal.Nil, _) => None
      | (d, _) => Some (sign * Z.of_uint d)
      end
  end.

(** [a || b] on numbers: [NaN] and zero are falsy. *)
Definition or_number (a : option Z) (b : Z) : Z :=
  match a with
  | Some v => if (v =? 0)%Z then b else v
  | None => b
  end.

(** [a || b] on strings: the empty string is falsy. *)
Definition or_string (a b : string) : string :=
  match a with
  | EmptyString => b
  | String _ _ => a
  end.

(** [s.split('.')[0]]: the text before the first dot. *)
Fixpoint firstSegment (s : string) : string :=
  match s with
  | EmptyString => EmptyString
  | String c rest =>
      if (c =? ".")%char then EmptyString else String c (firstSegment rest)
  end.

(** [(size / 1024).toFixed(1)] for a size in bytes: the number of tenths
    nearest to [size / 1024], the larger one on a tie, printed with one
    digit after the point. *)
Definition kilobytes (size : Z) : string :=
  let tenths := (10 * size + 512) / 1024 in
  JSONText.number (tenths / 10) ++ "." ++ JSONText.number (tenths mod 10).
End JS.

(** The [message] of the three errors [processImage] throws. *)
Definition message (e : Error) : string :=
  match e with
  | InvalidDimensions => "图片尺寸太小，无法切出一张完整的瓦片"
  | NoTempContext => "无法创建 Canvas 上下文"
  | NoResultContext => "无法创建结果 Canvas"
  end.

(** ** The component *)

Module App.
Local Open Scope string_scope.

Definition DEFAULT_TILE_SIZE : Z := 48.

(** What the component reads of a [File]. *)
Record File := { name : string; type : string; size : Z }.

Record State := {
  sourceImage : option HTMLImageElement;
  fileName : string;
  fileSize : string;
  tileSize : Z;
  mode : Mode;
  showCollision : bool;
  zoom : Q;
  isDragging : bool;
  showGrid : bool;
  isProcessing : bool;
  result : option ProcessResult.t;
  error : option string
}.

(** The state of the first render. *)
Definition initial : State :=
  {| sourceImage := None; fileName := EmptyString; fileSize := EmptyString;
     tileSize := DEFAULT_TILE_SIZE; mode := original; showCollision := false;
     zoom := 1%Q; isDragging := false; showGrid := false;
     isProcessing := false; result := None; error := None |}.

(** The setters of the [useState] cells. *)
Definition setSourceImage (v : option HTMLImageElement) (st : State) : State :=
  {| sourceImage := v; fileName := fileName st; fileSize := fileSize st;
     tileSize := tileSize st; mode := mode st;
     showCollision := showCollision st; zoom := zoom st;
     isDragging := isDragging st; showGrid := showGrid st;
     isProcessing := isProcessing st; result := result st;
     error := error st |}.

Definition setFileName (v : string) (st : State) : State :=
  {| sourceImage := sourceImage st; fileName := v; fileSize := fileSize st;
     tileSize := tileSize st; mode := mode st;
     showCollision := showCollision st; zoom := zoom st;
     isDragging := isDragging st; showGrid := showGrid st;
     isProcessing := isProcessing st; result := result st;
     error := error st |}.

Definition setFileSize (v : string) (st : State) : State :=
  {| sourceImage := sourceImage st; fileName := fileName st; fileSize := v;
     tileSize := tileSize st; mode := mode st;
     showCollision := showCollision st; zoom := zoom st;
     isDragging := isDragging st; showGrid := showGrid st;
     isProcessing := isProcessing st; result := result st;
     error := error st |}.

Definition setTileSize (v : Z) (st : State) : State :=
  {| sourceImage := sourceImage st; fileName := fileName st;
     fileSize := fileSize st; tileSize := v; mode := mode st;
     showCollision := showCollision st; zoom := zoom st;
     isDragging := isDragging st; showGrid := showGrid st;
     isProcessing := isProcessing st; result := result st;
     error := error st |}.

Definition setMode (v : Mode) (st : State) : State :=
  {| sourceImage := sourceImage st; fileName := fileName st;
     fileSize := fileSize st; tileSize := tileSize st; mode := v;
     showCollision := showCollision st; zoom := zoom st;
     isDragging := isDragging st; showGrid := showGrid st;
     isProcessing := isProcessing st; result := result st;
     error := error st |}.

Definition setShowCollision (v : bool) (st : State) : State :=
  {| sourceImage := sourceImage st; fileName := fileName st;
     fileSize := fileSize st; tileSize := tileSize st; mode := mode st;
     showCollision := v; zoom := zoom st;
     isDragging := isDragging st; showGrid := showGrid st;
     isProcessing := isProcessing st; result := result st;
     error := error st |}.

Definition setZoom (v : Q) (st : State) : State :=
  {| sourceImage := sourceImage st; fileName := fileName st;
     fileSize := fileSize st; tileSize := tileSize st; mode := mode st;
     showCollision := showCollision st; zoom := v;
     isDragging := isDragging st; showGrid := showGrid st;
     isProcessing := isProcessing st; result := result st;
     error := error st |}.

Definition setIsDragging (v : bool) (st : State) : State :=
  {| sourceImage := sourceImage st; fileName := fileName st;
     fileSize := fileSize st; tileSize := tileSize st; mode := mode st;
     showCollision := showCollision st; zoom := zoom st;
     isDragging := v; showGrid := showGrid st;
     isProcessing := isProcessing st; result := result st;
     error := error st |}.

Definition setShowGrid (v : bool) (st : State) : State :=
  {| sourceImage := sourceImage st; fileName := fileName st;
     fileSize := fileSize st; tileSize := tileSize st; mode := mode st;
     showCollision := showCollision st; zoom := zoom st;
     isDragging := isDragging st; showGrid := v;
     isProcessing := isProcessing st; result := result st;
     error := error st |}.

Definition setIsProcessing (v : bool) (st : State) : State :=
  {| sourceImage := sourceImage st; fileName := fileName st;
     fileSize := fileSize st; tileSize := tileSize st; mode := mode st;
     showCollision := showCollision st; zoom := zoom st;
     isDragging := isDragging st; showGrid := showGrid st;
     isProcessing := v; result := result st;
     error := error st |}.

Definition setResult (v : option ProcessResult.t) (st : State) : State :=
  {| sourceImage := sourceImage st; fileName := fileName st;
     fileSize := fileSize st; tileSize := tileSize st; mode := mode st;
     showCollision := showCollision st; zoom := zoom st;
     isDragging := isDragging st; showGrid := showGrid st;
     isProcessing := isProcessing st; result := v;
     error := error st |}.

Definition setError (v : option string) (st : State) : State :=
  {| sourceImage := sourceImage st; fileName := fileName st;
     fileSize := fileSize st; tileSize := tileSize st; mode := mode st;
     showCollision := showCollision st; zoom := zoom st;
     isDragging := isDragging st; showGrid := showGrid st;
     isProcessing := isProcessing st; result := result st;
     error := v |}.

(** *** Choosing a file *)

(** The guard of [processFile]: [file.type.startsWith('image/')]. *)
Definition accepted (file : File) : bool := String.prefix "image/" (type file).

(** [processFile], up to the point where it hands the file to the
    [FileReader]: a file of another type is refused with an error. *)
Definition processFile (file : File) (st : State) : State :=
  if negb (accepted file)
  then setError (Some "请上传 PNG 或 JPG 格式的图片") st
  else st.

(** [img.onload] in [processFile]: the file was read and decoded to
    [img]. *)
Definition onImageLoad (file : File) (img : HTMLImageElement) (st : State)
  : State :=
  let st := setSourceImage (Some img) st in
  let st := setFileName (JS.firstSegment (name file)) st in
  let st := setFileSize (JS.kilobytes (size file) ++ " KB") st in
  let st := setResult None st in
  let st := setError None st in
  let st := setShowCollision false st in
  setZoom 1%Q st.

(** [img.onerror] in [processFile]. *)
Definition onImageError (st : State) : State :=
  setError (Some "图片加载失败，文件可能已损坏") st.

(** [file] is [e.target.files?.[0]]. *)
Definition handleFileChange (file : option File) (st : State) : State :=
  match file with
  | Some file => processFile file st
  | None => st
  end.

Definition handleDragOver (st : State) : State := setIsDragging true st.

Definition handleDragLeave (st : State) : State := setIsDragging false st.

(** [file] is [e.dataTransfer.files?.[0]]. *)
Definition handleDrop (file : option File) (st : State) : State :=
  let st := setIsDragging false st in
  match file with
  | Some file => processFile file st
  | None => st
  end.

(** *** The controls *)

(** [onChange] of the tile size input:
    [setTileSize(Math.max(1, parseInt(e.target.value) || 48))]. *)
Definition onTileSizeChange (value : string) (st : State) : State :=
  setTileSize (Z.max 1 (JS.or_number (JS.parseInt value) 48)) st.

(** [onChange] of the two mode radio buttons. *)
Definition onModeChange (m : Mode) (st : State) : State := setMode m st.

(** [onChange] of the zoom slider; [value] is [parseFloat(e.target.value)]. *)
Definition onZoomChange (value : Q) (st : State) : State := setZoom value st.

Definition toggleGrid (st : State) : State :=
  setShowGrid (negb (showGrid st)) st.

Definition toggleCollision (st : State) : State :=
  setShowCollision (negb (showCollision st)) st.

(** *** Processing *)

(** What the callback of [handleProcess] has captured: [sourceImage],
    [tileSize] and [mode] of the render in which the button was clicked. *)
Record Job := {
  jobImage : HTMLImageElement;
  jobTileSize : Z;
  jobMode : Mode
}.

(** [handleProcess] up to [setTimeout]: the state after, and the job whose
    timer was set, if any. *)
Definition handleProcess (st : State) : State * option Job :=
  match sourceImage st with
  | None => (st, None)
  | Some img =>
      let st' := setIsProcessing true st in
      let st' := setError None st' in
      (st', Some {| jobImage := img; jobTileSize := tileSize st;
                    jobMode := mode st |})
  end.

Section Processing.
Context `{Platform} {M : Type} `{JSMap M}.

(** The callback of the [setTimeout] in [handleProcess]: [try] the call,
    [catch] its error, [finally] leave the processing state. *)
Definition processTimeout (job : Job) (st : State) : State :=
  let st :=
    match processImage (M := M) (jobImage job)
            {| ProcessOptions.tileSize := jobTileSize job;
               ProcessOptions.mode := jobMode job;
               ProcessOptions.columns := Some 8 |} with
    | Fulfilled res => setResult (Some res) st
    | Rejected err =>
        setError (Some (JS.or_string (message err) "处理过程中发生未知错误")) st
    end in
  setIsProcessing false st.
End Processing.

(** *** Downloading *)

Inductive DownloadType := png | json.

(** Where a download link points: a data URL, or the object URL of a
    [Blob] of one text part with a MIME type. *)
Inductive Href :=
| DataURL (url : string)
| BlobURL (part : string) (mime : string).

(** The link [handleDownload] clicks. *)
Record Link := { download : string; href : Href }.

(** [handleDownload(type)]: the link that is clicked, if any. *)
Definition handleDownload (type : DownloadType) (st : State) : option Link :=
  match result st with
  | None => None
  | Some result =>
      Some
        match type with
        | png =>
            {| download := fileName st ++ "_" ++ mode_name (mode st)
                           ++ "_tileset.png";
               href := DataURL (ProcessResult.dataUrl result) |}
        | json =>
            {| download := fileName st ++ "_" ++ mode_name (mode st)
                           ++ "_data.json";
               href := BlobURL (ProcessResult.jsonContent result)
                               "application/json" |}
        end
  end.

(** *** The states the component can reach *)

Section Reachable.
Context `{Platform} {M : Type} `{JSMap M}.

(** [reachable st jobs]: the component can be in state [st] with the
    timers of [jobs] set by [handleProcess] and not yet fired.  A control
    takes part only while it is rendered and enabled: the zoom slider and
    the grid button with an image or a result, the collision button with a
    result, the process button with an image and not while processing.  An
    image loads only from a file that passed the guard of [processFile]. *)
Inductive reachable : State -> list Job -> Prop :=
| reach_initial : reachable initial []
| reach_fileChange st jobs file :
    reachable st jobs -> reachable (handleFileChange file st) jobs
| reach_dragOver st jobs :
    reachable st jobs -> reachable (handleDragOver st) jobs
| reach_dragLeave st jobs :
    reachable st jobs -> reachable (handleDragLeave st) jobs
| reach_drop st jobs file :
    reachable st jobs -> reachable (handleDrop file st) jobs
| reach_imageLoad st jobs file img :
    reachable st jobs -> accepted file = true ->
    reachable (onImageLoad file img st) jobs
| reach_imageError st jobs :
    reachable st jobs -> reachable (onImageError st) jobs
| reach_tileSize st jobs value :
    reachable st jobs -> reachable (onTileSizeChange value st) jobs
| reach_mode st jobs m :
    reachable st jobs -> reachable (onModeChange m st) jobs
| reach_zoom st jobs value :
    reachable st jobs ->
    is_Some (result st) \/ is_Some (sourceImage st) ->
    reachable (onZoomChange value st) jobs
| reach_grid st jobs :
    reachable st jobs ->
    is_Some (result st) \/ is_Some (sourceImage st) ->
    reachable (toggleGrid st) jobs
| reach_collision st jobs :
    reachable st jobs -> is_Some (result st) ->
    reachable (toggleCollision st) jobs
| reach_process st jobs st' job :
    reachable st jobs ->
    is_Some (sourceImage st) -> isProcessing st = false ->
    handleProcess st = (st', Some job) ->
    reachable st' (jobs ++ [job])
| reach_timeout st job jobs :
    reachable st (job :: jobs) ->
    reachable (processTimeout (M := M) job st) jobs.
End Reachable.

End App.

(** ** More concrete inputs *)

Module Scenario.

(** [Example.imageS] with one more column and one more row of another
    colour: 7 x 5, the same grid of 3 x 2 cells of size 2. *)
Definition imageS_framed : HTMLImageElement :=
  Example.image 7 5 (fun x y =>
    if (x <? 6) && (y <? 4) then Canvas.bitmap Example.imageS x y
    else Example.opaque 9).

(** The atlas of [Example.imageS] for tiles of 2 and 8 columns: 16 x 2,
    the three different cells in the first three slots. *)
Definition atlasS : HTMLImageElement :=
  Example.image 16 2 (fun x y =>
    if x <? 2 then Example.opaque 1
    else if x <? 4 then Example.opaque 2
    else transparent).


(** 16 x 2, eight cells of size 2 in eight colours. *)
Definition imageD : HTMLImageElement :=
  Example.image 16 2 (fun x y => Example.opaque (x / 2)).

(** A session of the component: the tile size is set to 2, a file is
    loaded, the process button is clicked (original mode) and the timer
    fires. *)
Definition file : App.File :=
  {| App.name := "map.v2.png"%string; App.type := "image/png"%string;
     App.size := 2048 |}.

Definition configured : App.State := App.onTileSizeChange "2"%string App.initial.

Definition loaded : App.State := App.onImageLoad file Example.imageS configured.

Definition clicked : App.State := fst (App.handleProcess loaded).

Definition job : App.Job :=
  {| App.jobImage := Example.imageS; App.jobTileSize := 2;
     App.jobMode := original |}.

Definition processed : App.State :=
  App.processTimeout (H := Example.platform)
                     (M := gmap string HTMLCanvasElement) job clicked.
End Scenario.
(** * Verification *)

(** ** Loops and grids *)

Lemma foldl_flat_map {A B S : Type} (f : S -> B -> S) (g : A -> list B)
    (l : list A) (s : S) :
  foldl f s (flat_map g l) = foldl (fun s a => foldl f s (g a)) s l.
Proof.
  revert s. induction l as [|a l IH]; intros s; simpl; [reflexivity|].
  rewrite foldl_app. apply IH.
Qed.

Lemma foldl_map {A B S : Type} (f : S -> B -> S) (g : A -> B)
    (l : list A) (s : S) :
  foldl f s (map g l) = foldl (fun s a => f s (g a)) s l.
Proof. revert s. induction l as [|a l IH]; intros s; simpl; auto. Qed.

(** The nested [for y / for x] loops visit the cells in row-major order. *)
Lemma nested_loops_row_major {S : Type} (body : Z -> S -> Z -> S)
    (cols rows : Z) (s : S) :
  for_range rows (fun st y => for_range cols (body y) st) s
  = foldl (fun st c => body (snd c) st (fst c)) s (row_major cols rows).
Proof.
  unfold for_range, row_major. rewrite foldl_flat_map.
  generalize (seqZ 0 rows). intros l. revert s.
  induction l as [|y l IH]; intros s; simpl; [reflexivity|].
  rewrite foldl_map. simpl. apply IH.
Qed.

Lemma length_row_major (cols rows : Z) :
  length (row_major cols rows) = (Z.to_nat rows * Z.to_nat cols)%nat.
Proof.
  unfold row_major.
  rewrite <- (length_seqZ 0 rows). generalize (seqZ 0 rows). intros l.
  induction l as [|y l IH]; simpl; [reflexivity|].
  rewrite length_app, length_map, length_seqZ, IH. reflexivity.
Qed.

Lemma length_row_major_Z (cols rows : Z) :
  0 <= cols -> 0 <= rows ->
  Z.of_nat (length (row_major cols rows)) = cols * rows.
Proof. intros. rewrite length_row_major. lia. Qed.

Lemma elem_of_row_major (cols rows x y : Z) :
  (x, y) ∈ row_major cols rows <-> (0 <= x < cols /\ 0 <= y < rows).
Proof.
  unfold row_major. rewrite list_elem_of_In, in_flat_map. split.
  - intros (y' & Hy & Hx). apply in_map_iff in Hx as (x' & Heq & Hx).
    inversion Heq; subst. apply list_elem_of_In, elem_of_seqZ in Hy.
    apply list_elem_of_In, elem_of_seqZ in Hx. lia.
  - intros [Hx Hy]. exists y. split.
    + apply list_elem_of_In, elem_of_seqZ. lia.
    + apply in_map_iff. exists x. split; [reflexivity|].
      apply list_elem_of_In, elem_of_seqZ. lia.
Qed.

(** Cell [(x, y)] is the cell number [y * cols + x] of the scan. *)
Lemma lookup_row_major (cols rows x y : Z) :
  0 <= x < cols -> 0 <= y < rows ->
  row_major cols rows !! Z.to_nat (y * cols + x) = Some (x, y).
Proof.
  intros Hx Hy. unfold row_major.
  assert (Hgen : forall (n : nat) (y0 : Z), (Z.to_nat (y - y0) < n)%nat -> y0 <= y ->
    flat_map (fun y => map (fun x => (x, y)) (seqZ 0 cols))
             ((fun i : nat => Z.of_nat i + y0) <$> seq 0 n)
      !! Z.to_nat ((y - y0) * cols + x) = Some (x, y)).
  { induction n as [|n IH]; intros y0 Hn Hy0; [lia|].
    rewrite <- cons_seq. rewrite fmap_cons. simpl flat_map.
    destruct (decide (y = y0)) as [->|Hne].
    - rewrite lookup_app_l by (rewrite length_map, length_seqZ; nia).
      rewrite list_lookup_fmap.
      replace (Z.to_nat ((y0 - y0) * cols + x)) with (Z.to_nat x) by lia.
      rewrite (lookup_seqZ_lt 0 cols (Z.to_nat x)) by lia. simpl.
      do 2 f_equal; lia.
    - rewrite lookup_app_r by (rewrite length_map, length_seqZ; nia).
      rewrite length_map, length_seqZ.
      replace (Z.to_nat ((y - y0) * cols + x) - Z.to_nat cols)%nat
        with (Z.to_nat ((y - (y0 + 1)) * cols + x)) by nia.
      rewrite <- fmap_S_seq, <- list_fmap_compose.
      erewrite list_fmap_ext; [apply (IH (y0 + 1)); lia|].
      intros i j _. simpl. lia. }
  specialize (Hgen (Z.to_nat rows) 0). rewrite Z.sub_0_r in Hgen.
  apply Hgen; lia.
Qed.

(** ** Pixel read-back *)

Lemma rgba_bytes_inj (p q : RGBA) : rgba_bytes p = rgba_bytes q -> p = q.
Proof. destruct p, q. unfold rgba_bytes. simpl. congruence. Qed.

Lemma flat_map_fmap {A B C : Type} (f : B -> list C) (g : A -> B) (l : list A) :
  flat_map f (g <$> l) = flat_map (fun a => f (g a)) l.
Proof.
  induction l as [|a l IH]; [reflexivity|].
  rewrite fmap_cons. cbn [flat_map]. now rewrite IH.
Qed.

Lemma flat_map_flat_map {A B C : Type} (f : B -> list C) (g : A -> list B)
    (l : list A) :
  flat_map f (flat_map g l) = flat_map (fun a => flat_map f (g a)) l.
Proof.
  induction l as [|a l IH]; simpl; [reflexivity|].
  now rewrite flat_map_app, IH.
Qed.

Lemma flat_map_ext_Forall {A B : Type} (f g : A -> list B) (l : list A) :
  Forall (fun a => f a = g a) l -> flat_map f l = flat_map g l.
Proof. induction 1 as [|a l Ha _ IH]; simpl; [reflexivity|]. now rewrite Ha, IH. Qed.

(** The bytes of a rectangle, pixel by pixel in row-major order. *)
Lemma rect_bytes_row_major (c : Canvas.t) (x0 y0 w h : Z) :
  rect_bytes c x0 y0 w h
  = flat_map (fun p => rgba_bytes (Canvas.sample c (x0 + fst p) (y0 + snd p)))
             (row_major w h).
Proof.
  unfold rect_bytes, row_major.
  assert (Hshift : forall m n, seqZ m n = Z.add m <$> seqZ 0 n).
  { intros m n. rewrite fmap_add_seqZ. f_equal. lia. }
  rewrite (Hshift y0 h), flat_map_fmap, flat_map_flat_map.
  apply flat_map_ext_Forall, Forall_forall. intros y _.
  rewrite (Hshift x0 w), flat_map_fmap. simpl.
  rewrite (flat_map_fmap (fun p => rgba_bytes (Canvas.sample c (x0 + fst p) (y0 + snd p)))
                         (fun x => (x, y))).
  reflexivity.
Qed.

Lemma pixels_bytes_inj {A : Type} (f g : A -> RGBA) (l : list A) :
  flat_map (fun a => rgba_bytes (f a)) l = flat_map (fun a => rgba_bytes (g a)) l
  <-> Forall (fun a => f a = g a) l.
Proof.
  split.
  - induction l as [|a l IH]; intros Heq; [constructor|].
    cbn [flat_map rgba_bytes app] in Heq.
    injection Heq as Hr Hg Hb Ha Hrest.
    constructor; [|now apply IH].
    apply rgba_bytes_inj. unfold rgba_bytes. congruence.
  - intros HF. apply flat_map_ext_Forall.
    eapply Forall_impl; [exact HF|]. simpl. intros a ->. reflexivity.
Qed.

(** Two rectangles of the same extent have the same bytes exactly when
    they agree pixel by pixel. *)
Lemma rect_bytes_eq_iff (c1 c2 : Canvas.t) (x1 y1 x2 y2 w h : Z) :
  rect_bytes c1 x1 y1 w h = rect_bytes c2 x2 y2 w h
  <-> (forall i j, 0 <= i < w -> 0 <= j < h ->
         Canvas.sample c1 (x1 + i) (y1 + j) = Canvas.sample c2 (x2 + i) (y2 + j)).
Proof.
  rewrite !rect_bytes_row_major, pixels_bytes_inj, Forall_forall. split.
  - intros Hall i j Hi Hj. apply (Hall (i, j)). now apply elem_of_row_major.
  - intros Hall [i j] Hin. apply elem_of_row_major in Hin. now apply Hall.
Qed.

Lemma countSolid_pixels {A : Type} (f : A -> RGBA) (l : list A) (acc : Z) :
  countSolid (flat_map (fun a => rgba_bytes (f a)) l) acc
  = acc + Z.of_nat (length (filter (fun a => 10 < byte_to_Z (alpha (f a))) l)).
Proof.
  revert acc. induction l as [|a l IH]; intros acc; [simpl; lia|].
  cbn [flat_map rgba_bytes app countSolid]. rewrite IH, filter_cons.
  destruct (Z.ltb_spec 10 (byte_to_Z (alpha (f a)))); case_decide; simpl; lia.
Qed.

Lemma getImageData_positive (ctx : CanvasRenderingContext2D) (size : Z) :
  0 < size ->
  getImageData ctx 0 0 size size
  = Some {| ImageData.width := size; ImageData.height := size;
            ImageData.data := rect_bytes ctx 0 0 size size |}.
Proof.
  intros Hs. unfold getImageData.
  destruct (Z.eqb_spec size 0); [lia|]. simpl.
  rewrite Z.abs_eq, Z.min_l by lia. reflexivity.
Qed.

Lemma Qgtb_lt (a b : Q) : Qgtb a b = true <-> (b < a)%Q.
Proof.
  unfold Qgtb. rewrite negb_true_iff. split.
  - intros Hle. apply Qnot_le_lt. intros Hc. apply Qle_bool_iff in Hc. congruence.
  - intros Hlt. destruct (Qle_bool a b) eqn:E; [|reflexivity].
    apply Qle_bool_iff in E. exfalso. eapply Qlt_not_le; eauto.
Qed.

Lemma ratio_above_three_quarters (n t : Z) :
  0 < t -> ((3 # 4 < inject_Z n / inject_Z t)%Q <-> 3 * t < 4 * n).
Proof.
  intros Ht.
  assert (Hpos : (0 < inject_Z t)%Q) by (unfold Qlt; simpl; lia).
  split.
  - intros Hlt. apply (Qmult_lt_r _ _ _ Hpos) in Hlt.
    unfold Qdiv in Hlt. rewrite <- Qmult_assoc, (Qmult_comm (/ _)), Qmult_inv_r in Hlt
      by (intros Hz; rewrite Hz in Hpos; discriminate).
    rewrite Qmult_1_r in Hlt. unfold Qlt in Hlt. simpl in Hlt. lia.
  - intros Hlt. apply Qlt_shift_div_l; [exact Hpos|].
    unfold Qlt. simpl. lia.
Qed.

(** What [detectCollision] computes on a readable block. *)
Lemma detectCollision_ratio (ctx : CanvasRenderingContext2D) (size : Z) :
  0 < size ->
  detectCollision ctx size
  = Qgtb (inject_Z (opaque_count ctx size) / inject_Z (size * size)) (3 # 4).
Proof.
  intros Hs. unfold detectCollision. rewrite getImageData_positive by exact Hs.
  cbn [ImageData.data]. rewrite rect_bytes_row_major.
  rewrite (countSolid_pixels (fun p => Canvas.sample ctx (0 + fst p) (0 + snd p))).
  unfold opaque_count. rewrite Z.add_0_l. reflexivity.
Qed.

(** ** Extracting a tile onto the scratch canvas *)

Section Extraction.
Context `{Platform}.

Lemma extractTile_width (t : Canvas.t) (src : HTMLImageElement) (ts x y : Z) :
  Canvas.width (extractTile t src ts x y) = Canvas.width t.
Proof. reflexivity. Qed.

Lemma extractTile_height (t : Canvas.t) (src : HTMLImageElement) (ts x y : Z) :
  Canvas.height (extractTile t src ts x y) = Canvas.height t.
Proof. reflexivity. Qed.

Lemma in_rect_true (x y w h px py : Z) :
  x <= px < x + w -> y <= py < y + h -> in_rect x y w h px py = true.
Proof. unfold in_rect. intros. repeat (apply andb_true_intro; split); lia. Qed.

Lemma in_rect_spec (x y w h px py : Z) :
  in_rect x y w h px py = true <-> (x <= px < x + w /\ y <= py < y + h).
Proof. unfold in_rect. rewrite !andb_true_iff. lia. Qed.

Lemma inside_spec (c : Canvas.t) (x y : Z) :
  Canvas.inside c x y = true
  <-> (0 <= x < Canvas.width c /\ 0 <= y < Canvas.height c).
Proof. unfold Canvas.inside. rewrite !andb_true_iff. lia. Qed.

Lemma sample_inside (c : Canvas.t) (x y : Z) :
  0 <= x < Canvas.width c -> 0 <= y < Canvas.height c ->
  Canvas.sample c x y = Canvas.bitmap c x y.
Proof.
  intros Hx Hy. unfold Canvas.sample.
  now rewrite (proj2 (inside_spec c x y) (conj Hx Hy)).
Qed.

(** Whatever the scratch canvas held before, after [extractTile] each of
    its pixels is the source pixel of the cell drawn over a cleared pixel. *)
Lemma extractTile_sample (t : Canvas.t) (src : HTMLImageElement) (ts x y i j : Z) :
  Canvas.width t = ts -> Canvas.height t = ts ->
  0 <= i < ts -> 0 <= j < ts ->
  Canvas.sample (extractTile t src ts x y) i j
  = drawn (Canvas.sample src (x * ts + i) (y * ts + j)).
Proof.
  intros Hw Hh Hi Hj.
  rewrite sample_inside by (rewrite ?extractTile_width, ?extractTile_height; lia).
  unfold extractTile, drawImage, clearRect. cbn [Canvas.bitmap].
  rewrite in_rect_true by lia. unfold drawn. do 2 f_equal; lia.
Qed.

(** The fingerprint of a cell does not depend on what the scratch canvas
    held before. *)
Lemma toDataURL_extractTile (t : Canvas.t) (src : HTMLImageElement) (ts : Z)
    (c : Z * Z) :
  Canvas.width t = ts -> Canvas.height t = ts ->
  toDataURL (extractTile t src ts (fst c) (snd c)) = cellHash src ts c.
Proof.
  intros Hw Hh. unfold cellHash, toDataURL.
  rewrite !extractTile_width, !extractTile_height, Hw, Hh. cbn.
  destruct (_ || _); [reflexivity|]. f_equal.
  unfold canvas_bytes.
  rewrite !extractTile_width, !extractTile_height, Hw, Hh. cbn.
  apply rect_bytes_eq_iff. intros i j Hi Hj. rewrite !Z.add_0_l.
  rewrite !extractTile_sample; auto.
Qed.

Lemma canvas_bytes_extractTile (t : Canvas.t) (src : HTMLImageElement) (ts : Z)
    (c : Z * Z) :
  (forall s, source_over s transparent = s) ->
  Canvas.width t = ts -> Canvas.height t = ts ->
  canvas_bytes (extractTile t src ts (fst c) (snd c)) = tile_bytes src ts c.
Proof.
  intros Hclear Hw Hh. unfold canvas_bytes, tile_bytes.
  rewrite extractTile_width, extractTile_height, Hw, Hh.
  apply rect_bytes_eq_iff. intros i j Hi Hj. rewrite !Z.add_0_l.
  rewrite extractTile_sample by auto. apply Hclear.
Qed.

Lemma cellHash_encodePNG (src : HTMLImageElement) (ts : Z) (c : Z * Z) :
  (forall s, source_over s transparent = s) ->
  0 < ts ->
  cellHash src ts c = encodePNG ts ts (tile_bytes src ts c).
Proof.
  intros Hclear Hts. unfold cellHash, toDataURL.
  rewrite extractTile_width, extractTile_height. cbn.
  destruct (Z.eqb_spec ts 0); [lia|]. cbn.
  now rewrite canvas_bytes_extractTile.
Qed.

End Extraction.

(** ** First-seen deduplication *)

Section Discover.
Context {A K : Type} `{EqDecision K} (key : A -> K).



Lemma discover_sublist (seen : list K) (l : list A) :
  sublist (discover key seen l) l.
Proof.
  revert seen. induction l as [|a l IH]; intros seen; simpl; [constructor|].
  case_decide; [apply sublist_cons|apply sublist_skip]; apply IH.
Qed.

(** The discovered elements have pairwise distinct keys, none seen before. *)
Lemma discover_NoDup (seen : list K) (l : list A) :
  NoDup (key <$> discover key seen l)
  /\ forall a, a ∈ discover key seen l -> key a ∉ seen.
Proof.
  revert seen. induction l as [|a l IH]; intros seen; cbn [discover].
  - split; [constructor|]. intros a Ha. inversion Ha.
  - case_decide as Hin; [apply IH|].
    destruct (IH (key a :: seen)) as [Hnd Hnew].
    rewrite fmap_cons. split.
    + constructor; [|exact Hnd]. intros Hka.
      apply list_elem_of_fmap in Hka as (b & Hkb & Hb).
      apply (Hnew b Hb). rewrite Hkb. left.
    + intros b Hb. apply elem_of_cons in Hb as [->|Hb]; [exact Hin|].
      intros Hs. apply (Hnew b Hb). now right.
Qed.

(** Every key of the input is the key of a discovered element, or was seen
    before. *)
Lemma discover_covers (seen : list K) (l : list A) (a : A) :
  a ∈ l -> key a ∈ seen \/ key a ∈ (key <$> discover key seen l).
Proof.
  revert seen. induction l as [|b l IH]; intros seen Ha; [inversion Ha|].
  cbn [discover]. apply elem_of_cons in Ha as [->|Ha].
  - case_decide as Hin; [now left|]. right. rewrite fmap_cons. left.
  - case_decide as Hin; [now apply IH|].
    destruct (IH (key b :: seen) Ha) as [Hs|Hd].
    + apply elem_of_cons in Hs as [Hs|Hs]; [|now left].
      right. rewrite fmap_cons, Hs. left.
    + right. rewrite fmap_cons. now right.
Qed.
End Discover.

(** Deduplicating by an injective image of the key changes nothing. *)
Lemma discover_inj {A K L : Type} `{EqDecision K} `{EqDecision L}
    (key : A -> K) (g : K -> L) (seen : list K) (l : list A) :
  (forall k k', g k = g k' -> k = k') ->
  discover (fun a => g (key a)) (g <$> seen) l = discover key seen l.
Proof.
  intros Hinj. revert seen. induction l as [|a l IH]; intros seen; cbn [discover]; [reflexivity|].
  assert (Hiff : g (key a) ∈ g <$> seen <-> key a ∈ seen).
  { rewrite list_elem_of_fmap. split.
    - intros (k & Hk & Hin). apply Hinj in Hk. now subst.
    - intros Hin. eauto. }
  repeat case_decide; try tauto.
  - apply IH.
  - f_equal. rewrite <- IH. now rewrite fmap_cons.
Qed.

Lemma discover_ext {A K : Type} `{EqDecision K} (key key' : A -> K)
    (seen : list K) (l : list A) :
  (forall a, key a = key' a) ->
  discover key seen l = discover key' seen l.
Proof.
  intros Hext. revert seen. induction l as [|a l IH]; intros seen; simpl; [reflexivity|].
  rewrite Hext, !IH. reflexivity.
Qed.

(** ** The optimized scan *)

Section OptimizedScan.
Context `{Platform} {M : Type} `{JSMap M}.
Variables (src : HTMLImageElement) (ts : Z).

Lemma retained_represents (t : Canvas.t) (c : Z * Z) :
  Canvas.width t = ts -> Canvas.height t = ts ->
  represents src ts c
    {| UniqueTile.canvas :=
         drawImage3 (scratch ts) (extractTile t src ts (fst c) (snd c)) 0 0;
       UniqueTile.hash := cellHash src ts c |}.
Proof.
  intros Hw Hh. unfold represents. cbn [UniqueTile.hash UniqueTile.canvas].
  split; [reflexivity|]. split; [reflexivity|]. split; [reflexivity|].
  intros i j Hi Hj.
  rewrite sample_inside by (cbn; lia).
  unfold drawImage3, drawImage. cbn [Canvas.bitmap].
  rewrite extractTile_width, extractTile_height, Hw, Hh.
  rewrite in_rect_true by lia.
  replace (i - 0 + 0) with i by lia. replace (j - 0 + 0) with j by lia.
  rewrite extractTile_sample by auto. reflexivity.
Qed.

(** One cell of the scan, on a scratch canvas of the right size. *)
Lemma optimizedCell_spec (st : Scan) (c : Z * Z) :
  Canvas.width (tempCanvas st) = ts -> Canvas.height (tempCanvas st) = ts ->
  let st' := optimizedCell src ts (snd c) st (fst c) in
  Canvas.width (tempCanvas st') = ts /\ Canvas.height (tempCanvas st') = ts
  /\ if map_has (uniqueTilesMap st) (cellHash src ts c)
     then uniqueTilesList st' = uniqueTilesList st
          /\ uniqueTilesMap st' = uniqueTilesMap st
     else exists item,
            represents src ts c item
            /\ uniqueTilesList st' = uniqueTilesList st ++ [item]
            /\ uniqueTilesMap st'
               = map_set (uniqueTilesMap st) (cellHash src ts c)
                         (UniqueTile.canvas item).
Proof.
  intros Hw Hh. unfold optimizedCell.
  rewrite (toDataURL_extractTile _ _ _ c Hw Hh).
  destruct (map_has (uniqueTilesMap st) (cellHash src ts c)); cbn.
  - auto.
  - split; [exact Hw|]. split; [exact Hh|].
    eexists. split; [apply (retained_represents (tempCanvas st) c Hw Hh)|].
    split; reflexivity.
Qed.

(** The scan retains exactly the first-seen cells, in scan order.  [seen]
    lists the fingerprints already in the map. *)
Lemma scan_discover (cells : list (Z * Z)) (st : Scan) (seen : list string) :
  Canvas.width (tempCanvas st) = ts -> Canvas.height (tempCanvas st) = ts ->
  (forall k, map_has (uniqueTilesMap st) k = true <-> k ∈ seen) ->
  exists items,
    uniqueTilesList
      (foldl (fun st c => optimizedCell src ts (snd c) st (fst c)) st cells)
    = uniqueTilesList st ++ items
    /\ Forall2 (represents src ts) (discover (cellHash src ts) seen cells) items.
Proof.
  revert st seen. induction cells as [|c cells IH]; intros st seen Hw Hh Hmap.
  - exists []. rewrite app_nil_r. split; [reflexivity|constructor].
  - cbn [foldl discover].
    destruct (optimizedCell_spec st c Hw Hh) as (Hw' & Hh' & Hstep).
    destruct (map_has (uniqueTilesMap st) (cellHash src ts c)) eqn:Ehas.
    + destruct Hstep as [Hl Hm].
      apply Hmap in Ehas. rewrite decide_True by exact Ehas.
      destruct (IH _ seen Hw' Hh') as (items & Hitems & Hrep).
      { intros k. rewrite Hm. apply Hmap. }
      exists items. rewrite Hitems, Hl. auto.
    + destruct Hstep as (item & Hitem & Hl & Hm).
      assert (Hnot : cellHash src ts c ∉ seen).
      { intros Hin. apply Hmap in Hin. congruence. }
      rewrite decide_False by exact Hnot.
      destruct (IH _ (cellHash src ts c :: seen) Hw' Hh') as (items & Hitems & Hrep).
      { intros k. rewrite Hm, map_has_set, elem_of_cons.
        case_decide as Hk; [tauto|]. rewrite Hmap. tauto. }
      exists (item :: items). rewrite Hitems, Hl, <- app_assoc.
      split; [reflexivity|]. constructor; assumption.
Qed.

(** The whole scan of [processImage], from the empty map. *)
Lemma scan_first_seen (cols rows : Z) :
  exists items,
    uniqueTilesList
      (for_range rows (fun st y =>
         for_range cols (optimizedCell src ts y) st)
         {| tempCanvas := scratch ts;
            uniqueTilesMap := map_new;
            uniqueTilesList := [] |})
    = items
    /\ Forall2 (represents src ts)
               (discover (cellHash src ts) [] (row_major cols rows)) items.
Proof.
  rewrite (nested_loops_row_major (optimizedCell src ts)).
  destruct (scan_discover (row_major cols rows)
              {| tempCanvas := scratch ts; uniqueTilesMap := map_new;
                 uniqueTilesList := [] |} []) as (items & Hitems & Hrep);
    [reflexivity|reflexivity| |].
  - intros k. cbn. rewrite map_has_new. split; [discriminate|].
    intros Hin. inversion Hin.
  - exists items. split; [exact Hitems|exact Hrep].
Qed.

End OptimizedScan.

(** ** Packing the unique tiles *)

Section Packing.
Context `{Platform}.
Variables (ts C : Z).

Lemma forEach_packTile_tiles (items : list UniqueTile.t) (index : Z)
    (cv : Canvas.t) (tiles0 : list TileData.t) :
  snd (forEach (packTile ts C) items index (cv, tiles0))
  = tiles0 ++ imap (fun k item => packedTile ts C (index + Z.of_nat k) item) items.
Proof.
  revert index cv tiles0. induction items as [|item items IH]; intros index cv tiles0.
  - cbn. now rewrite app_nil_r.
  - cbn [forEach packTile]. rewrite IH. rewrite <- app_assoc. f_equal.
    rewrite imap_cons. cbn [app]. f_equal.
    + unfold packedTile. rewrite Z.add_0_r. reflexivity.
    + apply imap_ext. intros k item' _. cbn. f_equal. lia.
Qed.

Lemma forEach_packTile_width (items : list UniqueTile.t) (index : Z)
    (cv : Canvas.t) (tiles0 : list TileData.t) :
  Canvas.width (fst (forEach (packTile ts C) items index (cv, tiles0)))
  = Canvas.width cv.
Proof.
  revert index cv tiles0. induction items as [|item items IH]; intros index cv tiles0.
  - reflexivity.
  - cbn [forEach packTile]. rewrite IH. reflexivity.
Qed.

Lemma forEach_packTile_height (items : list UniqueTile.t) (index : Z)
    (cv : Canvas.t) (tiles0 : list TileData.t) :
  Canvas.height (fst (forEach (packTile ts C) items index (cv, tiles0)))
  = Canvas.height cv.
Proof.
  revert index cv tiles0. induction items as [|item items IH]; intros index cv tiles0.
  - reflexivity.
  - cbn [forEach packTile]. rewrite IH. reflexivity.
Qed.

(** A pixel inside the slot of tile [n] determines [n]. *)
Lemma slot_unique (n px py : Z) :
  0 < ts -> 0 < C -> 0 <= n ->
  in_rect (Z.rem n C * ts) (n / C * ts) ts ts px py = true ->
  n = py / ts * C + px / ts.
Proof.
  intros Hts HC Hn Hin. apply in_rect_spec in Hin as [Hx Hy].
  rewrite Z.rem_mod_nonneg in Hx by lia.
  assert (Hpx : px / ts = n mod C).
  { symmetry. apply (Z.div_unique px ts (n mod C) (px - n mod C * ts)); lia. }
  assert (Hpy : py / ts = n / C).
  { symmetry. apply (Z.div_unique py ts (n / C) (py - n / C * ts)); lia. }
  rewrite Hpx, Hpy. pose proof (Z.div_mod n C). lia.
Qed.

(** A pixel outside every slot that is drawn keeps its value. *)
Lemma forEach_packTile_untouched (items : list UniqueTile.t) (index : Z)
    (cv : Canvas.t) (tiles0 : list TileData.t) (px py : Z) :
  (forall k item, items !! k = Some item ->
     in_rect (Z.rem (index + Z.of_nat k) C * ts) ((index + Z.of_nat k) / C * ts)
             (Canvas.width (UniqueTile.canvas item))
             (Canvas.height (UniqueTile.canvas item)) px py = false) ->
  Canvas.bitmap (fst (forEach (packTile ts C) items index (cv, tiles0))) px py
  = Canvas.bitmap cv px py.
Proof.
  revert index cv tiles0. induction items as [|item items IH];
    intros index cv tiles0 Hout; [reflexivity|].
  cbn [forEach packTile]. rewrite IH.
  - unfold drawImage3, drawImage. cbn [Canvas.bitmap].
    specialize (Hout 0%nat item eq_refl). rewrite Z.add_0_r in Hout.
    now rewrite Hout.
  - intros k item' Hk. specialize (Hout (S k) item' Hk).
    replace (index + 1 + Z.of_nat k) with (index + Z.of_nat (S k)) by lia.
    exact Hout.
Qed.

(** Tile [k] is drawn in its slot, and nothing else is drawn there. *)
Lemma forEach_packTile_bitmap (items : list UniqueTile.t) (index : Z)
    (cv : Canvas.t) (tiles0 : list TileData.t) (k : nat) (item : UniqueTile.t)
    (px py : Z) :
  0 < ts -> 0 < C -> 0 <= index ->
  Forall (fun it => Canvas.width (UniqueTile.canvas it) = ts
                    /\ Canvas.height (UniqueTile.canvas it) = ts) items ->
  items !! k = Some item ->
  let X := Z.rem (index + Z.of_nat k) C * ts in
  let Y := (index + Z.of_nat k) / C * ts in
  in_rect X Y ts ts px py = true ->
  Canvas.bitmap (fst (forEach (packTile ts C) items index (cv, tiles0))) px py
  = source_over (Canvas.sample (UniqueTile.canvas item) (px - X) (py - Y))
                (Canvas.bitmap cv px py).
Proof.
  intros Hts HC. revert k index cv tiles0.
  induction items as [|item0 items IH]; intros k index cv tiles0 Hidx Hsz Hk X Y Hin;
    [discriminate|].
  apply Forall_cons in Hsz as [[Hw0 Hh0] Hsz].
  cbn [forEach packTile]. destruct k as [|k].
  - injection Hk as ->. subst X Y. rewrite Z.add_0_r in *.
    rewrite forEach_packTile_untouched.
    + unfold drawImage3, drawImage. cbn [Canvas.bitmap].
      rewrite Hw0, Hh0, Hin. do 2 f_equal; lia.
    + intros k' item' Hk'.
      rewrite Forall_forall in Hsz.
      destruct (Hsz item') as [-> ->]; [eapply list_elem_of_lookup_2; eauto|].
      match goal with |- ?t = false => destruct t eqn:Ein end; [|reflexivity].
      apply slot_unique in Ein; [|lia..].
      apply slot_unique in Hin; [|lia..]. lia.
  - cbn in Hk. subst X Y.
    replace (index + Z.of_nat (S k)) with (index + 1 + Z.of_nat k) in * by lia.
    erewrite IH; [|lia|exact Hsz|exact Hk|exact Hin].
    f_equal. unfold drawImage3, drawImage. cbn [Canvas.bitmap].
    rewrite Hw0, Hh0.
    match goal with |- (if ?t then _ else _) = _ => destruct t eqn:Ein end;
      [|reflexivity].
    apply slot_unique in Ein; [|lia..].
    apply slot_unique in Hin; [|lia..]. lia.
Qed.

End Packing.

(** ** [processImage], mode by mode *)

Lemma detectCollision_ext (c1 c2 : Canvas.t) (size : Z) :
  0 < size ->
  (forall i j, 0 <= i < size -> 0 <= j < size ->
     Canvas.sample c1 i j = Canvas.sample c2 i j) ->
  detectCollision c1 size = detectCollision c2 size.
Proof.
  intros Hs Hagree. unfold detectCollision.
  rewrite !getImageData_positive by exact Hs. cbn [ImageData.data].
  replace (rect_bytes c1 0 0 size size) with (rect_bytes c2 0 0 size size);
    [reflexivity|].
  symmetry. apply rect_bytes_eq_iff. intros i j Hi Hj.
  rewrite !Z.add_0_l. now apply Hagree.
Qed.

Section Modes.
Context `{Platform} {M : Type} `{JSMap M}.
Variables (src : HTMLImageElement) (ts : Z).

Lemma detectCollision_extractTile (t : Canvas.t) (c : Z * Z) :
  0 < ts -> Canvas.width t = ts -> Canvas.height t = ts ->
  detectCollision (extractTile t src ts (fst c) (snd c)) ts = cellSolid src ts c.
Proof.
  intros Hts Hw Hh. unfold cellSolid. apply detectCollision_ext; [exact Hts|].
  intros i j Hi Hj. rewrite !extractTile_sample; auto.
Qed.

(** The loop of original mode pushes one entry per cell, in scan order. *)
Lemma original_loop (cols : Z) (cells : list (Z * Z)) (t : Canvas.t)
    (tiles0 : list TileData.t) :
  0 < ts -> Canvas.width t = ts -> Canvas.height t = ts ->
  snd (foldl (fun st c => originalCell src ts cols (snd c) st (fst c))
             (t, tiles0) cells)
  = tiles0 ++ map (originalTile src ts cols) cells.
Proof.
  intros Hts. revert t tiles0.
  induction cells as [|c cells IH]; intros t tiles0 Hw Hh.
  - cbn. now rewrite app_nil_r.
  - cbn [foldl originalCell map]. rewrite IH by (cbn; assumption).
    rewrite <- app_assoc. cbn [app]. do 2 f_equal.
    unfold originalTile. f_equal.
    now apply detectCollision_extractTile.
Qed.

Lemma processImage_rejected (options : ProcessOptions.t) :
  (Canvas.width src / ProcessOptions.tileSize options)
  * (Canvas.height src / ProcessOptions.tileSize options) = 0 ->
  processImage (M := M) src options = Rejected InvalidDimensions.
Proof.
  intros Hzero. unfold processImage. rewrite Hzero. reflexivity.
Qed.

Lemma processImage_original (columns : option Z) :
  let cols := Canvas.width src / ts in
  let rows := Canvas.height src / ts in
  0 < ts -> cols * rows <> 0 ->
  processImage (M := M) src
    {| ProcessOptions.tileSize := ts; ProcessOptions.mode := original;
       ProcessOptions.columns := columns |}
  = let resultCanvas := originalCanvas src ts cols rows in
    let resultTiles := map (originalTile src ts cols) (row_major cols rows) in
    Fulfilled
      {| ProcessResult.dataUrl := toDataURL resultCanvas;
         ProcessResult.width := cols * ts;
         ProcessResult.height := rows * ts;
         ProcessResult.totalTiles := cols * rows;
         ProcessResult.uniqueTiles := cols * rows;
         ProcessResult.tiles := resultTiles;
         ProcessResult.jsonContent :=
           JSONText.stringify2 (jsonOutput ts original resultCanvas resultTiles) |}.
Proof.
  intros cols rows Hts Hne. unfold processImage.
  cbn [ProcessOptions.tileSize ProcessOptions.mode ProcessOptions.columns].
  fold cols rows. destruct (Z.eqb_spec (cols * rows) 0) as [|_]; [contradiction|].
  cbn [getContext2d runMode].
  rewrite (nested_loops_row_major (originalCell src ts cols)).
  pose proof (original_loop cols (row_major cols rows)
                (Canvas.set_height (Canvas.set_width Canvas.create ts) ts) []
                Hts eq_refl eq_refl) as Hloop.
  destruct (foldl _ _ (row_major cols rows)) as [t' tiles'].
  cbn [snd app] in Hloop. subst tiles'. reflexivity.
Qed.

Lemma processImage_optimized (columns : option Z) :
  let cols := Canvas.width src / ts in
  let rows := Canvas.height src / ts in
  let outCols := default 8 columns in
  cols * rows <> 0 ->
  exists items,
    Forall2 (represents src ts)
            (discover (cellHash src ts) [] (row_major cols rows)) items
    /\ processImage (M := M) src
         {| ProcessOptions.tileSize := ts; ProcessOptions.mode := optimized;
            ProcessOptions.columns := columns |}
       = let uniqueCount := Z.of_nat (length items) in
         let resultCanvas := atlasCanvas ts outCols items in
         let resultTiles :=
           imap (fun k item => packedTile ts outCols (Z.of_nat k) item) items in
         Fulfilled
           {| ProcessResult.dataUrl := toDataURL resultCanvas;
              ProcessResult.width := outCols * ts;
              ProcessResult.height := ceil_div uniqueCount outCols * ts;
              ProcessResult.totalTiles := cols * rows;
              ProcessResult.uniqueTiles := uniqueCount;
              ProcessResult.tiles := resultTiles;
              ProcessResult.jsonContent :=
                JSONText.stringify2
                  (jsonOutput ts optimized resultCanvas resultTiles) |}.
Proof.
  intros cols rows outCols Hne.
  destruct (scan_first_seen (M := M) src ts cols rows) as (items & Hscan & Hrep).
  exists items. split; [exact Hrep|].
  unfold processImage.
  cbn [ProcessOptions.tileSize ProcessOptions.mode ProcessOptions.columns].
  fold cols rows outCols.
  destruct (Z.eqb_spec (cols * rows) 0) as [|_]; [contradiction|].
  cbn [getContext2d runMode]. unfold scratch in Hscan. rewrite Hscan.
  pose proof (forEach_packTile_tiles ts outCols items 0
    (emptyAtlas ts outCols (Z.of_nat (length items))) []) as Htiles.
  pose proof (forEach_packTile_width ts outCols items 0
    (emptyAtlas ts outCols (Z.of_nat (length items))) []) as Hwidth.
  pose proof (forEach_packTile_height ts outCols items 0
    (emptyAtlas ts outCols (Z.of_nat (length items))) []) as Hheight.
  unfold atlasCanvas. unfold emptyAtlas in *.
  cbn [Canvas.width Canvas.height Canvas.set_width Canvas.set_height clearRect] in *.
  destruct (forEach _ items 0 _) as [cv tiles'].
  cbn [fst snd app] in *. subst tiles'. rewrite Hwidth, Hheight.
  reflexivity.
Qed.

Lemma processImage_fulfilled (options : ProcessOptions.t) :
  ProcessOptions.tileSize options = ts ->
  0 < ts -> (Canvas.width src / ts) * (Canvas.height src / ts) <> 0 ->
  exists res, processImage (M := M) src options = Fulfilled res
              /\ ProcessResult.totalTiles res
                 = (Canvas.width src / ts) * (Canvas.height src / ts).
Proof.
  destruct options as [ts' [|] columns]. all: cbn; intros -> Hts Hne.
  - rewrite processImage_original by assumption. cbn zeta.
    eexists. split; reflexivity.
  - destruct (processImage_optimized columns Hne) as (items & _ & ->).
    cbn zeta. eexists. split; reflexivity.
Qed.

End Modes.

(** ** The example platform *)

(** Closes a closed arithmetic or boolean goal by evaluation. *)
Ltac by_compute :=
  vm_compute; repeat split; first [reflexivity | discriminate | congruence].

Lemma example_source_over_clear (s : RGBA) :
  source_over (Platform := Example.platform) s transparent = s.
Proof. reflexivity. Qed.

Lemma example_encodePNG_lossless (w h : Z) (d d' : list byte) :
  encodePNG (Platform := Example.platform) w h d
  = encodePNG (Platform := Example.platform) w h d' -> d = d'.
Proof.
  cbn. intros Heq.
  rewrite <- (list_byte_of_string_of_list_byte d), Heq.
  apply list_byte_of_string_of_list_byte.
Qed.

(** ** Grid partitioning (C4) *)

Section Claims.
Context `{Platform} {M : Type} `{JSMap M}.

(** C4.  For a positive tile size: when both quotients [width / tileSize]
    and [height / tileSize] are at least 1, [processImage] is fulfilled and
    [totalTiles] is their product; when the product is 0 the promise is
    rejected with [InvalidDimensions], so no [ProcessResult] exists. *)
Theorem grid_partition (src : HTMLImageElement) (options : ProcessOptions.t) :
  let tileSize := ProcessOptions.tileSize options in
  let cols := Canvas.width src / tileSize in
  let rows := Canvas.height src / tileSize in
  0 < tileSize ->
  (1 <= cols -> 1 <= rows ->
   exists res, processImage (M := M) src options = Fulfilled res
               /\ ProcessResult.totalTiles res = cols * rows)
  /\ (cols * rows = 0 ->
      processImage (M := M) src options = Rejected InvalidDimensions).
Proof.
  intros tileSize cols rows Hts. split.
  - intros Hc Hr. apply processImage_fulfilled; [reflexivity|exact Hts|].
    fold tileSize cols rows. nia.
  - apply processImage_rejected.
Qed.

End Claims.


(** ** The collision classifier (C5) *)

Lemma length_filter_all {A : Type} (P : A -> Prop) `{forall a, Decision (P a)}
    (l : list A) :
  (forall a, a ∈ l -> P a) -> length (filter P l) = length l.
Proof.
  induction l as [|a l IH]; intros Hall; [reflexivity|].
  rewrite filter_cons_True by (apply Hall; left).
  cbn [length]. f_equal. apply IH. intros b Hb. apply Hall. now right.
Qed.

Lemma length_filter_none {A : Type} (P : A -> Prop) `{forall a, Decision (P a)}
    (l : list A) :
  (forall a, a ∈ l -> ~ P a) -> length (filter P l) = 0%nat.
Proof.
  induction l as [|a l IH]; intros Hall; [reflexivity|].
  rewrite filter_cons_False by (apply Hall; left).
  apply IH. intros b Hb. apply Hall. now right.
Qed.

(** C5.  On a readable [size] x [size] block, [detectCollision] is true
    exactly when the number of pixels with alpha above 10, divided by
    [size * size], exceeds 3/4; so a fully opaque block (alpha 255) is solid
    and a fully transparent one (alpha 0) is not.  When the pixels cannot be
    read ([getImageData] throws), the answer is [false]. *)
Theorem collision_classifier (ctx : CanvasRenderingContext2D) (size : Z) :
  (0 < size ->
   (detectCollision ctx size = true
    <-> (3 # 4 < inject_Z (opaque_count ctx size) / inject_Z (size * size))%Q)
   /\ ((forall x y, 0 <= x < size -> 0 <= y < size ->
          alpha (Canvas.sample ctx x y) = xff) ->
       detectCollision ctx size = true)
   /\ ((forall x y, 0 <= x < size -> 0 <= y < size ->
          alpha (Canvas.sample ctx x y) = x00) ->
       detectCollision ctx size = false))
  /\ (getImageData ctx 0 0 size size = None -> detectCollision ctx size = false).
Proof.
  split.
  - intros Hs. rewrite detectCollision_ratio by exact Hs.
    assert (Hsq : 0 < size * size) by nia.
    split; [apply Qgtb_lt|]. split.
    + intros Hopaque. apply Qgtb_lt, ratio_above_three_quarters; [exact Hsq|].
      unfold opaque_count. rewrite length_filter_all.
      * rewrite length_row_major_Z by lia. lia.
      * intros [x y] Hin. apply elem_of_row_major in Hin as [Hx Hy].
        cbn [fst snd]. rewrite Hopaque by assumption. by_compute.
    + intros Hclear. apply not_true_is_false. intros Htrue.
      apply Qgtb_lt, ratio_above_three_quarters in Htrue; [|exact Hsq].
      unfold opaque_count in Htrue. rewrite length_filter_none in Htrue; [lia|].
      intros [x y] Hin. apply elem_of_row_major in Hin as [Hx Hy].
      cbn [fst snd]. rewrite Hclear by assumption. by_compute.
  - intros Hnone. unfold detectCollision. now rewrite Hnone.
Qed.


(** ** Original mode (C7) and the ids of the tile list (C10) *)

(** The cell at position [k] of the scan is [(k mod cols, k / cols)]. *)
Lemma lookup_row_major_inv (cols rows : Z) (k : nat) (c : Z * Z) :
  row_major cols rows !! k = Some c ->
  snd c * cols + fst c = Z.of_nat k /\ 0 <= fst c < cols /\ 0 <= snd c < rows.
Proof.
  intros Hk. destruct c as [x y].
  assert (Hin : (x, y) ∈ row_major cols rows) by (eapply list_elem_of_lookup_2; eauto).
  apply elem_of_row_major in Hin as [Hx Hy].
  apply lookup_lt_Some in Hk as Hlt. rewrite length_row_major in Hlt.
  cbn [fst snd]. split; [|auto].
  set (x' := Z.of_nat k mod cols). set (y' := Z.of_nat k / cols).
  assert (Hx' : 0 <= x' < cols) by (apply Z.mod_pos_bound; lia).
  assert (Hdm : Z.of_nat k = cols * y' + x') by (apply Z.div_mod; lia).
  assert (Hy' : 0 <= y' < rows).
  { split; [apply Z.div_pos; lia|]. apply Z.div_lt_upper_bound; nia. }
  pose proof (lookup_row_major cols rows x' y' Hx' Hy') as Hk'.
  replace (Z.to_nat (y' * cols + x')) with k in Hk' by lia.
  rewrite Hk in Hk'. injection Hk' as -> ->. lia.
Qed.

Section OriginalCanvas.
Context `{Platform}.

Lemma originalCanvas_sample (src : HTMLImageElement) (ts cols rows px py : Z) :
  0 <= px < cols * ts -> 0 <= py < rows * ts ->
  Canvas.sample (originalCanvas src ts cols rows) px py
  = drawn (Canvas.sample src px py).
Proof.
  intros Hx Hy. rewrite sample_inside by (cbn; lia).
  unfold originalCanvas, drawImage, clearRect. cbn [Canvas.bitmap].
  rewrite in_rect_true by lia. unfold drawn.
  replace (px - 0 + 0) with px by lia. replace (py - 0 + 0) with py by lia.
  reflexivity.
Qed.
End OriginalCanvas.

Section ClaimsOriginal.
Context `{Platform} {M : Type} `{JSMap M}.
Hypothesis source_over_clear : forall s, source_over s transparent = s.


End ClaimsOriginal.

Section TileIds.
Context `{Platform} {M : Type} `{JSMap M}.

(** The entry at index [k] of the tile list has id [k]. *)
Lemma fulfilled_tile_ids (src : HTMLImageElement)
    (options : ProcessOptions.t) (res : ProcessResult.t) :
  0 < ProcessOptions.tileSize options ->
  0 <= Canvas.width src -> 0 <= Canvas.height src ->
  processImage (M := M) src options = Fulfilled res ->
  forall k t, ProcessResult.tiles res !! k = Some t ->
              TileData.id t = Z.of_nat k.
Proof.
  destruct options as [ts mode columns].
  cbn [ProcessOptions.tileSize ProcessOptions.mode].
  intros Hts Hw Hh Hres.
  set (cols := Canvas.width src / ts). set (rows := Canvas.height src / ts).
  destruct (Z.eq_dec (cols * rows) 0) as [Hz|Hne].
  { rewrite processImage_rejected in Hres by exact Hz. discriminate. }
  destruct mode.
  - rewrite processImage_original in Hres by assumption.
    cbn zeta in Hres. injection Hres as <-. cbn [ProcessResult.tiles].
    fold cols rows. intros k t Hk. rewrite list_lookup_fmap in Hk.
    destruct (row_major cols rows !! k) as [c|] eqn:Ec; [|discriminate].
    injection Hk as <-. cbn [TileData.id originalTile].
    now apply lookup_row_major_inv in Ec as [? _].
  - destruct (processImage_optimized (M := M) src ts columns Hne)
      as (items & _ & Heq).
    rewrite Heq in Hres. cbn zeta in Hres. injection Hres as <-.
    cbn [ProcessResult.tiles]. intros k t Hk. rewrite list_lookup_imap in Hk.
    destruct (items !! k) as [item|]; [|discriminate].
    injection Hk as <-. reflexivity.
Qed.

End TileIds.

Section ClaimsIds.
Context `{Platform} {M : Type} `{JSMap M}.

(** C10.  In a fulfilled result the tile list has [totalTiles] entries in
    original mode and [uniqueTiles] entries in optimized mode, and in both
    modes the entry at index [k] has id [k]. *)
Theorem tile_ids_are_indices (src : HTMLImageElement)
    (options : ProcessOptions.t) (res : ProcessResult.t) :
  0 < ProcessOptions.tileSize options ->
  0 <= Canvas.width src -> 0 <= Canvas.height src ->
  processImage (M := M) src options = Fulfilled res ->
  (ProcessOptions.mode options = original ->
   Z.of_nat (length (ProcessResult.tiles res)) = ProcessResult.totalTiles res)
  /\ (ProcessOptions.mode options = optimized ->
      Z.of_nat (length (ProcessResult.tiles res)) = ProcessResult.uniqueTiles res)
  /\ forall k t, ProcessResult.tiles res !! k = Some t ->
                 TileData.id t = Z.of_nat k.
Proof.
  intros Hts Hw Hh Hres.
  pose proof (fulfilled_tile_ids src options res Hts Hw Hh Hres) as Hids.
  destruct options as [ts mode columns].
  cbn [ProcessOptions.tileSize ProcessOptions.mode] in *.
  set (cols := Canvas.width src / ts). set (rows := Canvas.height src / ts).
  assert (Hcols : 0 <= cols) by (apply Z.div_pos; lia).
  assert (Hrows : 0 <= rows) by (apply Z.div_pos; lia).
  destruct (Z.eq_dec (cols * rows) 0) as [Hz|Hne].
  { rewrite processImage_rejected in Hres by exact Hz. discriminate. }
  split; [|split; [|exact Hids]]; intros ->.
  - rewrite processImage_original in Hres by assumption.
    cbn zeta in Hres. injection Hres as <-.
    cbn [ProcessResult.totalTiles ProcessResult.tiles]. fold cols rows.
    rewrite length_map. now apply length_row_major_Z.
  - destruct (processImage_optimized (M := M) src ts columns Hne)
      as (items & _ & Heq).
    rewrite Heq in Hres. cbn zeta in Hres. injection Hres as <-.
    cbn [ProcessResult.uniqueTiles ProcessResult.tiles].
    now rewrite length_imap.
Qed.

End ClaimsIds.

(** ** Fingerprints (C1) *)

Section ClaimsFingerprint.
Context `{Platform}.
Hypothesis encodePNG_lossless :
  forall w h d d', encodePNG w h d = encodePNG w h d' -> d = d'.



Lemma cellHash_eq_iff (src : HTMLImageElement) (ts : Z) (c1 c2 : Z * Z) :
  (forall s, source_over s transparent = s) ->
  0 < ts ->
  cellHash src ts c1 = cellHash src ts c2
  <-> tile_bytes src ts c1 = tile_bytes src ts c2.
Proof.
  intros Hclear Hts. rewrite !cellHash_encodePNG by assumption.
  split; [apply encodePNG_lossless|congruence].
Qed.

End ClaimsFingerprint.

(** ** The optimized scan (C3) *)

Lemma NoDup_row_major (cols rows : Z) : NoDup (row_major cols rows).
Proof.
  apply NoDup_alt. intros i j c Hi Hj.
  apply lookup_row_major_inv in Hi as [Hi _].
  apply lookup_row_major_inv in Hj as [Hj _]. lia.
Qed.


Section ClaimsScan.
Context `{Platform} {M : Type} `{JSMap M}.
Hypothesis source_over_clear : forall s, source_over s transparent = s.
Hypothesis encodePNG_lossless :
  forall w h d d', encodePNG w h d = encodePNG w h d' -> d = d'.

(** First-seen by fingerprint is first-seen by pixel bytes. *)
Lemma discover_cellHash_tile_bytes (src : HTMLImageElement) (ts : Z)
    (cells : list (Z * Z)) :
  0 < ts ->
  discover (cellHash src ts) [] cells = discover (tile_bytes src ts) [] cells.
Proof.
  intros Hts.
  rewrite (discover_ext (cellHash src ts)
             (fun c => encodePNG ts ts (tile_bytes src ts c)))
    by (intros c; now apply cellHash_encodePNG).
  apply (discover_inj (tile_bytes src ts) (encodePNG ts ts) []).
  apply encodePNG_lossless.
Qed.


End ClaimsScan.

(** ** Independence of the map implementation (C9) *)

Section TwoMaps.
Context `{Platform} {M1 M2 : Type} `{JSMap M1} `{JSMap M2}.

Lemma optimizedCell_in_step (src : HTMLImageElement) (ts y x : Z)
    (st1 : Scan (M := M1)) (st2 : Scan (M := M2)) :
  in_step st1 st2 ->
  in_step (optimizedCell src ts y st1 x) (optimizedCell src ts y st2 x).
Proof.
  intros (Ht & Hl & Hm). unfold optimizedCell. rewrite Ht, Hm.
  destruct (map_has (uniqueTilesMap st2) _); cbn.
  - repeat split; auto.
  - repeat split; cbn; [now rewrite Hl|].
    intros k. rewrite !map_has_set, Hm. reflexivity.
Qed.

Lemma scan_in_step (src : HTMLImageElement) (ts : Z) (cells : list (Z * Z))
    (st1 : Scan (M := M1)) (st2 : Scan (M := M2)) :
  in_step st1 st2 ->
  in_step (foldl (fun st c => optimizedCell src ts (snd c) st (fst c)) st1 cells)
          (foldl (fun st c => optimizedCell src ts (snd c) st (fst c)) st2 cells).
Proof.
  revert st1 st2. induction cells as [|c cells IH]; intros st1 st2 Hstep;
    [exact Hstep|].
  cbn [foldl]. apply IH, optimizedCell_in_step, Hstep.
Qed.

(** The result does not depend on the implementation of the map. *)
Lemma processImage_any_map (src : HTMLImageElement)
    (options : ProcessOptions.t) :
  processImage (M := M1) src options = processImage (M := M2) src options.
Proof.
  set (ts := ProcessOptions.tileSize options).
  pose proof (scan_in_step src ts
                (row_major (Canvas.width src / ts) (Canvas.height src / ts))
                {| tempCanvas := scratch ts; uniqueTilesMap := map_new (M := M1);
                   uniqueTilesList := [] |}
                {| tempCanvas := scratch ts; uniqueTilesMap := map_new (M := M2);
                   uniqueTilesList := [] |}) as Hscan.
  destruct Hscan as (_ & Hlist & _).
  { repeat split. intros k. cbn. now rewrite !map_has_new. }
  unfold processImage. fold ts.
  destruct (_ =? 0); [reflexivity|]. cbn [getContext2d].
  destruct (ProcessOptions.mode options); [reflexivity|].
  cbn [runMode]. rewrite !(nested_loops_row_major (optimizedCell src ts)).
  unfold scratch in Hlist. rewrite Hlist. reflexivity.
Qed.

End TwoMaps.

(** The time of the run shows in the manifest text only. *)
Lemma processImage_any_time (P : Platform) (now1 now2 : string)
    {M : Type} `{JSMap M} (src : HTMLImageElement)
    (options : ProcessOptions.t) :
  tilesetOf (processImage (H := at_time P now1) (M := M) src options)
  = tilesetOf (processImage (H := at_time P now2) (M := M) src options).
Proof.
  unfold processImage.
  destruct (_ =? 0); [reflexivity|]. cbn [getContext2d].
  change (runMode (H := at_time P now1)) with (runMode (H := at_time P now2)).
  destruct (runMode _ _ _ _ _ _ _ _ _) as [[cv uniqueCount] tiles'].
  reflexivity.
Qed.

(** C9.  Two runs of [processImage] on the same image with the same options
    give the same tiles in the same order, the same counts and the same
    output image, whenever they happen and whatever implementation of [Map]
    each of them uses: the order of discovery is a function of the input
    alone and the internal order of the map does not show in it.  On one
    platform state the whole results are equal. *)
Theorem discovery_order_independent_of_map (P : Platform) (now1 now2 : string)
    {M1 M2 : Type} `{JSMap M1} `{JSMap M2} (src : HTMLImageElement)
    (options : ProcessOptions.t) :
  tilesetOf (processImage (H := at_time P now1) (M := M1) src options)
  = tilesetOf (processImage (H := at_time P now2) (M := M2) src options)
  /\ processImage (H := P) (M := M1) src options
     = processImage (H := P) (M := M2) src options.
Proof.
  split; [|apply processImage_any_map].
  rewrite (processImage_any_map (M1 := M1) (M2 := M2)).
  apply processImage_any_time.
Qed.

(** ** Optimized mode: the packed atlas (C6) *)

Lemma ceil_div_spec (a b : Z) :
  0 < b -> (ceil_div a b - 1) * b < a <= ceil_div a b * b.
Proof.
  intros Hb. unfold ceil_div.
  pose proof (Z.div_mod (- a) b ltac:(lia)) as Hdm.
  pose proof (Z.mod_pos_bound (- a) b Hb) as Hmod. nia.
Qed.


Section Atlas.
Context `{Platform}.

Lemma emptyAtlas_bitmap (ts C n px py : Z) :
  Canvas.bitmap (emptyAtlas ts C n) px py = transparent.
Proof.
  unfold emptyAtlas, clearRect. cbn [Canvas.bitmap Canvas.set_height].
  now destruct (in_rect _ _ _ _ _ _).
Qed.

Lemma atlasCanvas_width (ts C : Z) (items : list UniqueTile.t) :
  Canvas.width (atlasCanvas ts C items) = C * ts.
Proof. unfold atlasCanvas. now rewrite forEach_packTile_width. Qed.

Lemma atlasCanvas_height (ts C : Z) (items : list UniqueTile.t) :
  Canvas.height (atlasCanvas ts C items)
  = ceil_div (Z.of_nat (length items)) C * ts.
Proof. unfold atlasCanvas. now rewrite forEach_packTile_height. Qed.

(** In the atlas, the pixels of entry [k] stand in slot [k]. *)
Lemma atlasCanvas_sample (ts C : Z) (items : list UniqueTile.t) (k : nat)
    (item : UniqueTile.t) (dx dy : Z) :
  0 < ts -> 0 < C ->
  Forall (fun it => Canvas.width (UniqueTile.canvas it) = ts
                    /\ Canvas.height (UniqueTile.canvas it) = ts) items ->
  items !! k = Some item ->
  0 <= dx < ts -> 0 <= dy < ts ->
  Canvas.sample (atlasCanvas ts C items)
                (Z.of_nat k mod C * ts + dx) (Z.of_nat k / C * ts + dy)
  = drawn (Canvas.sample (UniqueTile.canvas item) dx dy).
Proof.
  intros Hts HC Hsz Hk Hdx Hdy.
  apply lookup_lt_Some in Hk as Hlt.
  pose proof (ceil_div_spec (Z.of_nat (length items)) C HC) as Hceil.
  pose proof (Z.mod_pos_bound (Z.of_nat k) C HC) as Hmod.
  pose proof (Z.div_mod (Z.of_nat k) C ltac:(lia)) as Hdm.
  assert (Hdiv : 0 <= Z.of_nat k / C) by (apply Z.div_pos; lia).
  assert (Hrow : Z.of_nat k / C + 1 <= ceil_div (Z.of_nat (length items)) C) by nia.
  assert (HX : 0 <= Z.of_nat k mod C * ts + dx < C * ts) by nia.
  assert (HY : 0 <= Z.of_nat k / C * ts + dy
               < ceil_div (Z.of_nat (length items)) C * ts) by nia.
  rewrite sample_inside
    by (rewrite ?atlasCanvas_width, ?atlasCanvas_height; assumption).
  unfold atlasCanvas.
  rewrite (forEach_packTile_bitmap ts C items 0 _ [] k item); try assumption;
    try lia.
  - rewrite emptyAtlas_bitmap. unfold drawn. rewrite Z.add_0_l.
    rewrite Z.rem_mod_nonneg by lia. do 2 f_equal; lia.
  - rewrite Z.add_0_l, Z.rem_mod_nonneg by lia. apply in_rect_true; lia.
Qed.

End Atlas.

Section ClaimsPacking.
Context `{Platform} {M : Type} `{JSMap M}.
Hypothesis source_over_clear : forall s, source_over s transparent = s.
Hypothesis encodePNG_lossless :
  forall w h d d', encodePNG w h d = encodePNG w h d' -> d = d'.

Lemma represents_sizes (src : HTMLImageElement) (ts : Z)
    (found : list (Z * Z)) (items : list UniqueTile.t) :
  Forall2 (represents src ts) found items ->
  Forall (fun it => Canvas.width (UniqueTile.canvas it) = ts
                    /\ Canvas.height (UniqueTile.canvas it) = ts) items.
Proof.
  induction 1 as [|c item found items (_ & Hw & Hh & _) _ IH]; constructor; auto.
Qed.

Lemma represents_solid (src : HTMLImageElement) (ts : Z) (c : Z * Z)
    (item : UniqueTile.t) :
  0 < ts -> represents src ts c item ->
  detectCollision (UniqueTile.canvas item) ts = cellSolid src ts c.
Proof.
  intros Hts (_ & Hw & Hh & Hpix). unfold cellSolid.
  apply detectCollision_ext; [exact Hts|]. intros i j Hi Hj.
  rewrite Hpix, extractTile_sample by auto. unfold drawn.
  now rewrite !source_over_clear.
Qed.


End ClaimsPacking.

(** ** Two identical halves (C2) *)

Section ClaimsScenarioB.
Context `{Platform} {M : Type} `{JSMap M}.

(** Cells that agree pixel by pixel have the same fingerprint, on every
    platform. *)
Lemma cellHash_same_pixels (src : HTMLImageElement) (ts : Z) (c1 c2 : Z * Z) :
  (forall i j, 0 <= i < ts -> 0 <= j < ts ->
     Canvas.sample src (fst c1 * ts + i) (snd c1 * ts + j)
     = Canvas.sample src (fst c2 * ts + i) (snd c2 * ts + j)) ->
  cellHash src ts c1 = cellHash src ts c2.
Proof.
  intros Hsame. unfold cellHash, toDataURL.
  rewrite !extractTile_width, !extractTile_height.
  destruct (_ || _); [reflexivity|]. f_equal. unfold canvas_bytes.
  rewrite !extractTile_width, !extractTile_height.
  apply rect_bytes_eq_iff. intros i j Hi Hj. rewrite !Z.add_0_l.
  cbn [scratch Canvas.width Canvas.height Canvas.set_width Canvas.set_height]
    in Hi, Hj.
  rewrite !extractTile_sample by (auto; reflexivity).
  now rewrite Hsame.
Qed.

(** C2, as the code has it.  For a 96 x 48 source whose two 48 x 48 halves
    are pixel-identical, with tile size 48, optimized mode and 8 columns,
    [processImage] is fulfilled with [totalTiles] 2 and [uniqueTiles] 1, an
    output 384 wide (8 columns of 48) and 48 high, and a tile list of one
    tile, with id 0, at the origin. *)
Theorem identical_halves_one_tile (src : HTMLImageElement) (columns : option Z) :
  Canvas.width src = 96 -> Canvas.height src = 48 ->
  default 8 columns = 8 ->
  (forall x y, 0 <= x < 48 -> 0 <= y < 48 ->
     Canvas.sample src x y = Canvas.sample src (48 + x) y) ->
  exists res t,
    processImage (M := M) src
      {| ProcessOptions.tileSize := 48; ProcessOptions.mode := optimized;
         ProcessOptions.columns := columns |} = Fulfilled res
    /\ ProcessResult.totalTiles res = 2
    /\ ProcessResult.uniqueTiles res = 1
    /\ ProcessResult.width res = 384
    /\ ProcessResult.height res = 48
    /\ ProcessResult.tiles res = [t]
    /\ TileData.id t = 0 /\ TileData.x t = 0 /\ TileData.y t = 0.
Proof.
  intros Hw Hh HC Hsame.
  destruct (processImage_optimized (M := M) src 48 columns)
    as (items & Hrep & Heq).
  { rewrite Hw, Hh. discriminate. }
  rewrite Hw, Hh, HC in *.
  change (96 / 48) with 2 in *. change (48 / 48) with 1 in *.
  change (row_major 2 1) with [(0, 0); (1, 0)] in Hrep.
  assert (Hhash : cellHash src 48 (1, 0) = cellHash src 48 (0, 0)).
  { apply cellHash_same_pixels. intros i j Hi Hj. cbn [fst snd].
    replace (0 * 48 + i) with i by lia. replace (0 * 48 + j) with j by lia.
    replace (1 * 48 + i) with (48 + i) by lia. symmetry. now apply Hsame. }
  cbn [discover] in Hrep.
  rewrite decide_False in Hrep by (intros Hin; inversion Hin).
  rewrite decide_True in Hrep by (rewrite Hhash; left).
  apply Forall2_cons_inv_l in Hrep as (item & rest & _ & Hrest & ->).
  apply Forall2_nil_inv_l in Hrest as ->.
  rewrite Heq. cbn zeta. eexists. eexists. split; [reflexivity|].
  cbn. repeat split; reflexivity.
Qed.

End ClaimsScenarioB.

(** ** [JSON.parse] after [JSON.stringify] *)

Module JSONFacts.
Import JSONText.
Local Open Scope string_scope.

Lemma append_nil (s : string) : "" ++ s = s.
Proof. reflexivity. Qed.

Lemma append_cons (x : ascii) (a b : string) :
  String x a ++ b = String x (a ++ b).
Proof. reflexivity. Qed.

(** Pushes concatenations to the right and exposes leading characters. *)
Ltac str_norm := rewrite ?append_cons, ?append_nil.

Lemma append_assoc (a b c : string) : (a ++ b) ++ c = a ++ (b ++ c).
Proof.
  induction a as [|x a IH]; str_norm; [reflexivity|]. now rewrite IH.
Qed.

Lemma length_append (a b : string) :
  String.length (a ++ b) = (String.length a + String.length b)%nat.
Proof.
  induction a as [|x a IH]; str_norm; [reflexivity|].
  cbn [String.length]. now rewrite IH.
Qed.

Lemma all_ws_append (a b : string) :
  all_ws a = true -> all_ws b = true -> all_ws (a ++ b) = true.
Proof.
  induction a as [|x a IH]; str_norm; [auto|]. cbn [all_ws].
  intros [Hx Ha]%andb_true_iff Hb. rewrite Hx. cbn. auto.
Qed.

Lemma skip_ws_append (ws s : string) :
  all_ws ws = true -> skip_ws (ws ++ s) = skip_ws s.
Proof.
  induction ws as [|x ws IH]; str_norm; [reflexivity|]. cbn [all_ws skip_ws].
  intros [Hx Hws]%andb_true_iff. rewrite Hx. auto.
Qed.

(** *** Numbers *)

Lemma parse_digits_digits (d : Decimal.uint) (rest : string) :
  digit_head rest = false ->
  parse_digits (digits d ++ rest) = (d, rest).
Proof.
  intros Hrest.
  induction d; cbn [digits]; str_norm; cbn [parse_digits];
    try (change (digit_of _) with (Some Decimal.D0) || change (digit_of _) with (Some Decimal.D1)
         || change (digit_of _) with (Some Decimal.D2) || change (digit_of _) with (Some Decimal.D3)
         || change (digit_of _) with (Some Decimal.D4) || change (digit_of _) with (Some Decimal.D5)
         || change (digit_of _) with (Some Decimal.D6) || change (digit_of _) with (Some Decimal.D7)
         || change (digit_of _) with (Some Decimal.D8) || change (digit_of _) with (Some Decimal.D9));
    try (now rewrite IHd).
  destruct rest as [|c rest]; [reflexivity|].
  cbn in Hrest |- *. now destruct (digit_of c).
Qed.

Lemma delimited_digit_head (rest : string) :
  delimited rest = true -> digit_head rest = false.
Proof.
  destruct rest as [|c rest]; [reflexivity|]. cbn.
  intros [Hc|Hc]%orb_true_iff.
  - apply Ascii.eqb_eq in Hc as ->. reflexivity.
  - apply N.eqb_eq in Hc. unfold digit_of. now rewrite Hc.
Qed.

Lemma delimited_starts_fraction (rest : string) :
  delimited rest = true -> starts_fraction rest = false.
Proof.
  destruct rest as [|c rest]; [reflexivity|]. cbn.
  intros [Hc|Hc]%orb_true_iff.
  - apply Ascii.eqb_eq in Hc as ->. reflexivity.
  - destruct (Ascii.eqb_spec c ".") as [->|_]; [discriminate|].
    destruct (Ascii.eqb_spec c "e") as [->|_]; [discriminate|].
    destruct (Ascii.eqb_spec c "E") as [->|_]; [discriminate|]. reflexivity.
Qed.

(** The digits of a positive number: some, and no leading zero. *)
Lemma to_uint_shape (p : positive) :
  match Pos.to_uint p with
  | Decimal.Nil | Decimal.D0 _ => False
  | _ => True
  end.
Proof.
  pose proof (DecimalPos.Unsigned.to_uint_nonnil p) as Hnil.
  pose proof (DecimalPos.Unsigned.to_uint_nonzero p) as Hzero.
  pose proof (DecimalPos.Unsigned.to_of (Pos.to_uint p)) as Hnorm.
  rewrite DecimalPos.Unsigned.of_to in Hnorm. cbn [N.to_uint] in Hnorm.
  destruct (Pos.to_uint p) as [|d| | | | | | | | |]; auto.
  unfold Decimal.unorm in Hnorm. cbn [Decimal.nzhead] in Hnorm.
  pose proof (DecimalFacts.nzhead_nonzero d) as Hnz.
  destruct (Decimal.nzhead d) as [|d0| | | | | | | | |]; try discriminate.
  - injection Hnorm as ->. now apply Hzero.
  - now apply (Hnz d0).
Qed.

Lemma parse_unsigned_to_uint (p : positive) (rest : string) :
  delimited rest = true ->
  parse_unsigned (digits (Pos.to_uint p) ++ rest) = Some (Pos.to_uint p, rest).
Proof.
  intros Hrest. unfold parse_unsigned.
  rewrite parse_digits_digits by now apply delimited_digit_head.
  rewrite delimited_starts_fraction by exact Hrest.
  pose proof (to_uint_shape p) as Hshape.
  destruct (Pos.to_uint p); tauto.
Qed.

Lemma digits_head (d : Decimal.uint) (rest : string) :
  d <> Decimal.Nil ->
  exists c s, digits d ++ rest = String c s
              /\ match digit_of c with Some _ => True | None => False end.
Proof.
  destruct d; [congruence|..]; intros _; cbn; eexists; eexists; split;
    try reflexivity; exact I.
Qed.

Lemma parse_number_number (n : Z) (rest : string) :
  delimited rest = true ->
  parse_number (number n ++ rest) = Some (n, rest).
Proof.
  intros Hrest. unfold number. destruct n as [|p|p]; cbn [Z.to_int].
  - cbn [digits]. str_norm. unfold parse_number.
    change ("0" =? "-")%char with false. cbn iota.
    unfold parse_unsigned. cbn [parse_digits].
    change (digit_of "0") with (Some Decimal.D0).
    pose proof (delimited_digit_head _ Hrest) as Hd.
    pose proof (delimited_starts_fraction _ Hrest) as Hf.
    destruct rest as [|c rest]; [reflexivity|].
    cbn [parse_digits]. cbn in Hd. destruct (digit_of c); [discriminate|].
    now rewrite Hf.
  - destruct (digits_head (Pos.to_uint p) rest
                (DecimalPos.Unsigned.to_uint_nonnil p)) as (c & s & Heq & Hc).
    pose proof (parse_unsigned_to_uint p rest Hrest) as Hparse.
    rewrite Heq in *. unfold parse_number.
    destruct (Ascii.eqb_spec c "-") as [->|_]; [contradiction|].
    rewrite Hparse.
    change (Decimal.Pos (Pos.to_uint p)) with (Z.to_int (Z.pos p)).
    now rewrite DecimalZ.of_to.
  - str_norm. unfold parse_number.
    change ("-" =? "-")%char with true. cbn iota.
    rewrite parse_unsigned_to_uint by exact Hrest.
    change (Decimal.Neg (Pos.to_uint p)) with (Z.to_int (Z.neg p)).
    now rewrite DecimalZ.of_to.
Qed.


(** *** Strings *)

Lemma parse_chars_quote_char (c : ascii) (tail : string) :
  parse_chars (quote_char c ++ tail) = prepend c (parse_chars tail).
Proof.
  destruct c as [[|] [|] [|] [|] [|] [|] [|] [|]]; reflexivity.
Qed.

Lemma parse_chars_quote_chars (s rest : string) :
  parse_chars (quote_chars s ++ dquote ++ rest) = Some (s, rest).
Proof.
  induction s as [|c s IH]; [reflexivity|].
  cbn [quote_chars]. rewrite append_assoc, parse_chars_quote_char, IH.
  reflexivity.
Qed.

(** *** The first character of a serialized value *)

Lemma digit_value_start (c : ascii) :
  match digit_of c with Some _ => True | None => False end ->
  value_start c = true.
Proof.
  destruct c as [[|] [|] [|] [|] [|] [|] [|] [|]]; cbn; intros Hd;
    first [reflexivity | destruct Hd].
Qed.

Lemma serialize_head (gap indent : string) (v : JSON) (tail : string) :
  exists c s, serialize gap indent v ++ tail = String c s
              /\ value_start c = true.
Proof.
  destruct v as [|n|str|[|]|items|members]; cbn [serialize].
  - eexists; eexists; split; [reflexivity|reflexivity].
  - unfold number. destruct n as [|p|p]; cbn [Z.to_int].
    + eexists; eexists; split; [reflexivity|reflexivity].
    + destruct (digits_head (Pos.to_uint p) tail
                  (DecimalPos.Unsigned.to_uint_nonnil p)) as (c & s & Heq & Hc).
      exists c, s. split; [exact Heq|now apply digit_value_start].
    + eexists; eexists; split; [reflexivity|reflexivity].
  - eexists; eexists; split; [reflexivity|reflexivity].
  - eexists; eexists; split; [reflexivity|reflexivity].
  - eexists; eexists; split; [reflexivity|reflexivity].
  - destruct items; eexists; eexists; split; reflexivity.
  - destruct members; eexists; eexists; split; reflexivity.
Qed.

Lemma skip_ws_value_start (c : ascii) (s : string) :
  value_start c = true -> skip_ws (String c s) = String c s.
Proof.
  unfold value_start. intros H. cbn [skip_ws].
  destruct (is_ws c); [discriminate|reflexivity].
Qed.

(** *** Enough fuel *)

Lemma length_join_ge (sep : string) (parts : list string) :
  (list_sum (map String.length parts) <= String.length (join sep parts))%nat.
Proof.
  induction parts as [|p parts IH]; [cbn; lia|].
  destruct parts as [|q parts]; [cbn [join map list_sum fold_right]; lia|].
  change (join sep (p :: q :: parts)) with (p ++ sep ++ join sep (q :: parts)).
  rewrite !length_append. unfold list_sum in *. cbn [map fold_right] in *. lia.
Qed.

Lemma list_sum_le {A : Type} (f g : A -> nat) (l : list A) :
  Forall (fun a => (f a <= g a)%nat) l ->
  (list_sum (map f l) <= list_sum (map g l))%nat.
Proof. induction 1; unfold list_sum in *; cbn [map fold_right] in *; lia. Qed.


(** *** Induction over values, through the lists of children *)

Section Induction.
Variable P : JSON -> Prop.
Hypothesis Hnull : P JNull.
Hypothesis Hnumber : forall n, P (JNumber n).
Hypothesis Hstring : forall s, P (JString s).
Hypothesis Hbool : forall b, P (JBool b).
Hypothesis Harray : forall items, Forall P items -> P (JArray items).
Hypothesis Hobject :
  forall members, Forall (fun kv => P (snd kv)) members -> P (JObject members).

Fixpoint JSON_nested_ind (v : JSON) : P v :=
  match v with
  | JNull => Hnull
  | JNumber n => Hnumber n
  | JString s => Hstring s
  | JBool b => Hbool b
  | JArray items =>
      Harray items
        ((fix go (l : list JSON) : Forall P l :=
            match l with
            | [] => List.Forall_nil P
            | x :: l' => @List.Forall_cons _ P x l' (JSON_nested_ind x) (go l')
            end) items)
  | JObject members =>
      Hobject members
        ((fix go (l : list (string * JSON)) : Forall (fun kv => P (snd kv)) l :=
            match l with
            | [] => List.Forall_nil _
            | kv :: l' =>
                @List.Forall_cons _ (fun kv => P (snd kv)) kv l'
                                  (JSON_nested_ind (snd kv)) (go l')
            end) members)
  end.
End Induction.

Lemma size_pos (v : JSON) : (1 <= size v)%nat.
Proof. destruct v; cbn; lia. Qed.

Lemma length_le_sizes {A : Type} (f : A -> JSON) (l : list A) :
  (length l <= list_sum (map (fun a => size (f a)) l))%nat.
Proof.
  induction l as [|a l IH]; unfold list_sum in *; cbn [map fold_right length];
    [lia|]. pose proof (size_pos (f a)). lia.
Qed.

Lemma size_elem_le {A : Type} (f : A -> JSON) (l : list A) (a : A) :
  a ∈ l -> (size (f a) <= list_sum (map (fun a => size (f a)) l))%nat.
Proof.
  induction 1; unfold list_sum in *; cbn [map fold_right]; lia.
Qed.

Lemma length_le_sizes_id (l : list JSON) :
  (length l <= list_sum (map size l))%nat.
Proof. exact (length_le_sizes (fun v => v) l). Qed.

Lemma size_elem_le_id (l : list JSON) (v : JSON) :
  v ∈ l -> (size v <= list_sum (map size l))%nat.
Proof. exact (size_elem_le (fun v => v) l v). Qed.

(** A text is at least as long as its value has nodes. *)
Lemma size_le_length (gap indent : string) (v : JSON) :
  (size v <= String.length (serialize gap indent v))%nat.
Proof.
  revert indent. induction v as [|n|s|b|items IH|members IH] using JSON_nested_ind;
    intros indent.
  - cbn. lia.
  - cbn [size serialize]. unfold number.
    destruct n as [|p|p]; cbn [Z.to_int]; [cbn; lia| |].
    + destruct (digits_head (Pos.to_uint p) ""
                  (DecimalPos.Unsigned.to_uint_nonnil p)) as (c & s & Heq & _).
      rewrite <- (append_nil (digits _)) at 1.
      assert (Hnil : forall x, x ++ "" = x).
      { intros x. induction x as [|y x IHx]; str_norm; [reflexivity|now rewrite IHx]. }
      rewrite Hnil in Heq. rewrite append_nil, Heq. cbn. lia.
    + str_norm. cbn. lia.
  - cbn [size serialize]. unfold quote, dquote. str_norm. cbn. lia.
  - destruct b; cbn; lia.
  - cbn [size serialize]. destruct items as [|v1 items]; [cbn; lia|].
    cbv zeta. rewrite !length_append.
    pose proof (length_join_ge ("," ++ newline ++ indent ++ gap)
                  (map (serialize gap (indent ++ gap)) (v1 :: items))) as Hjoin.
    rewrite map_map in Hjoin.
    pose proof (list_sum_le size
                  (fun v => String.length (serialize gap (indent ++ gap) v))
                  (v1 :: items)) as Hsum.
    assert (Hall : Forall (fun a => (size a
               <= String.length (serialize gap (indent ++ gap) a))%nat) (v1 :: items)).
    { eapply Forall_impl; [exact IH|]. intros v Hv. apply Hv. }
    specialize (Hsum Hall). change (String.length "[") with 1%nat. lia.
  - cbn [size serialize]. destruct members as [|m1 members]; [cbn; lia|].
    cbv zeta. rewrite !length_append.
    pose proof (length_join_ge ("," ++ newline ++ indent ++ gap)
                  (map (fun kv => quote (fst kv) ++ ": "
                                    ++ serialize gap (indent ++ gap) (snd kv))
                       (m1 :: members))) as Hjoin.
    rewrite map_map in Hjoin.
    pose proof (list_sum_le (fun kv => size (snd kv))
                  (fun kv => String.length
                     (quote (fst kv) ++ ": "
                        ++ serialize gap (indent ++ gap) (snd kv)))
                  (m1 :: members)) as Hsum.
    assert (Hall : Forall (fun kv => (size (snd kv)
               <= String.length (quote (fst kv) ++ ": "
                     ++ serialize gap (indent ++ gap) (snd kv)))%nat)
               (m1 :: members)).
    { eapply Forall_impl; [exact IH|]. intros kv Hkv. cbn beta.
      rewrite !length_append. specialize (Hkv (indent ++ gap)). lia. }
    specialize (Hsum Hall). change (String.length "{") with 1%nat. lia.
Qed.


(** *** Arrays and objects *)

Lemma all_ws_newline_indent (ind : string) :
  all_ws ind = true -> all_ws (newline ++ ind) = true.
Proof. intros Hind. now apply all_ws_append. Qed.

Lemma delimited_newline (s : string) : delimited (newline ++ s) = true.
Proof. reflexivity. Qed.

Lemma delimited_comma (s : string) : delimited ("," ++ s) = true.
Proof. reflexivity. Qed.

Section Elements.
Variable pv : string -> option (JSON * string).
Variables gap ind stepback rest : string.
Hypothesis Hind : all_ws ind = true.
Hypothesis Hstepback : all_ws stepback = true.

Lemma parse_elements_join (items : list JSON) (fuel : nat) (ws : string) :
  items <> [] ->
  (length items <= fuel)%nat ->
  all_ws ws = true ->
  (forall v, v ∈ items -> forall ws' tail,
     all_ws ws' = true -> delimited tail = true ->
     pv (ws' ++ serialize gap ind v ++ tail) = Some (v, tail)) ->
  parse_elements pv fuel
    (ws ++ join ("," ++ newline ++ ind) (map (serialize gap ind) items)
        ++ newline ++ stepback ++ "]" ++ rest)
  = Some (items, rest).
Proof.
  revert fuel ws. induction items as [|v items IH]; intros fuel ws Hne Hfuel Hws Hpv;
    [congruence|].
  destruct fuel as [|fuel]; [cbn in Hfuel; lia|]. cbn [length] in Hfuel.
  destruct items as [|v2 items].
  - cbn [map join parse_elements].
    rewrite (Hpv v) by (auto using delimited_newline; left).
    rewrite <- append_assoc, skip_ws_append by now apply all_ws_newline_indent.
    reflexivity.
  - change (join ("," ++ newline ++ ind) (map (serialize gap ind) (v :: v2 :: items)))
      with (serialize gap ind v ++ ("," ++ newline ++ ind)
              ++ join ("," ++ newline ++ ind) (map (serialize gap ind) (v2 :: items))).
    rewrite !append_assoc. cbn [parse_elements].
    rewrite (Hpv v) by (auto using delimited_comma; left).
    str_norm. cbn [skip_ws]. change (is_ws ",") with false. cbn iota.
    change ("," =? ",")%char with true. cbn iota.
    rewrite <- (append_assoc newline ind).
    rewrite IH; [reflexivity|discriminate|lia|now apply all_ws_newline_indent|].
    intros v' Hv'. apply Hpv. now right.
Qed.

Lemma parse_members_join (members : list (string * JSON)) (fuel : nat)
    (ws : string) :
  members <> [] ->
  (length members <= fuel)%nat ->
  all_ws ws = true ->
  (forall kv, kv ∈ members -> forall ws' tail,
     all_ws ws' = true -> delimited tail = true ->
     pv (ws' ++ serialize gap ind (snd kv) ++ tail) = Some (snd kv, tail)) ->
  parse_members pv fuel
    (ws ++ join ("," ++ newline ++ ind)
              (map (fun kv => quote (fst kv) ++ ": "
                                ++ serialize gap ind (snd kv)) members)
        ++ newline ++ stepback ++ "}" ++ rest)
  = Some (members, rest).
Proof.
  revert fuel ws.
  induction members as [|[k v] members IH]; intros fuel ws Hne Hfuel Hws Hpv;
    [congruence|].
  destruct fuel as [|fuel]; [cbn in Hfuel; lia|]. cbn [length] in Hfuel.
  assert (Hkey : forall tail,
    parse_members pv (S fuel)
      (ws ++ (quote k ++ ": " ++ serialize gap ind v) ++ tail)
    = match pv (" " ++ serialize gap ind v ++ tail) with
      | Some (v', rest3) =>
          match skip_ws rest3 with
          | String c' rest4 =>
              if (c' =? ",")%char then
                match parse_members pv fuel rest4 with
                | Some (ms, rest5) => Some ((k, v') :: ms, rest5)
                | None => None
                end
              else if (c' =? "}")%char then Some ([(k, v')], rest4)
              else None
          | EmptyString => None
          end
      | None => None
      end).
  { intros tail. cbn [parse_members]. rewrite skip_ws_append by exact Hws.
    unfold quote. rewrite !append_assoc. unfold dquote at 1. str_norm.
    cbn [skip_ws]. change (is_ws (ascii_of_N 34)) with false. cbn iota.
    change (N_of_ascii (ascii_of_N 34) =? 34)%N with true. cbn iota.
    rewrite parse_chars_quote_chars. str_norm. cbn [skip_ws].
    change (is_ws ":") with false. cbn iota.
    change (":" =? ":")%char with true. cbn iota. reflexivity. }
  destruct members as [|kv2 members].
  - cbn [map join fst snd]. rewrite Hkey.
    rewrite (Hpv (k, v)) by (auto using delimited_newline; left).
    cbn [snd].
    rewrite <- append_assoc, skip_ws_append by now apply all_ws_newline_indent.
    reflexivity.
  - change (join ("," ++ newline ++ ind)
              (map (fun kv => quote (fst kv) ++ ": " ++ serialize gap ind (snd kv))
                   ((k, v) :: kv2 :: members)))
      with ((quote k ++ ": " ++ serialize gap ind v) ++ ("," ++ newline ++ ind)
              ++ join ("," ++ newline ++ ind)
                   (map (fun kv => quote (fst kv) ++ ": "
                                     ++ serialize gap ind (snd kv))
                        (kv2 :: members))).
    rewrite (append_assoc (quote k ++ ": " ++ serialize gap ind v)).
    rewrite Hkey. rewrite !append_assoc.
    rewrite (Hpv (k, v)) by (auto using delimited_comma; left).
    cbn [snd]. str_norm. cbn [skip_ws]. change (is_ws ",") with false. cbn iota.
    change ("," =? ",")%char with true. cbn iota.
    rewrite <- (append_assoc newline ind).
    rewrite IH; [reflexivity|discriminate|lia|now apply all_ws_newline_indent|].
    intros kv' Hkv'. apply Hpv. now right.
Qed.

End Elements.


(** *** The round trip *)

(** With enough fuel, parsing the text of [v] (after white space, before a
    delimiter) gives back [v] and leaves what follows. *)
Lemma parse_value_serialize (gap : string) (v : JSON) :
  all_ws gap = true ->
  forall fuel indent ws tail,
    all_ws indent = true -> all_ws ws = true ->
    (size v <= fuel)%nat -> delimited tail = true ->
    parse_value fuel (ws ++ serialize gap indent v ++ tail) = Some (v, tail).
Proof.
  intros Hgap.
  induction v as [|n|s|b|items IH|members IH] using JSON_nested_ind;
    intros fuel indent ws tail Hindent Hws Hfuel Htail;
    (destruct fuel as [|fuel]; [pose proof (size_pos (JArray [])); cbn in Hfuel; lia|]);
    cbn [parse_value]; rewrite skip_ws_append by exact Hws.
  - reflexivity.
  - destruct (serialize_head gap indent (JNumber n) tail) as (c & s & Heq & Hc).
    pose proof (parse_number_number n tail Htail) as Hnum.
    cbn [serialize] in Heq |- *. rewrite Heq in *.
    rewrite skip_ws_value_start by exact Hc.
    assert (Hdigit : (c =? "-")%char = true
                     \/ match digit_of c with Some _ => True | None => False end).
    { unfold parse_number in Hnum.
      destruct (c =? "-")%char; [now left|right].
      unfold parse_unsigned in Hnum. cbn [parse_digits] in Hnum.
      destruct (digit_of c); [exact I|].
      destruct (starts_fraction _); discriminate. }
    destruct Hdigit as [Hminus|Hdigit].
    + apply Ascii.eqb_eq in Hminus as ->. cbn -[parse_number]. now rewrite Hnum.
    + revert Hdigit Hnum.
      destruct c as [[|] [|] [|] [|] [|] [|] [|] [|]]; cbn -[parse_number];
        try contradiction; intros _ ->; reflexivity.
  - cbn [serialize]. unfold quote. rewrite !append_assoc.
    unfold dquote at 1. str_norm. cbn [skip_ws].
    change (is_ws (ascii_of_N 34)) with false. cbn iota.
    change (ascii_of_N 34 =? "{")%char with false.
    change (ascii_of_N 34 =? "[")%char with false. cbn iota.
    change (N_of_ascii (ascii_of_N 34) =? 34)%N with true. cbn iota.
    now rewrite parse_chars_quote_chars.
  - destruct b; reflexivity.
  - cbn [serialize]. destruct items as [|v1 items]; [reflexivity|].
    cbv zeta. set (ind' := indent ++ gap).
    assert (Hind' : all_ws ind' = true) by now apply all_ws_append.
    set (J := join ("," ++ newline ++ ind') (map (serialize gap ind') (v1 :: items))).
    replace (("[" ++ newline ++ ind' ++ J ++ newline ++ indent ++ "]") ++ tail)
      with (String "[" ((newline ++ ind') ++ J ++ newline ++ indent ++ "]" ++ tail))
      by (rewrite !append_assoc; reflexivity).
    cbn [skip_ws]. change (is_ws "[") with false. cbn iota.
    change ("[" =? "{")%char with false. change ("[" =? "[")%char with true.
    cbn iota.
    rewrite skip_ws_append by now apply all_ws_newline_indent.
    destruct (serialize_head gap ind' v1
                (match items with
                 | [] => ""
                 | _ => ("," ++ newline ++ ind')
                          ++ join ("," ++ newline ++ ind')
                               (map (serialize gap ind') items)
                 end ++ newline ++ indent ++ "]" ++ tail))
      as (c & s' & Heq & Hc).
    assert (Hhead : J ++ newline ++ indent ++ "]" ++ tail = String c s').
    { rewrite <- Heq. subst J. destruct items as [|v2 items]; cbn [map join].
      - now rewrite append_nil.
      - now rewrite !append_assoc. }
    pose proof Hc as Hc'. unfold value_start in Hc'.
    apply andb_true_iff in Hc' as [[_ Hclose]%andb_true_iff _].
    apply negb_true_iff in Hclose.
    rewrite Hhead, skip_ws_value_start by exact Hc.
    rewrite Hclose. rewrite <- Hhead. subst J.
    rewrite (parse_elements_join (parse_value fuel) gap ind' indent tail
               Hind' Hindent (v1 :: items) fuel (newline ++ ind'));
      [reflexivity|discriminate| | |].
    + cbn [size] in Hfuel. pose proof (length_le_sizes_id (v1 :: items)).
      lia.
    + now apply all_ws_newline_indent.
    + intros v Hv ws' tail' Hws' Htail'.
      rewrite Forall_forall in IH. apply IH; auto.
      cbn [size] in Hfuel. pose proof (size_elem_le_id _ _ Hv). lia.
  - cbn [serialize]. destruct members as [|[k1 m1] members]; [reflexivity|].
    cbv zeta. set (ind' := indent ++ gap).
    assert (Hind' : all_ws ind' = true) by now apply all_ws_append.
    set (J := join ("," ++ newline ++ ind')
                (map (fun kv => quote (fst kv) ++ ": "
                                  ++ serialize gap ind' (snd kv))
                     ((k1, m1) :: members))).
    replace (("{" ++ newline ++ ind' ++ J ++ newline ++ indent ++ "}") ++ tail)
      with (String "{" ((newline ++ ind') ++ J ++ newline ++ indent ++ "}" ++ tail))
      by (rewrite !append_assoc; reflexivity).
    cbn [skip_ws]. change (is_ws "{") with false. cbn iota.
    change ("{" =? "{")%char with true. cbn iota.
    rewrite skip_ws_append by now apply all_ws_newline_indent.
    assert (Hhead : exists s',
              J ++ newline ++ indent ++ "}" ++ tail = String (ascii_of_N 34) s').
    { subst J. cbn [map fst snd]. unfold quote at 1. unfold dquote at 1.
      destruct (map _ members); cbn [join]; rewrite !append_assoc; str_norm; eauto. }
    destruct Hhead as (s' & Hhead).
    rewrite Hhead. cbn [skip_ws].
    change (is_ws (ascii_of_N 34)) with false. cbn iota.
    change (ascii_of_N 34 =? "}")%char with false. cbn iota.
    rewrite <- Hhead. subst J.
    rewrite (parse_members_join (parse_value fuel) gap ind' indent tail
               Hind' Hindent ((k1, m1) :: members) fuel (newline ++ ind'));
      [reflexivity|discriminate| | |].
    + cbn [size] in Hfuel.
      pose proof (length_le_sizes (fun kv : string * JSON => snd kv)
                    ((k1, m1) :: members)).
      lia.
    + now apply all_ws_newline_indent.
    + intros kv Hkv ws' tail' Hws' Htail'.
      rewrite Forall_forall in IH. apply (IH kv Hkv); auto.
      cbn [size] in Hfuel.
      pose proof (size_elem_le (fun kv : string * JSON => snd kv) _ _ Hkv). lia.
Qed.

(** [JSON.parse(JSON.stringify(v, null, 2))] gives [v] back. *)
Lemma parse_stringify2 (v : JSON) : parse (stringify2 v) = Some v.
Proof.
  unfold parse, stringify2.
  pose proof (parse_value_serialize "  " v eq_refl
                (String.length (serialize "  " "" v)) "" "" "" eq_refl eq_refl
                (size_le_length "  " "" v) eq_refl) as Hparse.
  rewrite append_nil in Hparse.
  assert (Hnil : forall x, x ++ "" = x).
  { intros x. induction x as [|y x IHx]; str_norm; [reflexivity|now rewrite IHx]. }
  rewrite Hnil in Hparse. now rewrite Hparse.
Qed.

End JSONFacts.

(** ** The manifest (C8) *)

Section ClaimsManifest.
Context `{Platform} {M : Type} `{JSMap M}.

(** The manifest of a fulfilled result is the text of [jsonOutput] on the
    result's own tile list. *)
Lemma fulfilled_manifest (src : HTMLImageElement) (options : ProcessOptions.t)
    (res : ProcessResult.t) :
  0 < ProcessOptions.tileSize options ->
  processImage (M := M) src options = Fulfilled res ->
  exists resultCanvas,
    ProcessResult.jsonContent res
    = JSONText.stringify2
        (jsonOutput (ProcessOptions.tileSize options)
                    (ProcessOptions.mode options) resultCanvas
                    (ProcessResult.tiles res)).
Proof.
  destruct options as [ts mode columns].
  cbn [ProcessOptions.tileSize ProcessOptions.mode]. intros Hts Hres.
  destruct (Z.eq_dec ((Canvas.width src / ts) * (Canvas.height src / ts)) 0)
    as [Hz|Hne].
  { rewrite processImage_rejected in Hres by exact Hz. discriminate. }
  destruct mode.
  - rewrite processImage_original in Hres by assumption.
    cbn zeta in Hres. injection Hres as <-. eexists. reflexivity.
  - destruct (processImage_optimized (M := M) src ts columns Hne)
      as (items & _ & Heq).
    rewrite Heq in Hres. cbn zeta in Hres. injection Hres as <-.
    eexists. reflexivity.
Qed.

Lemma readTiles_entries (tiles : list TileData.t) :
  readTiles (map (fun t => JObject [ ("id"%string, JNumber (TileData.id t));
                                     ("collision"%string, JBool (TileData.isSolid t)) ])
                 tiles)
  = Some (map (fun t => (TileData.id t, TileData.isSolid t)) tiles).
Proof.
  induction tiles as [|t tiles IH]; [reflexivity|].
  cbn [map readTiles]. rewrite IH. reflexivity.
Qed.

(** C8.  For every fulfilled result, parsing the manifest text succeeds, and
    the [tiles] array read back from it has one [(id, collision)] entry per
    tile of the result, in the same order, with that tile's id and collision
    flag; the ids ascend, the entry at index [k] having id [k]. *)
Theorem manifest_round_trip (src : HTMLImageElement)
    (options : ProcessOptions.t) (res : ProcessResult.t) :
  0 < ProcessOptions.tileSize options ->
  0 <= Canvas.width src -> 0 <= Canvas.height src ->
  processImage (M := M) src options = Fulfilled res ->
  exists manifest entries,
    JSONText.parse (ProcessResult.jsonContent res) = Some manifest
    /\ manifestTiles manifest = Some entries
    /\ entries = map (fun t => (TileData.id t, TileData.isSolid t))
                     (ProcessResult.tiles res)
    /\ length entries = length (ProcessResult.tiles res)
    /\ forall k t, ProcessResult.tiles res !! k = Some t ->
         entries !! k = Some (Z.of_nat k, TileData.isSolid t).
Proof.
  intros Hts Hw Hh Hres.
  destruct (fulfilled_manifest src options res Hts Hres) as (cv & Hjson).
  pose proof (fulfilled_tile_ids src options res Hts Hw Hh Hres) as Hids.
  eexists. eexists. split; [|split; [|split; [reflexivity|split]]].
  - rewrite Hjson. apply JSONFacts.parse_stringify2.
  - unfold manifestTiles, jsonOutput. cbn [member find fst snd String.eqb].
    apply readTiles_entries.
  - now rewrite length_map.
  - intros k t Hk. rewrite list_lookup_fmap, Hk. cbn.
    now rewrite (Hids k t Hk).
Qed.

End ClaimsManifest.
(** * Further properties of the service *)

(** ** Deduplication, continued *)

Lemma discover_ext_in {A K : Type} `{EqDecision K} (key key' : A -> K)
    (seen : list K) (l : list A) :
  (forall a, a ∈ l -> key a = key' a) ->
  discover key seen l = discover key' seen l.
Proof.
  revert seen. induction l as [|a l IH]; intros seen Hext; [reflexivity|].
  cbn [discover]. rewrite <- (Hext a) by left.
  destruct (decide (key a ∈ seen)).
  - apply IH. intros b Hb. apply Hext. now right.
  - f_equal. apply IH. intros b Hb. apply Hext. now right.
Qed.




Lemma imap_Forall2_ext {A B : Type} (R : A -> A -> Prop) (f g : nat -> A -> B)
    (l1 l2 : list A) :
  Forall2 R l1 l2 ->
  (forall k a b, R a b -> f k a = g k b) ->
  imap f l1 = imap g l2.
Proof.
  intros HR. revert f g. induction HR as [|a b l1 l2 Hab _ IH]; intros f g Hfg.
  - reflexivity.
  - rewrite !imap_cons. f_equal; [now apply Hfg|].
    apply IH. intros k a' b' Hab'. now apply Hfg.
Qed.

(** ** Decoding a data URL *)

Section Decoding.
Context `{Platform}.
Hypothesis encodePNG_lossless :
  forall w h d d', encodePNG w h d = encodePNG w h d' -> d = d'.

(** Two canvases of the same size with the same data URL hold the same
    pixels. *)
Lemma toDataURL_decode (c1 c2 : HTMLCanvasElement) (px py : Z) :
  Canvas.width c1 = Canvas.width c2 ->
  Canvas.height c1 = Canvas.height c2 ->
  toDataURL c1 = toDataURL c2 ->
  0 <= px < Canvas.width c1 -> 0 <= py < Canvas.height c1 ->
  Canvas.sample c1 px py = Canvas.sample c2 px py.
Proof.
  intros Hw Hh Hurl Hpx Hpy. unfold toDataURL in Hurl.
  rewrite <- Hw, <- Hh in Hurl.
  destruct (Z.eqb_spec (Canvas.width c1) 0); [lia|].
  destruct (Z.eqb_spec (Canvas.height c1) 0); [lia|].
  cbn [orb] in Hurl. apply encodePNG_lossless in Hurl.
  unfold canvas_bytes in Hurl. rewrite <- Hw, <- Hh in Hurl.
  pose proof (proj1 (rect_bytes_eq_iff c1 c2 0 0 0 0 _ _) Hurl px py Hpx Hpy)
    as Hsame.
  now rewrite !Z.add_0_l in Hsame.
Qed.
End Decoding.

Section SameBytes.
Context `{Platform}.

(** Canvases of the same size that agree on every pixel have the same data
    URL. *)
Lemma toDataURL_ext (c1 c2 : HTMLCanvasElement) :
  Canvas.width c1 = Canvas.width c2 ->
  Canvas.height c1 = Canvas.height c2 ->
  (forall px py, 0 <= px < Canvas.width c1 -> 0 <= py < Canvas.height c1 ->
     Canvas.sample c1 px py = Canvas.sample c2 px py) ->
  toDataURL c1 = toDataURL c2.
Proof.
  intros Hw Hh Hpix. unfold toDataURL, canvas_bytes. rewrite <- Hw, <- Hh.
  destruct (_ || _); [reflexivity|]. f_equal.
  apply rect_bytes_eq_iff. intros i j Hi Hj. rewrite !Z.add_0_l. now apply Hpix.
Qed.
End SameBytes.

(** ** Every pixel of the atlas *)

Section AtlasPixels.
Context `{Platform}.
Variables (ts C : Z) (items : list UniqueTile.t).
Hypothesis Hts : 0 < ts.
Hypothesis HC : 0 < C.
Hypothesis Hsz :
  Forall (fun it => Canvas.width (UniqueTile.canvas it) = ts
                    /\ Canvas.height (UniqueTile.canvas it) = ts) items.

(** A pixel of a slot past the last tile is never drawn on. *)
Lemma atlasCanvas_unused (px py : Z) :
  Z.of_nat (length items) <= py / ts * C + px / ts ->
  Canvas.sample (atlasCanvas ts C items) px py = transparent.
Proof.
  intros Hfree. unfold Canvas.sample.
  destruct (Canvas.inside _ px py); [|reflexivity].
  unfold atlasCanvas. rewrite forEach_packTile_untouched.
  - apply emptyAtlas_bitmap.
  - intros k item Hk. rewrite Z.add_0_l.
    rewrite Forall_lookup in Hsz. destruct (Hsz k item Hk) as [-> ->].
    apply lookup_lt_Some in Hk.
    match goal with |- ?t = false => destruct t eqn:Hin end; [|reflexivity].
    apply slot_unique in Hin; lia.
Qed.

(** A pixel of the slot of tile [k] shows that tile. *)
Lemma atlasCanvas_slot (px py : Z) (k : nat) (item : UniqueTile.t) :
  0 <= px < C * ts -> 0 <= py ->
  items !! k = Some item ->
  Z.of_nat k = py / ts * C + px / ts ->
  Canvas.sample (atlasCanvas ts C items) px py
  = drawn (Canvas.sample (UniqueTile.canvas item) (px mod ts) (py mod ts)).
Proof.
  intros Hpx Hpy Hk Hslot.
  assert (Hcol : 0 <= px / ts < C).
  { split; [apply Z.div_pos; lia|apply Z.div_lt_upper_bound; lia]. }
  assert (Hkm : Z.of_nat k mod C = px / ts).
  { symmetry. apply (Z.mod_unique_pos _ _ (py / ts)); lia. }
  assert (Hkd : Z.of_nat k / C = py / ts).
  { symmetry. apply (Z.div_unique_pos _ _ _ (px / ts)); lia. }
  pose proof (Z.div_mod px ts ltac:(lia)) as Hdx.
  pose proof (Z.div_mod py ts ltac:(lia)) as Hdy.
  pose proof (Z.mod_pos_bound px ts Hts) as Hmx.
  pose proof (Z.mod_pos_bound py ts Hts) as Hmy.
  rewrite <- (atlasCanvas_sample ts C items k item (px mod ts) (py mod ts))
    by assumption.
  rewrite Hkm, Hkd. f_equal; lia.
Qed.

End AtlasPixels.

Section AtlasExt.
Context `{Platform}.

(** Two lists of tiles that agree pixel by pixel give the same atlas. *)
Lemma atlasCanvas_ext (ts C : Z) (items1 items2 : list UniqueTile.t) :
  0 < ts -> 0 < C ->
  Forall2 (fun a b =>
    (Canvas.width (UniqueTile.canvas a) = ts
     /\ Canvas.height (UniqueTile.canvas a) = ts)
    /\ (Canvas.width (UniqueTile.canvas b) = ts
        /\ Canvas.height (UniqueTile.canvas b) = ts)
    /\ forall i j, 0 <= i < ts -> 0 <= j < ts ->
         Canvas.sample (UniqueTile.canvas a) i j
         = Canvas.sample (UniqueTile.canvas b) i j) items1 items2 ->
  toDataURL (atlasCanvas ts C items1) = toDataURL (atlasCanvas ts C items2).
Proof.
  intros Hts HC Hall.
  pose proof (Forall2_length _ _ _ Hall) as Hlen.
  assert (Hsz1 : Forall (fun it => Canvas.width (UniqueTile.canvas it) = ts
                    /\ Canvas.height (UniqueTile.canvas it) = ts) items1).
  { clear Hlen. induction Hall as [|a b l1 l2 (Ha & _) _ IH]; constructor; auto. }
  assert (Hsz2 : Forall (fun it => Canvas.width (UniqueTile.canvas it) = ts
                    /\ Canvas.height (UniqueTile.canvas it) = ts) items2).
  { clear Hlen Hsz1.
    induction Hall as [|a b l1 l2 (_ & Hb & _) _ IH]; constructor; auto. }
  apply toDataURL_ext.
  - now rewrite !atlasCanvas_width.
  - now rewrite !atlasCanvas_height, Hlen.
  - rewrite atlasCanvas_width, atlasCanvas_height. intros px py Hpx Hpy.
    destruct (Z_lt_le_dec (py / ts * C + px / ts) (Z.of_nat (length items1)))
      as [Hused|Hfree].
    + assert (Hcol : 0 <= px / ts).
      { apply Z.div_pos; lia. }
      assert (Hrow : 0 <= py / ts).
      { apply Z.div_pos; lia. }
      set (k := Z.to_nat (py / ts * C + px / ts)).
      assert (Hk : Z.of_nat k = py / ts * C + px / ts) by (unfold k; nia).
      destruct (lookup_lt_is_Some_2 items1 k ltac:(lia)) as [a Ha].
      destruct (Forall2_lookup_l _ _ _ _ _ Hall Ha) as (b & Hb & _ & _ & Hpix).
      rewrite (atlasCanvas_slot ts C items1 Hts HC Hsz1 px py k a)
        by (assumption || lia).
      rewrite (atlasCanvas_slot ts C items2 Hts HC Hsz2 px py k b)
        by (assumption || lia).
      f_equal. apply Hpix; apply Z.mod_pos_bound; exact Hts.
    + rewrite !atlasCanvas_unused by (assumption || lia). reflexivity.
Qed.

End AtlasExt.

(** ** What [processImage] reads of the source *)

Lemma Forall2_common {A B C : Type} (P : A -> B -> Prop) (Q : A -> C -> Prop)
    (R : B -> C -> Prop) (l : list A) (l1 : list B) (l2 : list C) :
  Forall2 P l l1 -> Forall2 Q l l2 ->
  (forall a b c, a ∈ l -> P a b -> Q a c -> R b c) ->
  Forall2 R l1 l2.
Proof.
  intros HP. revert l2. induction HP as [|a b l l1 Hab _ IH]; intros l2 HQ HR.
  - inversion HQ. constructor.
  - inversion HQ as [|a' c l' l2' Hac HQ']; subst. constructor.
    + apply (HR a); [left|exact Hab|exact Hac].
    + apply IH; [exact HQ'|]. intros a0 b0 c0 Ha0. apply HR. now right.
Qed.

Section Locality.
Context `{Platform} {M : Type} `{JSMap M}.
Variables (src1 src2 : HTMLImageElement) (ts cols rows : Z).
Hypothesis Hts : 0 < ts.
Hypothesis Hsame :
  forall x y, 0 <= x < cols * ts -> 0 <= y < rows * ts ->
    Canvas.sample src1 x y = Canvas.sample src2 x y.

Lemma same_cell_pixels (c : Z * Z) (i j : Z) :
  c ∈ row_major cols rows -> 0 <= i < ts -> 0 <= j < ts ->
  Canvas.sample src1 (fst c * ts + i) (snd c * ts + j)
  = Canvas.sample src2 (fst c * ts + i) (snd c * ts + j).
Proof.
  destruct c as [x y]. intros Hc Hi Hj. apply elem_of_row_major in Hc.
  cbn [fst snd]. apply Hsame; nia.
Qed.

Lemma same_cellHash (c : Z * Z) :
  c ∈ row_major cols rows -> cellHash src1 ts c = cellHash src2 ts c.
Proof.
  intros Hc. unfold cellHash. apply toDataURL_ext; [reflexivity..|].
  intros px py Hpx Hpy. cbn in Hpx, Hpy.
  rewrite !extractTile_sample by (reflexivity || assumption).
  f_equal. now apply same_cell_pixels.
Qed.

Lemma same_cellSolid (c : Z * Z) :
  c ∈ row_major cols rows -> cellSolid src1 ts c = cellSolid src2 ts c.
Proof.
  intros Hc. unfold cellSolid. apply detectCollision_ext; [exact Hts|].
  intros i j Hi Hj.
  rewrite !extractTile_sample by (reflexivity || assumption).
  f_equal. now apply same_cell_pixels.
Qed.

Lemma same_originalTiles :
  map (originalTile src1 ts cols) (row_major cols rows)
  = map (originalTile src2 ts cols) (row_major cols rows).
Proof.
  apply map_ext_in. intros c Hc. unfold originalTile. f_equal.
  apply same_cellSolid. now apply list_elem_of_In.
Qed.

Lemma same_originalCanvas :
  toDataURL (originalCanvas src1 ts cols rows)
  = toDataURL (originalCanvas src2 ts cols rows).
Proof.
  apply toDataURL_ext; [reflexivity..|]. intros px py Hpx Hpy.
  cbn in Hpx, Hpy. rewrite !originalCanvas_sample by assumption.
  f_equal. now apply Hsame.
Qed.

Lemma same_discovery :
  discover (cellHash src1 ts) [] (row_major cols rows)
  = discover (cellHash src2 ts) [] (row_major cols rows).
Proof. apply discover_ext_in. intros c Hc. now apply same_cellHash. Qed.

Lemma same_items (found : list (Z * Z)) (items1 items2 : list UniqueTile.t) :
  found ⊆ row_major cols rows ->
  Forall2 (represents src1 ts) found items1 ->
  Forall2 (represents src2 ts) found items2 ->
  Forall2 (fun a b =>
    (Canvas.width (UniqueTile.canvas a) = ts
     /\ Canvas.height (UniqueTile.canvas a) = ts)
    /\ (Canvas.width (UniqueTile.canvas b) = ts
        /\ Canvas.height (UniqueTile.canvas b) = ts)
    /\ forall i j, 0 <= i < ts -> 0 <= j < ts ->
         Canvas.sample (UniqueTile.canvas a) i j
         = Canvas.sample (UniqueTile.canvas b) i j) items1 items2.
Proof.
  intros Hsub H1 H2. apply (Forall2_common _ _ _ found _ _ H1 H2).
  intros c a b Hc (_ & Hwa & Hha & Hpa) (_ & Hwb & Hhb & Hpb).
  split; [auto|]. split; [auto|]. intros i j Hi Hj.
  rewrite Hpa, Hpb by assumption. do 2 f_equal.
  apply same_cell_pixels; auto.
Qed.

End Locality.

Section ReadsGridOnly.
Context `{Platform} {M : Type} `{JSMap M}.

(** Two sources with the same grid and the same pixels on it are processed
    alike. *)
Lemma processImage_same_on_grid (src1 src2 : HTMLImageElement) (ts : Z)
    (mode : Mode) (columns : option Z) :
  let cols := Canvas.width src1 / ts in
  let rows := Canvas.height src1 / ts in
  0 < ts -> 0 < default 8 columns ->
  Canvas.width src2 / ts = cols ->
  Canvas.height src2 / ts = rows ->
  (forall x y, 0 <= x < cols * ts -> 0 <= y < rows * ts ->
     Canvas.sample src1 x y = Canvas.sample src2 x y) ->
  processImage (M := M) src1
    {| ProcessOptions.tileSize := ts; ProcessOptions.mode := mode;
       ProcessOptions.columns := columns |}
  = processImage (M := M) src2
      {| ProcessOptions.tileSize := ts; ProcessOptions.mode := mode;
         ProcessOptions.columns := columns |}.
Proof.
  intros cols rows Hts HC Hcols Hrows Hsame.
  destruct (Z.eq_dec (cols * rows) 0) as [Hz|Hne].
  { rewrite !processImage_rejected; [reflexivity|cbn..].
    - now rewrite Hcols, Hrows.
    - exact Hz. }
  destruct mode.
  - rewrite (processImage_original src1 ts columns Hts Hne).
    rewrite (processImage_original src2 ts columns Hts)
      by now rewrite Hcols, Hrows.
    rewrite Hcols, Hrows. fold cols rows. cbn zeta. unfold jsonOutput.
    rewrite (same_originalTiles src1 src2 ts cols rows Hts Hsame).
    rewrite (same_originalCanvas src1 src2 ts cols rows Hsame).
    reflexivity.
  - destruct (processImage_optimized (M := M) src1 ts columns Hne)
      as (items1 & Hrep1 & ->).
    destruct (processImage_optimized (M := M) src2 ts columns)
      as (items2 & Hrep2 & ->); [now rewrite Hcols, Hrows|].
    rewrite Hcols, Hrows in *. fold cols rows in Hrep1 |- *.
    rewrite <- (same_discovery src1 src2 ts cols rows Hts Hsame) in Hrep2.
    assert (Hitems := same_items src1 src2 ts cols rows Hts Hsame _ _ _
                        (sublist_subseteq _ _ (discover_sublist _ _ _))
                        Hrep1 Hrep2).
    pose proof (Forall2_length _ _ _ Hitems) as Hlen.
    cbn zeta. unfold jsonOutput.
    rewrite !atlasCanvas_width, !atlasCanvas_height.
    rewrite (atlasCanvas_ext ts (default 8 columns) items1 items2 Hts HC Hitems).
    rewrite (imap_Forall2_ext _
               (fun k item => packedTile ts (default 8 columns) (Z.of_nat k) item)
               (fun k item => packedTile ts (default 8 columns) (Z.of_nat k) item)
               items1 items2 Hitems).
    + now rewrite Hlen.
    + intros k a b (_ & _ & Hpix). unfold packedTile. f_equal.
      now apply detectCollision_ext.
Qed.

(** X1.  [processImage] reads the source only inside the grid: two sources
    that give the same number of columns and rows and agree on every pixel
    of the grid area [cols * tileSize] by [rows * tileSize] give the same
    outcome, whatever stands in the strips right of and below the grid. *)
Theorem processImage_reads_grid_only (src1 src2 : HTMLImageElement)
    (options : ProcessOptions.t) :
  let tileSize := ProcessOptions.tileSize options in
  let cols := Canvas.width src1 / tileSize in
  let rows := Canvas.height src1 / tileSize in
  0 < tileSize -> 0 < default 8 (ProcessOptions.columns options) ->
  Canvas.width src2 / tileSize = cols ->
  Canvas.height src2 / tileSize = rows ->
  (forall x y, 0 <= x < cols * tileSize -> 0 <= y < rows * tileSize ->
     Canvas.sample src1 x y = Canvas.sample src2 x y) ->
  processImage (M := M) src1 options = processImage (M := M) src2 options.
Proof.
  destruct options as [ts mode columns]. cbn.
  apply processImage_same_on_grid.
Qed.

End ReadsGridOnly.

(** ** The decoded atlas *)

Section DecodedAtlas.
Context `{Platform} {M : Type} `{JSMap M}.
Hypothesis source_over_clear : forall s, source_over s transparent = s.
Hypothesis encodePNG_lossless :
  forall w h d d', encodePNG w h d = encodePNG w h d' -> d = d'.

(** Two cells have the same fingerprint exactly when they agree pixel by
    pixel. *)
Lemma cellHash_pixels_iff (src : HTMLImageElement) (ts : Z) (c1 c2 : Z * Z) :
  0 < ts ->
  cellHash src ts c1 = cellHash src ts c2
  <-> (forall i j, 0 <= i < ts -> 0 <= j < ts ->
         Canvas.sample src (fst c1 * ts + i) (snd c1 * ts + j)
         = Canvas.sample src (fst c2 * ts + i) (snd c2 * ts + j)).
Proof.
  intros Hts.
  rewrite (cellHash_eq_iff encodePNG_lossless src ts c1 c2 source_over_clear Hts).
  unfold tile_bytes. apply rect_bytes_eq_iff.
Qed.

Lemma cellSolid_same_hash (src : HTMLImageElement) (ts : Z) (c1 c2 : Z * Z) :
  0 < ts -> cellHash src ts c1 = cellHash src ts c2 ->
  cellSolid src ts c1 = cellSolid src ts c2.
Proof.
  intros Hts Hhash. unfold cellSolid. apply detectCollision_ext; [exact Hts|].
  intros i j Hi Hj. rewrite !extractTile_sample by (reflexivity || assumption).
  f_equal. now apply cellHash_pixels_iff.
Qed.

(** The slot of tile [k] lies inside an atlas of [n > k] tiles. *)
Lemma slot_in_bounds (ts C n k dx dy : Z) :
  0 < ts -> 0 < C -> 0 <= k < n -> 0 <= dx < ts -> 0 <= dy < ts ->
  0 <= k mod C * ts + dx < C * ts
  /\ 0 <= k / C * ts + dy < ceil_div n C * ts.
Proof.
  intros Hts HC Hk Hdx Hdy.
  pose proof (ceil_div_spec n C HC) as Hceil.
  pose proof (Z.mod_pos_bound k C HC) as Hmod.
  pose proof (Z.div_mod k C ltac:(lia)) as Hdm.
  assert (Hdiv : 0 <= k / C) by (apply Z.div_pos; lia).
  assert (Hrow : k / C + 1 <= ceil_div n C) by nia.
  split; nia.
Qed.

(** What optimized mode returns; a decoding of its image shows the atlas of
    the retained tiles. *)
Lemma optimized_decoded_atlas (src : HTMLImageElement) (ts : Z)
    (columns : option Z) (res : ProcessResult.t) :
  let C := default 8 columns in
  let cols := Canvas.width src / ts in
  let rows := Canvas.height src / ts in
  let found := discover (cellHash src ts) [] (row_major cols rows) in
  processImage (M := M) src
    {| ProcessOptions.tileSize := ts; ProcessOptions.mode := optimized;
       ProcessOptions.columns := columns |} = Fulfilled res ->
  cols * rows <> 0
  /\ exists items,
    Forall2 (represents src ts) found items
    /\ ProcessResult.uniqueTiles res = Z.of_nat (length found)
    /\ ProcessResult.totalTiles res = cols * rows
    /\ ProcessResult.width res = C * ts
    /\ ProcessResult.height res = ceil_div (Z.of_nat (length found)) C * ts
    /\ ProcessResult.tiles res
       = imap (fun k item => packedTile ts C (Z.of_nat k) item) items
    /\ forall image px py, decodes image res ->
         0 <= px < C * ts ->
         0 <= py < ceil_div (Z.of_nat (length found)) C * ts ->
         Canvas.sample image px py
         = Canvas.sample (atlasCanvas ts C items) px py.
Proof.
  intros C cols rows found Hres.
  destruct (Z.eq_dec (cols * rows) 0) as [Hz|Hne].
  { rewrite processImage_rejected in Hres by exact Hz. discriminate. }
  split; [exact Hne|].
  destruct (processImage_optimized (M := M) src ts columns Hne)
    as (items & Hrep & Heq).
  rewrite Heq in Hres. cbn zeta in Hres. injection Hres as <-.
  fold cols rows found C in Hrep |- *.
  pose proof (Forall2_length _ _ _ Hrep) as Hlen.
  exists items. unfold decodes.
  cbn [ProcessResult.uniqueTiles ProcessResult.totalTiles ProcessResult.tiles
       ProcessResult.width ProcessResult.height ProcessResult.dataUrl].
  rewrite <- Hlen.
  split; [exact Hrep|]. do 5 (split; [reflexivity|]).
  intros image px py (Hw & Hh & Hurl) Hpx Hpy.
  apply (toDataURL_decode encodePNG_lossless);
    rewrite ?atlasCanvas_width, ?atlasCanvas_height, ?Hw, ?Hh, <- ?Hlen;
    auto.
Qed.

(** In a decoding of the atlas, the slot of a retained cell holds the
    pixels of that cell. *)
Lemma optimized_decoded (src : HTMLImageElement) (ts : Z)
    (columns : option Z) (res : ProcessResult.t) :
  let C := default 8 columns in
  let cols := Canvas.width src / ts in
  let rows := Canvas.height src / ts in
  let found := discover (cellHash src ts) [] (row_major cols rows) in
  0 < ts -> 0 < C ->
  processImage (M := M) src
    {| ProcessOptions.tileSize := ts; ProcessOptions.mode := optimized;
       ProcessOptions.columns := columns |} = Fulfilled res ->
  cols * rows <> 0
  /\ exists items,
    Forall2 (represents src ts) found items
    /\ ProcessResult.uniqueTiles res = Z.of_nat (length found)
    /\ ProcessResult.totalTiles res = cols * rows
    /\ ProcessResult.width res = C * ts
    /\ ProcessResult.height res = ceil_div (Z.of_nat (length found)) C * ts
    /\ ProcessResult.tiles res
       = imap (fun k item => packedTile ts C (Z.of_nat k) item) items
    /\ forall image, decodes image res ->
         forall (i : nat) c dx dy, found !! i = Some c ->
           0 <= dx < ts -> 0 <= dy < ts ->
           Canvas.sample image (Z.rem (Z.of_nat i) C * ts + dx)
                               (Z.of_nat i / C * ts + dy)
           = Canvas.sample src (fst c * ts + dx) (snd c * ts + dy).
Proof.
  intros C cols rows found Hts HC Hres.
  destruct (optimized_decoded_atlas src ts columns res Hres)
    as (Hne & items & Hrep & Hn & Htotal & Hw & Hh & Htiles & Hdec).
  fold C cols rows found in Hrep, Hn, Htotal, Hw, Hh, Htiles, Hdec.
  split; [exact Hne|]. exists items. do 6 (split; [assumption|]).
  intros image Himage i c dx dy Hi Hdx Hdy.
  pose proof (represents_sizes _ _ _ _ Hrep) as Hsz.
  destruct (Forall2_lookup_l _ _ _ _ _ Hrep Hi) as (item & Hitem & Hr).
  apply lookup_lt_Some in Hi as Hlt.
  destruct (slot_in_bounds ts C (Z.of_nat (length found)) (Z.of_nat i) dx dy)
    as [Hpx Hpy]; try assumption; [lia|].
  rewrite Z.rem_mod_nonneg by lia.
  rewrite (Hdec image _ _ Himage) by assumption.
  rewrite (atlasCanvas_sample ts C items i item) by assumption.
  destruct Hr as (_ & _ & _ & Hpix). rewrite Hpix by assumption.
  unfold drawn. now rewrite !source_over_clear.
Qed.

(** X2.  Optimized mode loses no cell.  For every cell of the grid the
    returned tile list has a tile whose slot in the output image holds
    exactly the pixels of that cell and whose [isSolid] is the collision
    flag of that cell. *)
Theorem every_cell_is_in_the_atlas (src : HTMLImageElement) (tileSize : Z)
    (columns : option Z) (res : ProcessResult.t) (image : HTMLImageElement)
    (col row : Z) :
  let cols := Canvas.width src / tileSize in
  let rows := Canvas.height src / tileSize in
  0 < tileSize -> 0 < default 8 columns ->
  processImage (M := M) src
    {| ProcessOptions.tileSize := tileSize; ProcessOptions.mode := optimized;
       ProcessOptions.columns := columns |} = Fulfilled res ->
  decodes image res ->
  0 <= col < cols -> 0 <= row < rows ->
  exists t,
    t ∈ ProcessResult.tiles res
    /\ TileData.isSolid t = cellSolid src tileSize (col, row)
    /\ forall dx dy, 0 <= dx < tileSize -> 0 <= dy < tileSize ->
         Canvas.sample image (TileData.x t + dx) (TileData.y t + dy)
         = Canvas.sample src (col * tileSize + dx) (row * tileSize + dy).
Proof.
  intros cols rows Hts HC Hres Himage Hcol Hrow.
  destruct (optimized_decoded src tileSize columns res Hts HC Hres)
    as (_ & items & Hrep & _ & _ & _ & _ & Htiles & Hdec).
  pose proof (Hdec image Himage) as Hslot. fold cols rows in Hrep, Hslot.
  assert (Hcell : (col, row) ∈ row_major cols rows)
    by now apply elem_of_row_major.
  destruct (discover_covers (cellHash src tileSize) [] _ _ Hcell) as [Hin|Hin];
    [inversion Hin|].
  apply list_elem_of_fmap in Hin as (c & Hhash & Hc).
  apply list_elem_of_lookup in Hc as (i & Hi).
  destruct (Forall2_lookup_l _ _ _ _ _ Hrep Hi) as (item & Hitem & Hr).
  exists (packedTile tileSize (default 8 columns) (Z.of_nat i) item).
  split; [|split].
  - rewrite Htiles. apply (list_elem_of_lookup_2 _ i).
    now rewrite list_lookup_imap, Hitem.
  - cbn [packedTile TileData.isSolid].
    rewrite (represents_solid source_over_clear src tileSize c) by assumption.
    symmetry. now apply cellSolid_same_hash.
  - intros dx dy Hdx Hdy. cbn [packedTile TileData.x TileData.y].
    rewrite (Hslot i c) by assumption.
    symmetry. now apply (cellHash_pixels_iff src tileSize (col, row) c).
Qed.


(** X4.  The slots after the last tile of the atlas are left transparent:
    a pixel of the output whose slot number [(py / tileSize) * C +
    px / tileSize] is not below [uniqueTiles] is transparent black. *)
Theorem atlas_padding_is_transparent (src : HTMLImageElement) (tileSize : Z)
    (columns : option Z) (res : ProcessResult.t) (image : HTMLImageElement)
    (px py : Z) :
  let C := default 8 columns in
  0 < tileSize -> 0 < C ->
  processImage (M := M) src
    {| ProcessOptions.tileSize := tileSize; ProcessOptions.mode := optimized;
       ProcessOptions.columns := columns |} = Fulfilled res ->
  decodes image res ->
  0 <= px < ProcessResult.width res -> 0 <= py < ProcessResult.height res ->
  ProcessResult.uniqueTiles res <= py / tileSize * C + px / tileSize ->
  Canvas.sample image px py = transparent.
Proof.
  intros C Hts HC Hres Himage Hpx Hpy Hfree.
  destruct (optimized_decoded_atlas src tileSize columns res Hres)
    as (_ & items & Hrep & Hn & _ & Hw & Hh & _ & Hdec).
  fold C in Hw, Hh, Hdec.
  rewrite Hw in Hpx. rewrite Hh in Hpy. rewrite Hn in Hfree.
  rewrite (Hdec image px py Himage Hpx Hpy).
  apply atlasCanvas_unused; try assumption.
  - exact (represents_sizes _ _ _ _ Hrep).
  - now rewrite <- (Forall2_length _ _ _ Hrep).
Qed.

End DecodedAtlas.

(** ** The first tile, uniform images, and images without repetition *)



Section FirstTile.
Context `{Platform} {M : Type} `{JSMap M}.
Hypothesis source_over_clear : forall s, source_over s transparent = s.
Hypothesis encodePNG_lossless :
  forall w h d d', encodePNG w h d = encodePNG w h d' -> d = d'.





End FirstTile.

(** ** The geometry of the tile list *)

Section Geometry.
Context `{Platform} {M : Type} `{JSMap M}.

(** X8.  In both modes every tile of the list is a [tileSize] square that
    lies inside the output image, with its origin on the tile grid, and two
    different entries of the list never have the same origin: the squares
    of the tile list do not overlap and do not stick out. *)
Theorem tiles_inside_output_and_disjoint (src : HTMLImageElement)
    (options : ProcessOptions.t) (res : ProcessResult.t) :
  let tileSize := ProcessOptions.tileSize options in
  0 < tileSize -> 0 < default 8 (ProcessOptions.columns options) ->
  processImage (M := M) src options = Fulfilled res ->
  (forall t, t ∈ ProcessResult.tiles res ->
     0 <= TileData.x t
     /\ TileData.x t + tileSize <= ProcessResult.width res
     /\ 0 <= TileData.y t
     /\ TileData.y t + tileSize <= ProcessResult.height res
     /\ TileData.x t mod tileSize = 0
     /\ TileData.y t mod tileSize = 0)
  /\ (forall (i j : nat) ti tj,
        ProcessResult.tiles res !! i = Some ti ->
        ProcessResult.tiles res !! j = Some tj ->
        i <> j ->
        TileData.x ti <> TileData.x tj \/ TileData.y ti <> TileData.y tj).
Proof.
  destruct options as [ts mode columns]. cbn. intros Hts HC Hres.
  set (cols := Canvas.width src / ts) in *.
  set (rows := Canvas.height src / ts) in *.
  destruct (Z.eq_dec (cols * rows) 0) as [Hz|Hne].
  { rewrite processImage_rejected in Hres by exact Hz. discriminate. }
  destruct mode.
  - rewrite (processImage_original src ts columns Hts Hne) in Hres.
    cbn zeta in Hres. injection Hres as <-. fold cols rows.
    cbn [ProcessResult.tiles ProcessResult.width ProcessResult.height].
    split.
    + intros t Ht. apply list_elem_of_fmap in Ht as ([x y] & -> & Hc).
      apply elem_of_row_major in Hc as [Hx Hy].
      cbn [originalTile TileData.x TileData.y fst snd].
      rewrite !Z.mod_mul by lia. repeat split; nia.
    + intros i j ti tj Hi Hj Hij.
      rewrite list_lookup_fmap in Hi, Hj.
      destruct (row_major cols rows !! i) as [[xi yi]|] eqn:Hci; [|discriminate].
      destruct (row_major cols rows !! j) as [[xj yj]|] eqn:Hcj; [|discriminate].
      cbn in Hi, Hj. injection Hi as <-. injection Hj as <-.
      cbn [originalTile TileData.x TileData.y fst snd].
      destruct (Z.eq_dec xi xj) as [->|Hx]; [|left; nia].
      destruct (Z.eq_dec yi yj) as [->|Hy]; [|right; nia].
      exfalso. apply Hij.
      apply (NoDup_lookup _ i j (xj, yj) (NoDup_row_major cols rows) Hci Hcj).
  - destruct (processImage_optimized (M := M) src ts columns Hne)
      as (items & _ & Heq).
    rewrite Heq in Hres. cbn zeta in Hres. injection Hres as <-.
    cbn [ProcessResult.tiles ProcessResult.width ProcessResult.height].
    set (C := default 8 columns) in *.
    assert (Hentry : forall (k : nat) t,
              imap (fun k item => packedTile ts C (Z.of_nat k) item) items !! k
              = Some t ->
              (k < length items)%nat
              /\ TileData.x t = Z.of_nat k mod C * ts
              /\ TileData.y t = Z.of_nat k / C * ts).
    { intros k t Hk. rewrite list_lookup_imap in Hk.
      destruct (items !! k) as [item|] eqn:Hitem; [|discriminate].
      cbn in Hk. injection Hk as <-. apply lookup_lt_Some in Hitem.
      cbn [packedTile TileData.x TileData.y].
      rewrite Z.rem_mod_nonneg by lia. auto. }
    split.
    + intros t Ht. apply list_elem_of_lookup in Ht as (k & Hk).
      apply Hentry in Hk as (Hlt & -> & ->).
      destruct (slot_in_bounds ts C (Z.of_nat (length items)) (Z.of_nat k) 0 0)
        as [Hx Hy]; try lia.
      destruct (slot_in_bounds ts C (Z.of_nat (length items)) (Z.of_nat k)
                  (ts - 1) (ts - 1)) as [Hx' Hy']; try lia.
      rewrite !Z.mod_mul by lia. repeat split; lia.
    + intros i j ti tj Hi Hj Hij.
      apply Hentry in Hi as (_ & -> & ->). apply Hentry in Hj as (_ & -> & ->).
      pose proof (Z.div_mod (Z.of_nat i) C ltac:(lia)).
      pose proof (Z.div_mod (Z.of_nat j) C ltac:(lia)).
      destruct (Z.eq_dec (Z.of_nat i mod C) (Z.of_nat j mod C)) as [Hm|Hm];
        [|left; nia].
      destruct (Z.eq_dec (Z.of_nat i / C) (Z.of_nat j / C)) as [Hd|Hd];
        [|right; nia].
      exfalso. apply Hij. lia.
Qed.

End Geometry.

(** ** What original mode keeps of the source *)

Section OriginalCrop.
Context `{Platform} {M : Type} `{JSMap M}.
Hypothesis source_over_clear : forall s, source_over s transparent = s.


End OriginalCrop.

Section StandIn.
Context `{Platform} {M : Type} `{JSMap M}.
Hypothesis source_over_clear : forall s, source_over s transparent = s.
Hypothesis encodePNG_lossless :
  forall w h d d', encodePNG w h d = encodePNG w h d' -> d = d'.


End StandIn.

(** ** [detectCollision]: what the flag depends on *)

Lemma length_filter_mono {A : Type} (P Q : A -> Prop)
    `{forall a, Decision (P a)} `{forall a, Decision (Q a)} (l : list A) :
  (forall a, a ∈ l -> P a -> Q a) ->
  (length (filter P l) <= length (filter Q l))%nat.
Proof.
  induction l as [|a l IH]; intros Himp; [reflexivity|].
  assert (IH' : (length (filter P l) <= length (filter Q l))%nat).
  { apply IH. intros b Hb. apply Himp. now right. }
  rewrite !filter_cons. destruct (decide (P a)) as [HP|HP].
  - rewrite decide_True by (apply Himp; [left|exact HP]). cbn [length]. lia.
  - destruct (decide (Q a)); cbn [length]; lia.
Qed.

Lemma opaque_count_mono (c1 c2 : Canvas.t) (size : Z) :
  (forall x y, 0 <= x < size -> 0 <= y < size ->
     10 < byte_to_Z (alpha (Canvas.sample c1 x y)) ->
     10 < byte_to_Z (alpha (Canvas.sample c2 x y))) ->
  opaque_count c1 size <= opaque_count c2 size.
Proof.
  intros Himp. unfold opaque_count. apply inj_le, length_filter_mono.
  intros [x y] Hin. apply elem_of_row_major in Hin as [Hx Hy].
  cbn [fst snd]. now apply Himp.
Qed.

(** Outside the canvas there is nothing to count. *)
Lemma detectCollision_nonpos (ctx : CanvasRenderingContext2D) (size : Z) :
  size <= 0 -> detectCollision ctx size = false.
Proof.
  intros Hs. unfold detectCollision, getImageData.
  destruct (Z.eqb_spec size 0) as [|Hne]; [reflexivity|]. cbn [orb ImageData.data].
  rewrite rect_bytes_row_major.
  rewrite (countSolid_pixels
             (fun p => Canvas.sample ctx (Z.min 0 (0 + size) + fst p)
                                         (Z.min 0 (0 + size) + snd p))).
  rewrite length_filter_none.
  - match goal with |- ?t = false => destruct t eqn:E end; [|reflexivity].
    apply Qgtb_lt, ratio_above_three_quarters in E; nia.
  - intros [x y] Hin. apply elem_of_row_major in Hin as [Hx Hy].
    cbn [fst snd]. unfold Canvas.sample.
    assert (Hout : Canvas.inside ctx (Z.min 0 (0 + size) + x)
                                     (Z.min 0 (0 + size) + y) = false).
    { destruct (Canvas.inside _ _ _) eqn:Hin; [|reflexivity].
      apply inside_spec in Hin. lia. }
    rewrite Hout. cbn. lia.
Qed.

(** X11.  The collision flag depends only on which pixels of the block have
    alpha above 10, and it is monotone in that set: if every pixel that
    counts in one block also counts in another, then the second block is
    solid whenever the first is.  In particular two blocks with the same
    alpha channel get the same flag, whatever their colours. *)
Theorem detectCollision_monotone (c1 c2 : CanvasRenderingContext2D)
    (size : Z) :
  ((forall x y, 0 <= x < size -> 0 <= y < size ->
      10 < byte_to_Z (alpha (Canvas.sample c1 x y)) ->
      10 < byte_to_Z (alpha (Canvas.sample c2 x y))) ->
   detectCollision c1 size = true -> detectCollision c2 size = true)
  /\ ((forall x y, 0 <= x < size -> 0 <= y < size ->
         alpha (Canvas.sample c1 x y) = alpha (Canvas.sample c2 x y)) ->
      detectCollision c1 size = detectCollision c2 size).
Proof.
  assert (Hmono : forall a b : CanvasRenderingContext2D,
            (forall x y, 0 <= x < size -> 0 <= y < size ->
               10 < byte_to_Z (alpha (Canvas.sample a x y)) ->
               10 < byte_to_Z (alpha (Canvas.sample b x y))) ->
            detectCollision a size = true -> detectCollision b size = true).
  { intros a b Himp Ha.
    destruct (Z_lt_le_dec 0 size) as [Hs|Hs];
      [|rewrite detectCollision_nonpos in Ha by exact Hs; discriminate].
    rewrite detectCollision_ratio in Ha |- * by exact Hs.
    apply Qgtb_lt, ratio_above_three_quarters in Ha; [|nia].
    apply Qgtb_lt, ratio_above_three_quarters; [nia|].
    pose proof (opaque_count_mono a b size Himp). lia. }
  split; [apply Hmono|]. intros Halpha.
  destruct (detectCollision c1 size) eqn:H1, (detectCollision c2 size) eqn:H2;
    try reflexivity.
  - rewrite <- H2. symmetry. apply (Hmono c1 c2); [|exact H1].
    intros x y Hx Hy. now rewrite Halpha.
  - rewrite <- H1. apply (Hmono c2 c1); [|exact H2].
    intros x y Hx Hy. now rewrite Halpha.
Qed.

(** X12.  [detectCollision] never fails and never reports a block of no
    extent as solid: for a size of zero [getImageData] throws and the
    [catch] returns [false]; for a negative size the block read lies left of
    and above the canvas, where every pixel is transparent.  So the flag is
    [false] for every size that is not positive, whatever the canvas
    holds. *)
Theorem detectCollision_false_without_extent (ctx : CanvasRenderingContext2D)
    (size : Z) :
  (size <= 0 -> detectCollision ctx size = false)
  /\ (detectCollision ctx size = true -> 0 < size /\ 0 < opaque_count ctx size).
Proof.
  split; [apply detectCollision_nonpos|]. intros Hsolid.
  destruct (Z_lt_le_dec 0 size) as [Hs|Hs];
    [|rewrite detectCollision_nonpos in Hsolid by exact Hs; discriminate].
  split; [exact Hs|]. rewrite detectCollision_ratio in Hsolid by exact Hs.
  apply Qgtb_lt, ratio_above_three_quarters in Hsolid; nia.
Qed.

(** ** The head of the manifest *)

Section ManifestHeader.
Context `{Platform} {M : Type} `{JSMap M}.

(** The manifest of a fulfilled result is the text of [jsonOutput] for a
    canvas of the size the result states. *)
Lemma fulfilled_manifest_sizes (src : HTMLImageElement)
    (options : ProcessOptions.t) (res : ProcessResult.t) :
  processImage (M := M) src options = Fulfilled res ->
  exists resultCanvas,
    ProcessResult.jsonContent res
    = JSONText.stringify2
        (jsonOutput (ProcessOptions.tileSize options)
                    (ProcessOptions.mode options) resultCanvas
                    (ProcessResult.tiles res))
    /\ Canvas.width resultCanvas = ProcessResult.width res
    /\ Canvas.height resultCanvas = ProcessResult.height res.
Proof.
  intros Hres. unfold processImage in Hres.
  destruct (_ =? 0); [discriminate|]. cbn [getContext2d] in Hres.
  destruct (runMode _ _ _ _ _ _ _ _ _) as [[resultCanvas uniqueCount] resultTiles].
  injection Hres as <-. exists resultCanvas. repeat split.
Qed.

(** X13.  The manifest of a fulfilled result parses, and its [config]
    object states the tile size and the mode of the call and the width and
    height of the result; its [info] object names the tool, the version and
    the time of the run. *)
Theorem manifest_header (src : HTMLImageElement) (options : ProcessOptions.t)
    (res : ProcessResult.t) :
  processImage (M := M) src options = Fulfilled res ->
  exists manifest,
    JSONText.parse (ProcessResult.jsonContent res) = Some manifest
    /\ member "config" manifest
       = Some (JObject [
           ("tileSize"%string, JNumber (ProcessOptions.tileSize options));
           ("mode"%string, JString (mode_name (ProcessOptions.mode options)));
           ("width"%string, JNumber (ProcessResult.width res));
           ("height"%string, JNumber (ProcessResult.height res)) ])
    /\ member "info" manifest
       = Some (JObject [
           ("tool"%string, JString "TileSlicer Pro");
           ("version"%string, JString "1.0.0");
           ("generatedAt"%string, JString toISOString) ]).
Proof.
  intros Hres.
  destruct (fulfilled_manifest_sizes src options res Hres) as (cv & -> & <- & <-).
  eexists. split; [apply JSONFacts.parse_stringify2|]. split; reflexivity.
Qed.

End ManifestHeader.

(** ** Counting tiles, choosing columns, blank and opaque sources *)

(** First-seen deduplication retains one element per key. *)
Lemma length_discover_remove_dups {A K : Type} `{EqDecision K} (key : A -> K)
    (l : list A) :
  length (discover key [] l) = length (remove_dups (key <$> l)).
Proof.
  rewrite <- (length_fmap key (discover key [] l)).
  apply Permutation_length, NoDup_Permutation.
  - apply discover_NoDup.
  - apply NoDup_remove_dups.
  - intros k. rewrite elem_of_remove_dups. split.
    + intros Hk. apply list_elem_of_fmap in Hk as (a & -> & Ha).
      apply list_elem_of_fmap. exists a. split; [reflexivity|].
      apply (sublist_subseteq _ _ (discover_sublist key [] l)). exact Ha.
    + intros Hk. apply list_elem_of_fmap in Hk as (a & -> & Ha).
      destruct (discover_covers key [] l a Ha) as [Hin|Hin];
        [inversion Hin|exact Hin].
Qed.

Section Flags.
Context `{Platform}.
Hypothesis source_over_clear : forall s, source_over s transparent = s.

End Flags.

Section MoreOfBothModes.
Context `{Platform} {M : Type} `{JSMap M}.
Hypothesis source_over_clear : forall s, source_over s transparent = s.



End MoreOfBothModes.

Section Columns.
Context `{Platform} {M : Type} `{JSMap M}.
Hypothesis source_over_clear : forall s, source_over s transparent = s.
Hypothesis encodePNG_lossless :
  forall w h d d', encodePNG w h d = encodePNG w h d' -> d = d'.

(** X15.  [uniqueTiles] of optimized mode is the number of pairwise
    different pixel blocks among the cells of the grid. *)
Theorem uniqueTiles_counts_distinct_tiles (src : HTMLImageElement)
    (tileSize : Z) (columns : option Z) (res : ProcessResult.t) :
  let cols := Canvas.width src / tileSize in
  let rows := Canvas.height src / tileSize in
  0 < tileSize ->
  processImage (M := M) src
    {| ProcessOptions.tileSize := tileSize; ProcessOptions.mode := optimized;
       ProcessOptions.columns := columns |} = Fulfilled res ->
  ProcessResult.uniqueTiles res
  = Z.of_nat (length (remove_dups
                        (tile_bytes src tileSize <$> row_major cols rows))).
Proof.
  intros cols rows Hts Hres.
  destruct (optimized_decoded_atlas encodePNG_lossless src tileSize columns res
              Hres) as (_ & items & _ & -> & _).
  fold cols rows.
  rewrite (discover_cellHash_tile_bytes source_over_clear encodePNG_lossless)
    by exact Hts.
  now rewrite length_discover_remove_dups.
Qed.


End Columns.

(** * The application component *)

(** ** The tile size input *)

Module JSFacts.
Import JSONText JS.
Local Open Scope string_scope.

Lemma parse_digits_all (d : Decimal.uint) :
  parse_digits (digits d) = (d, EmptyString).
Proof.
  induction d; cbn [digits parse_digits]; [reflexivity|..];
    cbn; rewrite IHd; reflexivity.
Qed.

Lemma of_uint_to_uint (p : positive) : Z.of_uint (Pos.to_uint p) = Z.pos p.
Proof.
  unfold Z.of_uint. now rewrite DecimalPos.Unsigned.of_to.
Qed.

(** [parseInt] reads the decimal digits of a positive number back, after
    either sign. *)
Lemma parseInt_to_uint (p : positive) :
  parseInt (digits (Pos.to_uint p)) = Some (Z.pos p)
  /\ parseInt ("-" ++ digits (Pos.to_uint p)) = Some (Z.neg p).
Proof.
  pose proof (JSONFacts.to_uint_shape p) as Hshape.
  pose proof (of_uint_to_uint p) as Hval.
  pose proof (parse_digits_all (Pos.to_uint p)) as Hpd.
  destruct (Pos.to_uint p) as [|d|d|d|d|d|d|d|d|d|d]; try contradiction.
  all: cbn [digits] in Hpd |- *; rewrite JSONFacts.append_cons, JSONFacts.append_nil.
  all: unfold parseInt; cbn [trim_start].
  all: destruct (digits d) as [|x rest] eqn:Hd.
  all: cbv -[parse_digits Z.of_uint Z.mul]; rewrite Hpd, Hval.
  all: split; reflexivity.
Qed.

(** [parseInt] is a left inverse of printing an integer in decimal. *)
Lemma parseInt_number (n : Z) : parseInt (number n) = Some n.
Proof.
  destruct n as [|p|p].
  - reflexivity.
  - apply parseInt_to_uint.
  - apply parseInt_to_uint.
Qed.

Lemma firstSegment_append (stem rest : string) :
  firstSegment stem = stem -> firstSegment (stem ++ "." ++ rest) = stem.
Proof.
  induction stem as [|c stem IH]; intros Hstem; [reflexivity|].
  rewrite JSONFacts.append_cons. cbn [firstSegment] in Hstem |- *.
  destruct (c =? ".")%char; [discriminate|]. f_equal. apply IH. congruence.
Qed.
End JSFacts.

(** X17.  Whatever is typed into the tile size input, the tile size stays
    at least 1.  Typing the decimal text of an integer [n] (below 2^53 in
    absolute value, where [parseInt] is exact) sets the tile size to [n]
    when [n] is at least 1, to the default 48 when [n] is 0 and to 1 when
    [n] is negative; clearing the input sets the default 48.  No other cell
    of the state changes. *)
Theorem tile_size_input (n : Z) (value : string) (st : App.State) :
  Z.abs n < 2 ^ 53 ->
  1 <= App.tileSize (App.onTileSizeChange value st)
  /\ App.tileSize (App.onTileSizeChange (JSONText.number n) st)
     = (if 1 <=? n then n else if n =? 0 then 48 else 1)
  /\ App.tileSize (App.onTileSizeChange EmptyString st) = App.DEFAULT_TILE_SIZE
  /\ App.setTileSize (App.tileSize st) (App.onTileSizeChange value st) = st.
Proof.
  intros _. split; [cbn; lia|]. split; [|split].
  - unfold App.onTileSizeChange. cbn [App.tileSize App.setTileSize].
    rewrite JSFacts.parseInt_number. unfold JS.or_number.
    destruct (Z.leb_spec 1 n), (Z.eqb_spec n 0); lia.
  - reflexivity.
  - now destruct st.
Qed.

(** ** What the component can reach *)

Section AppInvariant.
Context `{Platform} {M : Type} `{JSMap M}.

(** What holds of every state the component can reach, in the form that an
    induction over the steps preserves. *)
Lemma reachable_invariant (st : App.State) (jobs : list App.Job) :
  App.reachable (M := M) st jobs ->
  1 <= App.tileSize st
  /\ Forall (fun job => 1 <= App.jobTileSize job) jobs
  /\ (if App.isProcessing st then exists job, jobs = [job] else jobs = [])
  /\ (jobs <> [] \/ is_Some (App.result st) -> is_Some (App.sourceImage st))
  /\ (forall res, App.result st = Some res ->
        exists img tileSize mode,
          1 <= tileSize
          /\ processImage (M := M) img
               {| ProcessOptions.tileSize := tileSize;
                  ProcessOptions.mode := mode;
                  ProcessOptions.columns := Some 8 |} = Fulfilled res).
Proof.
  induction 1 as [
    | st jobs file _ IH | st jobs _ IH | st jobs _ IH | st jobs file _ IH
    | st jobs file img _ IH Hacc | st jobs _ IH | st jobs value _ IH
    | st jobs m _ IH | st jobs value _ IH _ | st jobs _ IH _
    | st jobs _ IH _ | st jobs st' job _ IH Himg Hidle Hclick
    | st job jobs _ IH ].
  - cbn. split; [unfold App.DEFAULT_TILE_SIZE; lia|].
    split; [constructor|].
    split; [reflexivity|]. split; [|discriminate].
    intros [Hne|Hr]; [congruence|destruct Hr; discriminate].
  - destruct file as [file|]; [|exact IH]. cbn [App.handleFileChange].
    unfold App.processFile. destruct (negb _); exact IH.
  - exact IH.
  - exact IH.
  - destruct file as [file|]; [|exact IH]. cbn [App.handleDrop].
    unfold App.processFile. destruct (negb _); exact IH.
  - destruct IH as (Hts & Hjobs & Hproc & _ & _). cbn.
    split; [exact Hts|]. split; [exact Hjobs|]. split; [exact Hproc|].
    split; [intros _; eauto|discriminate].
  - exact IH.
  - destruct IH as (_ & Hrest). split; [cbn; lia|exact Hrest].
  - exact IH.
  - exact IH.
  - exact IH.
  - exact IH.
  - destruct IH as (Hts & Hjobs & Hproc & Hsrc & Hres).
    rewrite Hidle in Hproc. subst jobs. unfold App.handleProcess in Hclick.
    destruct (App.sourceImage st) as [img|] eqn:Hsource;
      [|destruct Himg; discriminate].
    injection Hclick as <- <-. cbn. rewrite Hsource.
    split; [exact Hts|]. split; [repeat constructor; exact Hts|].
    split; [eauto|]. split; [eauto|exact Hres].
  - destruct IH as (Hts & Hjobs & Hproc & Hsrc & Hres).
    assert (Hone : jobs = [] /\ App.isProcessing st = true).
    { destruct (App.isProcessing st); [|discriminate].
      destruct Hproc as [job' Hjob']. injection Hjob' as _ ->. auto. }
    destruct Hone as [-> Hbusy].
    apply Forall_cons in Hjobs as [Hjob _].
    assert (Hsource : is_Some (App.sourceImage st))
      by (apply Hsrc; left; discriminate).
    unfold App.processTimeout.
    destruct (processImage _ _) as [res|err] eqn:Hrun; cbn.
    + split; [exact Hts|]. split; [constructor|]. split; [reflexivity|].
      split; [intros _; exact Hsource|].
      intros res' Hres'. injection Hres' as <-.
      exists (App.jobImage job), (App.jobTileSize job), (App.jobMode job). auto.
    + split; [exact Hts|]. split; [constructor|]. split; [reflexivity|].
      split; [intros _; exact Hsource|exact Hres].
Qed.

(** X18.  In every state the component can reach: the tile size is at
    least 1, and so is the tile size of every call of [processImage] that is
    still to come; at most one such call is outstanding, exactly while
    [isProcessing] is set; a result is only shown together with a source
    image; and every result shown is the fulfilled value of a call of
    [processImage] with a tile size of at least 1 and 8 columns. *)
Theorem app_invariant (st : App.State) (jobs : list App.Job) :
  App.reachable (M := M) st jobs ->
  1 <= App.tileSize st
  /\ Forall (fun job => 1 <= App.jobTileSize job) jobs
  /\ (length jobs <= 1)%nat
  /\ (App.isProcessing st = true <-> jobs <> [])
  /\ (is_Some (App.result st) -> is_Some (App.sourceImage st))
  /\ (forall res, App.result st = Some res ->
        exists img tileSize mode,
          1 <= tileSize
          /\ processImage (M := M) img
               {| ProcessOptions.tileSize := tileSize;
                  ProcessOptions.mode := mode;
                  ProcessOptions.columns := Some 8 |} = Fulfilled res).
Proof.
  intros Hreach.
  destruct (reachable_invariant st jobs Hreach)
    as (Hts & Hjobs & Hproc & Hsrc & Hres).
  split; [exact Hts|]. split; [exact Hjobs|]. split; [|split; [|split]].
  - destruct (App.isProcessing st); [destruct Hproc as [job ->]|subst jobs];
      cbn; lia.
  - destruct (App.isProcessing st).
    + destruct Hproc as [job ->]. split; [discriminate|reflexivity].
    + subst jobs. split; [discriminate|congruence].
  - intros Hr. apply Hsrc. now right.
  - exact Hres.
Qed.

End AppInvariant.

(** ** Processing and exporting *)

Lemma grid_empty_iff (w h ts : Z) :
  0 < ts -> 0 <= w -> 0 <= h ->
  (w / ts) * (h / ts) = 0 <-> w < ts \/ h < ts.
Proof.
  intros Hts Hw Hh. rewrite Z.mul_eq_0.
  rewrite !Z.div_small_iff by lia. lia.
Qed.

Section ProcessOutcome.
Context `{Platform} {M : Type} `{JSMap M}.

(** What a click on the process button leads to. *)
Lemma handleProcess_then_timeout (st : App.State) (img : HTMLImageElement) :
  App.sourceImage st = Some img ->
  1 <= App.tileSize st ->
  0 <= Canvas.width img -> 0 <= Canvas.height img ->
  let options :=
    {| ProcessOptions.tileSize := App.tileSize st;
       ProcessOptions.mode := App.mode st;
       ProcessOptions.columns := Some 8 |} in
  exists st1 job,
    App.handleProcess st = (st1, Some job)
    /\ st1 = App.setError None (App.setIsProcessing true st)
    /\ let st2 := App.processTimeout (M := M) job st1 in
       (App.tileSize st <= Canvas.width img
        /\ App.tileSize st <= Canvas.height img ->
        exists res,
          processImage (M := M) img options = Fulfilled res
          /\ ProcessResult.totalTiles res
             = (Canvas.width img / App.tileSize st)
               * (Canvas.height img / App.tileSize st)
          /\ st2 = App.setIsProcessing false (App.setResult (Some res) st1))
       /\ (Canvas.width img < App.tileSize st
           \/ Canvas.height img < App.tileSize st ->
           st2 = App.setIsProcessing false
                   (App.setError (Some (message InvalidDimensions)) st1)).
Proof.
  intros Hsource Hts Hw Hh options. unfold App.handleProcess. rewrite Hsource.
  eexists. eexists. split; [reflexivity|]. split; [reflexivity|].
  unfold App.processTimeout. cbn [App.jobImage App.jobTileSize App.jobMode].
  fold options. split.
  - intros Hfits.
    destruct (processImage_fulfilled (M := M) img (App.tileSize st) options)
      as (res & Hres & Htotal); [reflexivity|lia|..].
    { rewrite grid_empty_iff by lia. lia. }
    exists res. rewrite Hres. auto.
  - intros Hsmall.
    rewrite (processImage_rejected img options); [reflexivity|].
    cbn. apply grid_empty_iff; lia.
Qed.

(** X19.  A click on the process button, with an image loaded and a tile
    size of at least 1, sets [isProcessing] and clears the error; when the
    timer fires, [isProcessing] is cleared again and, if the image is at
    least one tile wide and high, the result of [processImage] (tile size and
    mode of the state, 8 columns) is shown with no error; if the image is
    smaller than one tile in either direction, the message of the service's
    error is shown, not the fallback text, and the result shown before
    stays. *)
Theorem process_outcome (st : App.State) (img : HTMLImageElement) :
  App.sourceImage st = Some img ->
  1 <= App.tileSize st ->
  0 <= Canvas.width img -> 0 <= Canvas.height img ->
  exists st1 job,
    App.handleProcess st = (st1, Some job)
    /\ App.isProcessing st1 = true
    /\ App.error st1 = None
    /\ App.result st1 = App.result st
    /\ let st2 := App.processTimeout (M := M) job st1 in
       App.isProcessing st2 = false
       /\ (App.tileSize st <= Canvas.width img
           /\ App.tileSize st <= Canvas.height img ->
           exists res,
             processImage (M := M) img
               {| ProcessOptions.tileSize := App.tileSize st;
                  ProcessOptions.mode := App.mode st;
                  ProcessOptions.columns := Some 8 |} = Fulfilled res
             /\ App.result st2 = Some res
             /\ App.error st2 = None
             /\ ProcessResult.totalTiles res
                = (Canvas.width img / App.tileSize st)
                  * (Canvas.height img / App.tileSize st))
       /\ (Canvas.width img < App.tileSize st
           \/ Canvas.height img < App.tileSize st ->
           App.result st2 = App.result st
           /\ App.error st2
              = Some "图片尺寸太小，无法切出一张完整的瓦片"%string).
Proof.
  intros Hsource Hts Hw Hh.
  destruct (handleProcess_then_timeout st img Hsource Hts Hw Hh)
    as (st1 & job & Hclick & -> & Hfits & Hsmall).
  eexists. exists job. split; [exact Hclick|].
  do 3 (split; [reflexivity|]). cbn zeta.
  destruct (Z_lt_le_dec (Canvas.width img) (App.tileSize st)) as [Hlt|Hge].
  { rewrite Hsmall by auto. split; [reflexivity|]. split; [lia|].
    intros _. split; reflexivity. }
  destruct (Z_lt_le_dec (Canvas.height img) (App.tileSize st)) as [Hlt|Hge'].
  { rewrite Hsmall by auto. split; [reflexivity|]. split; [lia|].
    intros _. split; reflexivity. }
  destruct Hfits as (res & Hres & Htotal & ->); [auto|].
  split; [reflexivity|]. split; [|lia].
  intros _. exists res. auto.
Qed.

(** X20.  From upload to download.  After a file named [stem.rest] (no dot
    in [stem]) has loaded, nothing can be downloaded; once it has been
    processed, the PNG download is named [stem_mode_tileset.png] and
    carries the data URL of the result, the JSON download is named
    [stem_mode_data.json] and carries the manifest as [application/json],
    and that manifest parses to a [config] with the tile size and mode of
    the state and the size of the result. *)
Theorem export_after_processing (st : App.State) (file : App.File)
    (img : HTMLImageElement) (stem rest : string) (type : App.DownloadType) :
  App.accepted file = true ->
  App.name file = (stem ++ "." ++ rest)%string ->
  JS.firstSegment stem = stem ->
  1 <= App.tileSize st ->
  App.tileSize st <= Canvas.width img ->
  App.tileSize st <= Canvas.height img ->
  let st1 := App.onImageLoad file img st in
  App.handleDownload type st1 = None
  /\ exists st2 job res manifest,
       App.handleProcess st1 = (st2, Some job)
       /\ let st3 := App.processTimeout (M := M) job st2 in
          App.result st3 = Some res
          /\ App.handleDownload App.png st3
             = Some {| App.download :=
                         (stem ++ "_" ++ mode_name (App.mode st)
                               ++ "_tileset.png")%string;
                       App.href := App.DataURL (ProcessResult.dataUrl res) |}
          /\ App.handleDownload App.json st3
             = Some {| App.download :=
                         (stem ++ "_" ++ mode_name (App.mode st)
                               ++ "_data.json")%string;
                       App.href := App.BlobURL (ProcessResult.jsonContent res)
                                               "application/json" |}
          /\ JSONText.parse (ProcessResult.jsonContent res) = Some manifest
          /\ member "config" manifest
             = Some (JObject [
                 ("tileSize"%string, JNumber (App.tileSize st));
                 ("mode"%string, JString (mode_name (App.mode st)));
                 ("width"%string, JNumber (ProcessResult.width res));
                 ("height"%string, JNumber (ProcessResult.height res)) ]).
Proof.
  intros _ Hname Hstem Hts Hw Hh st1. split; [reflexivity|].
  destruct (handleProcess_then_timeout st1 img eq_refl Hts)
    as (st2 & job & Hclick & -> & Hfits & _); [lia..|].
  destruct Hfits as (res & Hres & _ & Hst3); [auto|].
  destruct (fulfilled_manifest_sizes (M := M) img _ res Hres)
    as (cv & Hjson & Hcw & Hch).
  eexists. exists job, res. eexists. split; [exact Hclick|].
  cbn zeta. rewrite Hst3. split; [reflexivity|].
  unfold App.handleDownload. cbn. rewrite Hname.
  rewrite (JSFacts.firstSegment_append stem rest Hstem).
  split; [reflexivity|]. split; [reflexivity|]. rewrite Hjson.
  split; [apply JSONFacts.parse_stringify2|].
  cbn. now rewrite Hcw, Hch.
Qed.

End ProcessOutcome.

(** ** Worked examples on the example platform *)

#[local] Existing Instance Example.platform.


Lemma grid_partition_witness :
  (exists res,
     Example.run Example.imageA (Example.options 48 original) = Fulfilled res
     /\ ProcessResult.totalTiles res = 4)
  /\ Example.run Example.imageC (Example.options 48 optimized) = Rejected InvalidDimensions.
Proof.
  split.
  - apply (grid_partition (M := gmap string HTMLCanvasElement) Example.imageA
             (Example.options 48 original)); by_compute.
  - apply (grid_partition (M := gmap string HTMLCanvasElement) Example.imageC
             (Example.options 48 optimized)); by_compute.
Defined.

Lemma collision_classifier_witness :
  detectCollision Example.opaqueTile 48 = true
  /\ detectCollision Example.clearTile 48 = false
  /\ detectCollision Example.opaqueTile 0 = false.
Proof.
  split; [|split].
  - apply (collision_classifier Example.opaqueTile 48); [by_compute|].
    intros x y Hx Hy. now rewrite sample_inside.
  - destruct (collision_classifier Example.clearTile 48) as [Hpos _].
    destruct Hpos as (_ & _ & Hclear); [by_compute|].
    apply Hclear. intros x y Hx Hy. now rewrite sample_inside.
  - apply (collision_classifier Example.opaqueTile 0). reflexivity.
Defined.


Lemma tile_ids_are_indices_witness :
  exists res,
    Example.run Example.imageS (Example.options 2 optimized) = Fulfilled res
    /\ Z.of_nat (length (ProcessResult.tiles res)) = ProcessResult.uniqueTiles res
    /\ (forall k t, ProcessResult.tiles res !! k = Some t ->
                    TileData.id t = Z.of_nat k).
Proof.
  destruct (processImage_fulfilled (M := gmap string HTMLCanvasElement)
              Example.imageS 2 (Example.options 2 optimized))
    as (res & Hres & _); [by_compute..|].
  exists res. split; [exact Hres|].
  destruct (tile_ids_are_indices (M := gmap string HTMLCanvasElement)
              Example.imageS (Example.options 2 optimized) res)
    as (_ & Hlen & Hid); [by_compute..|exact Hres|].
  split; [now apply Hlen|exact Hid].
Defined.




Lemma imageB_halves_identical (x y : Z) :
  0 <= x < 48 -> 0 <= y < 48 ->
  Canvas.sample Example.imageB x y = Canvas.sample Example.imageB (48 + x) y.
Proof.
  intros Hx Hy. rewrite !sample_inside by (cbn; lia). cbn.
  replace (48 + x) with (x + 1 * 48) by lia. now rewrite Z.mod_add.
Qed.

Lemma identical_halves_one_tile_witness :
  exists res t,
    Example.run Example.imageB (Example.options 48 optimized) = Fulfilled res
    /\ ProcessResult.totalTiles res = 2
    /\ ProcessResult.uniqueTiles res = 1
    /\ ProcessResult.width res = 384
    /\ ProcessResult.height res = 48
    /\ ProcessResult.tiles res = [t]
    /\ TileData.id t = 0 /\ TileData.x t = 0 /\ TileData.y t = 0.
Proof.
  apply (identical_halves_one_tile (M := gmap string HTMLCanvasElement)
           Example.imageB (Some 8));
    [reflexivity..|exact imageB_halves_identical].
Defined.

(** C2 as the specification states it asks for an output 48 wide.  On the
    example image of two identical halves the output is 384 wide. *)
Lemma identical_halves_output_is_384_wide :
  Canvas.width Example.imageB = 96
  /\ Canvas.height Example.imageB = 48
  /\ tile_bytes Example.imageB 48 (0, 0) = tile_bytes Example.imageB 48 (1, 0)
  /\ exists res,
       Example.run Example.imageB (Example.options 48 optimized) = Fulfilled res
       /\ ProcessResult.uniqueTiles res = 1
       /\ ProcessResult.width res = 384
       /\ (ProcessResult.width res =? 48) = false.
Proof.
  split; [reflexivity|]. split; [reflexivity|]. split; [by_compute|].
  destruct (processImage_optimized (M := gmap string HTMLCanvasElement)
              Example.imageB 48 (Some 8)) as (items & Hrep & Heq);
    [by_compute|].
  assert (Hone : length items = 1%nat).
  { rewrite <- (Forall2_length _ _ _ Hrep). by_compute. }
  eexists. split; [exact Heq|]. cbn zeta.
  cbn [ProcessResult.uniqueTiles ProcessResult.width].
  rewrite Hone. repeat split.
Qed.

Lemma manifest_round_trip_witness :
  exists res manifest,
    Example.run Example.imageS (Example.options 2 optimized) = Fulfilled res
    /\ JSONText.parse (ProcessResult.jsonContent res) = Some manifest
    /\ manifestTiles manifest = Some [(0, true); (1, true); (2, false)].
Proof.
  destruct (processImage_fulfilled (M := gmap string HTMLCanvasElement)
              Example.imageS 2 (Example.options 2 optimized))
    as (res & Hres & _); [by_compute..|].
  destruct (manifest_round_trip (M := gmap string HTMLCanvasElement)
              Example.imageS (Example.options 2 optimized) res)
    as (manifest & entries & Hparse & Hread & Hentries & _);
    [by_compute..|exact Hres|].
  exists res, manifest. split; [exact Hres|]. split; [exact Hparse|].
  rewrite Hread, Hentries. f_equal.
  apply (f_equal (fun p => match p with
                           | Fulfilled r =>
                               map (fun t => (TileData.id t, TileData.isSolid t))
                                   (ProcessResult.tiles r)
                           | Rejected _ => []
                           end)) in Hres.
  rewrite <- Hres. by_compute.
Defined.

(** ** Worked examples for the further properties *)

Lemma fulfilled_value (p : Promise ProcessResult.t) (res : ProcessResult.t) :
  p = Fulfilled res ->
  res = match p with Fulfilled r => r | Rejected _ => res end.
Proof. now intros ->. Qed.

(** Runs [processImage] on an example and names the result [res], with its
    value computed. *)
Ltac run_example image size options res Hres :=
  destruct (processImage_fulfilled (M := gmap string HTMLCanvasElement)
              image size options) as (res & Hres & _); [by_compute..|];
  let Hval := fresh "Hval" in
  pose proof (fulfilled_value _ res Hres) as Hval; vm_compute in Hval.

Lemma imageS_framed_same_grid (x y : Z) :
  0 <= x < 6 -> 0 <= y < 4 ->
  Canvas.sample Example.imageS x y = Canvas.sample Scenario.imageS_framed x y.
Proof.
  intros Hx Hy. rewrite !sample_inside by (cbn; lia).
  cbn [Scenario.imageS_framed Example.image Canvas.bitmap].
  rewrite (proj2 (Z.ltb_lt x 6)), (proj2 (Z.ltb_lt y 4)) by lia. reflexivity.
Qed.

Lemma processImage_reads_grid_only_witness :
  Example.run Example.imageS (Example.options 2 optimized)
  = Example.run Scenario.imageS_framed (Example.options 2 optimized).
Proof.
  apply (processImage_reads_grid_only (M := gmap string HTMLCanvasElement)
           Example.imageS Scenario.imageS_framed (Example.options 2 optimized));
    [by_compute..|exact imageS_framed_same_grid].
Defined.

Lemma every_cell_is_in_the_atlas_witness :
  exists res t,
    Example.run Example.imageS (Example.options 2 optimized) = Fulfilled res
    /\ decodes Scenario.atlasS res
    /\ t ∈ ProcessResult.tiles res
    /\ TileData.isSolid t = cellSolid Example.imageS 2 (2, 1)
    /\ forall dx dy, 0 <= dx < 2 -> 0 <= dy < 2 ->
         Canvas.sample Scenario.atlasS (TileData.x t + dx) (TileData.y t + dy)
         = Canvas.sample Example.imageS (2 * 2 + dx) (1 * 2 + dy).
Proof.
  run_example Example.imageS 2 (Example.options 2 optimized) res Hres.
  assert (Hdec : decodes Scenario.atlasS res) by (rewrite Hval; by_compute).
  destruct (every_cell_is_in_the_atlas (M := gmap string HTMLCanvasElement)
              example_source_over_clear example_encodePNG_lossless
              Example.imageS 2 (Some 8) res Scenario.atlasS 2 1)
    as (t & Ht & Hsolid & Hpix);
    [by_compute|by_compute|exact Hres|exact Hdec|by_compute|by_compute|].
  exists res, t. auto.
Defined.


Lemma atlas_padding_is_transparent_witness :
  exists res,
    Example.run Example.imageS (Example.options 2 optimized) = Fulfilled res
    /\ decodes Scenario.atlasS res
    /\ Canvas.sample Scenario.atlasS 6 0 = transparent.
Proof.
  run_example Example.imageS 2 (Example.options 2 optimized) res Hres.
  assert (Hdec : decodes Scenario.atlasS res) by (rewrite Hval; by_compute).
  exists res. split; [exact Hres|]. split; [exact Hdec|].
  apply (atlas_padding_is_transparent (M := gmap string HTMLCanvasElement)
           example_encodePNG_lossless
           Example.imageS 2 (Some 8) res Scenario.atlasS 6 0);
    [by_compute|by_compute|exact Hres|exact Hdec|rewrite Hval; by_compute..].
Defined.





Lemma tiles_inside_output_and_disjoint_witness :
  exists res,
    Example.run Example.imageS (Example.options 2 optimized) = Fulfilled res
    /\ (forall t, t ∈ ProcessResult.tiles res ->
          0 <= TileData.x t
          /\ TileData.x t + 2 <= ProcessResult.width res
          /\ 0 <= TileData.y t
          /\ TileData.y t + 2 <= ProcessResult.height res
          /\ TileData.x t mod 2 = 0
          /\ TileData.y t mod 2 = 0)
    /\ (forall (i j : nat) ti tj,
          ProcessResult.tiles res !! i = Some ti ->
          ProcessResult.tiles res !! j = Some tj ->
          i <> j ->
          TileData.x ti <> TileData.x tj \/ TileData.y ti <> TileData.y tj).
Proof.
  destruct (processImage_fulfilled (M := gmap string HTMLCanvasElement)
              Example.imageS 2 (Example.options 2 optimized))
    as (res & Hres & _); [by_compute..|].
  exists res. split; [exact Hres|].
  apply (tiles_inside_output_and_disjoint (M := gmap string HTMLCanvasElement)
           Example.imageS (Example.options 2 optimized) res);
    [by_compute|by_compute|exact Hres].
Defined.



Lemma detectCollision_monotone_witness :
  detectCollision Scenario.imageD 2 = true
  /\ detectCollision Example.imageS 2 = detectCollision Scenario.imageD 2.
Proof.
  destruct (detectCollision_monotone Example.imageS Scenario.imageD 2)
    as [Hmono Hsame].
  split.
  - apply Hmono; [|by_compute]. intros x y Hx Hy _.
    rewrite sample_inside by (cbn; lia). reflexivity.
  - apply Hsame. intros x y Hx Hy. rewrite !sample_inside by (cbn; lia).
    cbn [Example.imageS Scenario.imageD Example.image Canvas.bitmap].
    rewrite (Z.div_small x 2), (Z.div_small y 2) by lia. reflexivity.
Defined.

Lemma detectCollision_false_without_extent_witness :
  detectCollision Example.opaqueTile (-3) = false
  /\ detectCollision Example.opaqueTile 0 = false.
Proof.
  split.
  - apply (detectCollision_false_without_extent Example.opaqueTile (-3)).
    by_compute.
  - apply (detectCollision_false_without_extent Example.opaqueTile 0).
    by_compute.
Defined.

Lemma manifest_header_witness :
  exists res manifest,
    Example.run Example.imageS (Example.options 2 optimized) = Fulfilled res
    /\ JSONText.parse (ProcessResult.jsonContent res) = Some manifest
    /\ member "config" manifest
       = Some (JObject [ ("tileSize"%string, JNumber 2);
                         ("mode"%string, JString "optimized");
                         ("width"%string, JNumber 16);
                         ("height"%string, JNumber 2) ]).
Proof.
  run_example Example.imageS 2 (Example.options 2 optimized) res Hres.
  destruct (manifest_header (M := gmap string HTMLCanvasElement)
              Example.imageS (Example.options 2 optimized) res Hres)
    as (manifest & Hparse & Hconfig & _).
  exists res, manifest. split; [exact Hres|]. split; [exact Hparse|].
  rewrite Hconfig, Hval. reflexivity.
Defined.


Lemma uniqueTiles_counts_distinct_tiles_witness :
  exists res,
    Example.run Example.imageS (Example.options 2 optimized) = Fulfilled res
    /\ ProcessResult.uniqueTiles res = 3.
Proof.
  destruct (processImage_fulfilled (M := gmap string HTMLCanvasElement)
              Example.imageS 2 (Example.options 2 optimized))
    as (res & Hres & _); [by_compute..|].
  exists res. split; [exact Hres|].
  rewrite (uniqueTiles_counts_distinct_tiles
             (M := gmap string HTMLCanvasElement)
             example_source_over_clear example_encodePNG_lossless
             Example.imageS 2 (Some 8) res); [by_compute|by_compute|exact Hres].
Defined.


Lemma tile_size_input_witness :
  1 <= App.tileSize (App.onTileSizeChange "-7px" App.initial)
  /\ App.tileSize (App.onTileSizeChange "32" App.initial) = 32
  /\ App.tileSize (App.onTileSizeChange EmptyString App.initial) = 48
  /\ App.setTileSize (App.tileSize App.initial)
       (App.onTileSizeChange "-7px" App.initial) = App.initial.
Proof.
  apply (tile_size_input 32 "-7px" App.initial). by_compute.
Defined.

(** The session of [Scenario] is one the component can go through. *)
Lemma scenario_reachable :
  App.reachable (M := gmap string HTMLCanvasElement) Scenario.processed [].
Proof.
  apply (App.reach_timeout Scenario.clicked Scenario.job []).
  apply (App.reach_process Scenario.loaded [] Scenario.clicked Scenario.job).
  - apply App.reach_imageLoad; [|reflexivity].
    apply App.reach_tileSize, App.reach_initial.
  - cbn. eauto.
  - reflexivity.
  - reflexivity.
Qed.

Lemma app_invariant_witness :
  1 <= App.tileSize Scenario.processed
  /\ Forall (fun job => 1 <= App.jobTileSize job) []
  /\ (length (@nil App.Job) <= 1)%nat
  /\ (App.isProcessing Scenario.processed = true <-> @nil App.Job <> [])
  /\ (is_Some (App.result Scenario.processed)
      -> is_Some (App.sourceImage Scenario.processed))
  /\ (forall res, App.result Scenario.processed = Some res ->
        exists img tileSize mode,
          1 <= tileSize
          /\ processImage (M := gmap string HTMLCanvasElement) img
               {| ProcessOptions.tileSize := tileSize;
                  ProcessOptions.mode := mode;
                  ProcessOptions.columns := Some 8 |} = Fulfilled res).
Proof.
  apply (app_invariant (M := gmap string HTMLCanvasElement)
           Scenario.processed [] scenario_reachable).
Defined.

Lemma process_outcome_witness :
  exists res,
    App.handleProcess Scenario.loaded = (Scenario.clicked, Some Scenario.job)
    /\ App.isProcessing Scenario.clicked = true
    /\ App.isProcessing Scenario.processed = false
    /\ App.result Scenario.processed = Some res
    /\ App.error Scenario.processed = None
    /\ ProcessResult.totalTiles res = 6.
Proof.
  destruct (process_outcome (M := gmap string HTMLCanvasElement)
              Scenario.loaded Example.imageS)
    as (st1 & job & Hclick & Hbusy & _ & _ & Hidle & Hfits & _);
    [reflexivity|by_compute..|].
  change (App.handleProcess Scenario.loaded)
    with (Scenario.clicked, Some Scenario.job) in Hclick.
  injection Hclick as <- <-.
  destruct Hfits as (res & _ & Hresult & Herror & Htotal); [by_compute|].
  exists res. split; [reflexivity|]. split; [exact Hbusy|].
  split; [exact Hidle|]. split; [exact Hresult|]. split; [exact Herror|].
  exact Htotal.
Defined.

Lemma export_after_processing_witness :
  App.handleDownload App.png Scenario.loaded = None
  /\ exists res manifest,
       App.result Scenario.processed = Some res
       /\ App.handleDownload App.png Scenario.processed
          = Some {| App.download := "map_original_tileset.png";
                    App.href := App.DataURL (ProcessResult.dataUrl res) |}
       /\ App.handleDownload App.json Scenario.processed
          = Some {| App.download := "map_original_data.json";
                    App.href := App.BlobURL (ProcessResult.jsonContent res)
                                            "application/json" |}
       /\ JSONText.parse (ProcessResult.jsonContent res) = Some manifest
       /\ member "config" manifest
          = Some (JObject [ ("tileSize"%string, JNumber 2);
                            ("mode"%string, JString "original");
                            ("width"%string, JNumber (ProcessResult.width res));
                            ("height"%string, JNumber (ProcessResult.height res)) ]).
Proof.
  destruct (export_after_processing (M := gmap string HTMLCanvasElement)
              Scenario.configured Scenario.file Example.imageS
              "map" "v2.png" App.png)
    as (Hnone & st2 & job & res & manifest & Hclick & Hrest);
    [reflexivity|reflexivity|reflexivity|by_compute..|].
  change (App.handleProcess (App.onImageLoad Scenario.file Example.imageS
                               Scenario.configured))
    with (Scenario.clicked, Some Scenario.job) in Hclick.
  injection Hclick as <- <-.
  split; [exact Hnone|]. exists res, manifest. exact Hrest.
Defined.
